(** * TransChat: message-stream reconciliation and presentation pipeline

    A shallow embedding of the logic of
    [src/components/Chat/ChatWindow.tsx] (message subscription, local
    deletion and block filtering, translation overlay, read-state
    tracking, grouping with date and unread separators) and of the chat
    list aggregation of [ChatList], with the properties the
    specification states about them; then of the rest of the two
    components (sending and replying, the chat list and its handlers),
    with further properties of the code. *)

From stdpp Require Import base numbers option list sorting strings gmap.

Open Scope Z_scope.

(** ** The JavaScript values the components rely on *)

Module JS.

(** A JavaScript Number, as far as the components observe it: an integer
    or NaN. *)
Inductive number : Type :=
| NaN
| Num (z : Z).

(** [a === b] on Numbers: NaN is different from everything, itself
    included. *)
Definition strict_eq (a b : number) : bool :=
  match a, b with
  | Num x, Num y => bool_decide (x = y)
  | _, _ => false
  end.

(** Truthiness of an optional string ([undefined] and the empty string are
    falsy). *)
Definition truthy (s : option string) : bool :=
  match s with
  | Some s => negb (bool_decide (s = EmptyString))
  | None => false
  end.

(** The settled outcome of a promise. *)
Inductive Promise (A : Type) : Type :=
| Resolved (a : A)
| Rejected.
Arguments Resolved {A} a.
Arguments Rejected {A}.

(** [await p; k] *)
Definition await {A B : Type} (p : Promise A) (k : A → Promise B) : Promise B :=
  match p with
  | Resolved a => k a
  | Rejected => Rejected
  end.

(** [Promise.all(l.map(f))]: fulfilled with all the results in order,
    rejected as soon as one of them is. *)
Fixpoint all_map {A B : Type} (f : A → Promise B) (l : list A) : Promise (list B) :=
  match l with
  | [] => Resolved []
  | x :: l' =>
      await (f x) (fun y => await (all_map f l') (fun ys => Resolved (y :: ys)))
  end.

(** An object together with its identity: React compares the dependencies
    of an effect with [Object.is], which on objects is identity. *)
Record Obj (A : Type) : Type := mkObj { addr : nat; val : A }.
Arguments mkObj {A} addr val.
Arguments addr {A} o.
Arguments val {A} o.

(** *** Date

    A Date holds a time value: milliseconds since the epoch, or NaN for
    an invalid date.  The calendar functions are those of ECMAScript
    (21.4.1, Day Number, Year Number, Month Number, Date Number). *)
Record Date : Type := mkDate { timeValue : number }.

Definition msPerDay : Z := 86400000.

Definition Day (t : Z) : Z := t `div` msPerDay.

Definition DayFromYear (y : Z) : Z :=
  365 * (y - 1970) + (y - 1969) `div` 4 - (y - 1901) `div` 100 + (y - 1601) `div` 400.

Definition InLeapYear_of (y : Z) : Z :=
  if bool_decide (y `mod` 4 ≠ 0) then 0
  else if bool_decide (y `mod` 100 ≠ 0) then 1
  else if bool_decide (y `mod` 400 ≠ 0) then 0
  else 1.

(** The largest [y] with [DayFromYear y <= Day t]: an estimate from the
    mean length of a year, corrected by at most one. *)
Definition YearFromTime (t : Z) : Z :=
  let day := Day t in
  let ya := 1970 + (day * 400) `div` 146097 in
  if bool_decide (day < DayFromYear ya) then ya - 1
  else if bool_decide (DayFromYear (ya + 1) ≤ day) then ya + 1
  else ya.

Definition InLeapYear (t : Z) : Z := InLeapYear_of (YearFromTime t).

Definition DayWithinYear (t : Z) : Z := Day t - DayFromYear (YearFromTime t).

Definition MonthFromTime (t : Z) : Z :=
  let d := DayWithinYear t in
  let leap := InLeapYear t in
  if bool_decide (d < 31) then 0
  else if bool_decide (d < 59 + leap) then 1
  else if bool_decide (d < 90 + leap) then 2
  else if bool_decide (d < 120 + leap) then 3
  else if bool_decide (d < 151 + leap) then 4
  else if bool_decide (d < 181 + leap) then 5
  else if bool_decide (d < 212 + leap) then 6
  else if bool_decide (d < 243 + leap) then 7
  else if bool_decide (d < 273 + leap) then 8
  else if bool_decide (d < 304 + leap) then 9
  else if bool_decide (d < 334 + leap) then 10
  else 11.

(** First day within the year of month [m] (0-based). *)
Definition monthStart (m leap : Z) : Z :=
  if bool_decide (m = 0) then 0
  else if bool_decide (m = 1) then 31
  else if bool_decide (m = 2) then 59 + leap
  else if bool_decide (m = 3) then 90 + leap
  else if bool_decide (m = 4) then 120 + leap
  else if bool_decide (m = 5) then 151 + leap
  else if bool_decide (m = 6) then 181 + leap
  else if bool_decide (m = 7) then 212 + leap
  else if bool_decide (m = 8) then 243 + leap
  else if bool_decide (m = 9) then 273 + leap
  else if bool_decide (m = 10) then 304 + leap
  else 334 + leap.

Definition DateFromTime (t : Z) : Z :=
  DayWithinYear t - monthStart (MonthFromTime t) (InLeapYear t) + 1.

Section LocalTime.

(** The offset of the host's time zone at time [t], in milliseconds
    (ECMAScript's LocalTZA). *)
Variable LocalTZA : Z → Z.

Definition LocalTime (t : Z) : Z := t + LocalTZA t.

Definition getFullYear (d : Date) : number :=
  match timeValue d with
  | NaN => NaN
  | Num t => Num (YearFromTime (LocalTime t))
  end.

Definition getMonth (d : Date) : number :=
  match timeValue d with
  | NaN => NaN
  | Num t => Num (MonthFromTime (LocalTime t))
  end.

Definition getDate (d : Date) : number :=
  match timeValue d with
  | NaN => NaN
  | Num t => Num (DateFromTime (LocalTime t))
  end.

(** The local day number of a valid date. *)
Definition localDay (t : Z) : Z := Day (LocalTime t).

End LocalTime.

End JS.

(** ** The data model ([src/types], as the components use it) *)

Module Types.

(** Modelled from the spec: the [types] module is not part of the sources;
    the fields are those the components read and write and those of the
    spec's data model (section 3). *)
Record User : Type := mkUser {
  uid : string;
  displayName : string;
  email : string;
  blockList : option (list string);
}.

(** Modelled from the spec: see [User]. *)
Record Message : Type := mkMessage {
  id : string;
  senderId : string;
  originalText : option string;
  translatedText : option string;
  mediaUrl : option string;
  mediaType : option string;
  fileName : option string;
  fileSize : option Z;
  timestamp : JS.Date;
  replyToId : option string;
  replyToName : option string;
  replyToText : option string;
}.

(** [{ ...msg, translatedText: translated }] *)
Definition withTranslatedText (msg : Message) (translated : string) : Message :=
  {| id := id msg;
     senderId := senderId msg;
     originalText := originalText msg;
     translatedText := Some translated;
     mediaUrl := mediaUrl msg;
     mediaType := mediaType msg;
     fileName := fileName msg;
     fileSize := fileSize msg;
     timestamp := timestamp msg;
     replyToId := replyToId msg;
     replyToName := replyToName msg;
     replyToText := replyToText msg |}.

(** Modelled from the spec: the per (chat, user) translation settings. *)
Record TranslationSettings : Type := mkSettings {
  enabled : bool;
  targetLanguage : string;
}.

End Types.

(** ** The deletion ledger ([services/deletionService]) *)

Module DeletionService.

(** Modelled from the spec: the deletion service is not part of the
    sources.  Section 4.2: a process-wide record, keyed by chat, of the
    message ids hidden on this device; recording is idempotent, nothing
    expires, [isDeleted] is a membership test and [deletedIdsForChat]
    returns the set used for batch filtering.  The names are those
    [ChatWindow] imports. *)
Definition getDeletedMessagesForChat (ledger : gmap string (gset string))
    (chatId : string) : gset string :=
  default ∅ (ledger !! chatId).

(** Modelled from the spec: see [getDeletedMessagesForChat]. *)
Definition addLocalDeletedMessage (chatId messageId : string)
    (ledger : gmap string (gset string)) : gmap string (gset string) :=
  <[chatId := {[messageId]} ∪ getDeletedMessagesForChat ledger chatId]> ledger.

(** Modelled from the spec: see [getDeletedMessagesForChat]. *)
Definition isMessageLocallyDeleted (ledger : gmap string (gset string))
    (chatId messageId : string) : bool :=
  bool_decide (messageId ∈ getDeletedMessagesForChat ledger chatId).

End DeletionService.

(** ** ChatWindow *)

Module ChatWindow.
Import JS Types DeletionService.

(** An item of the displayed sequence:
    [{ type: 'message' | 'date' | 'unread'; data: Message | Date | null }]. *)
Inductive Item : Type :=
| ItemMessage (data : Message)
| ItemDate (data : Date)
| ItemUnread.

(** The local variables of [getMessagesWithDateSeparators]. *)
Record LoopState : Type := mkLoop {
  messagesWithSeparators : list Item;
  unreadSeparatorAdded : bool;
}.

(** [array.push(x)] *)
Definition push {A : Type} (array : list A) (x : A) : list A := array ++ [x].

(** [array.forEach((element, index) => ...)], threading the variables the
    callback assigns; [None] is an exception thrown by the callback. *)
Fixpoint forEach_from {A St : Type} (callback : St → A → nat → option St)
    (index : nat) (array : list A) (s : St) : option St :=
  match array with
  | [] => Some s
  | element :: rest =>
      s' ← callback s element index;
      forEach_from callback (S index) rest s'
  end.

Definition forEach {A St : Type} (callback : St → A → nat → option St)
    (array : list A) (s : St) : option St :=
  forEach_from callback 0%nat array s.

Section Grouper.

Variable LocalTZA : Z → Z.

Definition isSameDay (date1 date2 : Date) : bool :=
  strict_eq (getFullYear LocalTZA date1) (getFullYear LocalTZA date2) &&
  strict_eq (getMonth LocalTZA date1) (getMonth LocalTZA date2) &&
  strict_eq (getDate LocalTZA date1) (getDate LocalTZA date2).

(** The body of the [forEach] callback.  [messages[index - 1]] is
    [undefined] out of range, and reading [.timestamp] of it throws. *)
Definition groupMessage (messages : list Message) (unreadMessageIds : gset string)
    (st : LoopState) (message : Message) (index : nat) : option LoopState :=
  out ←
    (if bool_decide (index = 0%nat) then
       Some (push (messagesWithSeparators st) (ItemDate (timestamp message)))
     else
       previousMessage ← messages !! (index - 1)%nat;
       if negb (isSameDay (timestamp previousMessage) (timestamp message)) then
         Some (push (messagesWithSeparators st) (ItemDate (timestamp message)))
       else Some (messagesWithSeparators st));
  let st' :=
    if bool_decide (id message ∈ unreadMessageIds) && negb (unreadSeparatorAdded st) then
      mkLoop (push out ItemUnread) true
    else mkLoop out (unreadSeparatorAdded st) in
  Some (mkLoop (push (messagesWithSeparators st') (ItemMessage message))
               (unreadSeparatorAdded st')).

Definition getMessagesWithDateSeparators (messages : list Message)
    (unreadMessageIds : gset string) : option (list Item) :=
  st ← forEach (groupMessage messages unreadMessageIds) messages (mkLoop [] false);
  Some (messagesWithSeparators st).

End Grouper.


(** *** The component

    The state of one mounted [ChatWindow], the effects of a commit and the
    handlers, as a transition system.  A [World] also holds what outlives
    a render: the live subscription, the calls to [setMessages] that wait
    for an awaited promise to settle (the translations of a batch, a
    deletion for everyone), the deletion ledger of the process and the
    calls issued to the services, oldest first.  The handlers that send a message or pick
    the message replied to read and write none of this but [replyingTo] and
    [uploading]; they are modelled apart, in [Composer]. *)

(** What a render reads from the props and the contexts.  [blockedUsers]
    is the prop after its default ([new Set()], a new object at each
    render when the prop is absent). *)
Record Env : Type := mkEnv {
  chatId : string;
  otherUser : User;
  blockedUsers : Obj (gset string);
  currentUser : option (Obj User);
  getSettings : Obj (string → TranslationSettings);
}.

(** The [useState] and [useRef] cells. *)
Record State : Type := mkState {
  messages : list Message;
  translationEnabled : bool;
  targetLanguage : string;
  showSettings : bool;
  uploading : bool;
  replyingTo : option Message;
  showContactProfile : bool;
  unreadMessageIds : gset string;
  hasMarkedAsReadRef : bool;
}.

Definition setMessages (v : list Message) (s : State) : State :=
  mkState v (translationEnabled s) (targetLanguage s) (showSettings s) (uploading s)
    (replyingTo s) (showContactProfile s) (unreadMessageIds s) (hasMarkedAsReadRef s).

Definition setTranslationEnabled (v : bool) (s : State) : State :=
  mkState (messages s) v (targetLanguage s) (showSettings s) (uploading s)
    (replyingTo s) (showContactProfile s) (unreadMessageIds s) (hasMarkedAsReadRef s).

Definition setTargetLanguage (v : string) (s : State) : State :=
  mkState (messages s) (translationEnabled s) v (showSettings s) (uploading s)
    (replyingTo s) (showContactProfile s) (unreadMessageIds s) (hasMarkedAsReadRef s).

Definition setShowSettings (v : bool) (s : State) : State :=
  mkState (messages s) (translationEnabled s) (targetLanguage s) v (uploading s)
    (replyingTo s) (showContactProfile s) (unreadMessageIds s) (hasMarkedAsReadRef s).

Definition setUnreadMessageIds (v : gset string) (s : State) : State :=
  mkState (messages s) (translationEnabled s) (targetLanguage s) (showSettings s) (uploading s)
    (replyingTo s) (showContactProfile s) v (hasMarkedAsReadRef s).

(** [hasMarkedAsReadRef.current = v] *)
Definition setHasMarkedAsReadRef (v : bool) (s : State) : State :=
  mkState (messages s) (translationEnabled s) (targetLanguage s) (showSettings s) (uploading s)
    (replyingTo s) (showContactProfile s) (unreadMessageIds s) v.

(** The calls to the chat service and to the translation context. *)
Inductive Call : Type :=
| GetUnreadMessages (chat user : string)
| GetChatMessages (chat : string)
| Unsubscribe (chat : string)
| MarkMessagesAsRead (chat user : string)
| UpdateTranslationSettings (chat user : string) (enabled : bool) (language : string)
| SetSettings (chat : string) (settings : TranslationSettings)
| DeleteMessageForEveryone (messageId : string).

(** What the callback given to [getChatMessages] closes over. *)
Record Subscription : Type := mkSubscription {
  subChatId : string;
  subBlockedUsers : gset string;
  subTranslationEnabled : bool;
  subTargetLanguage : string;
  subCurrentUser : User;
}.

(** The values a render closes over and the effects depend on. *)
Record Deps : Type := mkDeps {
  env : Env;
  depTranslationEnabled : bool;
  depTargetLanguage : string;
}.

Record World : Type := mkWorld {
  state : State;
  rendered : option Deps;
  subscription : option Subscription;
  inflight : list (Promise (list Message));
  deletedMessages : gmap string (gset string);
  calls : list Call;
}.

Definition withState (f : State → State) (w : World) : World :=
  mkWorld (f (state w)) (rendered w) (subscription w) (inflight w) (deletedMessages w)
    (calls w).

Definition call (c : Call) (w : World) : World :=
  mkWorld (state w) (rendered w) (subscription w) (inflight w) (deletedMessages w)
    (push (calls w) c).

Definition withSubscription (s : option Subscription) (w : World) : World :=
  mkWorld (state w) (rendered w) s (inflight w) (deletedMessages w) (calls w).

Definition withRendered (d : Deps) (w : World) : World :=
  mkWorld (state w) (Some d) (subscription w) (inflight w) (deletedMessages w) (calls w).

Definition withInflight (l : list (Promise (list Message))) (w : World) : World :=
  mkWorld (state w) (rendered w) (subscription w) l (deletedMessages w) (calls w).

Definition withDeletedMessages (l : gmap string (gset string)) (w : World) : World :=
  mkWorld (state w) (rendered w) (subscription w) (inflight w) l (calls w).

Definition initialState (initialTranslationEnabled : bool)
    (initialTargetLanguage : string) : State :=
  mkState [] initialTranslationEnabled initialTargetLanguage false false None false ∅ false.

Definition initialWorld (initialTranslationEnabled : bool)
    (initialTargetLanguage : string) (ledger : gmap string (gset string)) : World :=
  mkWorld (initialState initialTranslationEnabled initialTargetLanguage) None None [] ledger
    [].

(** A dependency changed since the last commit ([Object.is]); every effect
    runs at the first commit. *)
Definition depChanged {A : Type} `{EqDecision A} (prev : option Deps) (now : Deps)
    (dep : Deps → A) : bool :=
  match prev with
  | None => true
  | Some p => negb (bool_decide (dep p = dep now))
  end.

Definition depChatId (d : Deps) : string := chatId (env d).
Definition depGetSettings (d : Deps) : nat := addr (getSettings (env d)).
Definition depCurrentUser (d : Deps) : option nat := addr <$> currentUser (env d).
Definition depBlockedUsers (d : Deps) : nat := addr (blockedUsers (env d)).

(** Effect 1, on [chatId, getSettings]. *)
Definition settingsEffect (now : Deps) (w : World) : World :=
  let settings := val (getSettings (env now)) (chatId (env now)) in
  withState (λ s, setTargetLanguage (Types.targetLanguage settings)
                    (setTranslationEnabled (enabled settings) s)) w.

(** Effect 2, on [chatId]. *)
Definition resetGuardEffect (w : World) : World :=
  withState (setHasMarkedAsReadRef false) w.

(** Effect 3, on [chatId, translationEnabled, targetLanguage, currentUser,
    blockedUsers]: first the cleanup the previous run returned, if any. *)
Definition subscriptionEffect (now : Deps) (w : World) : World :=
  let w :=
    match subscription w with
    | Some s => withSubscription None (call (Unsubscribe (subChatId s)) w)
    | None => w
    end in
  match currentUser (env now) with
  | Some user =>
      if bool_decide (chatId (env now) = EmptyString) then w
      else
        let w :=
          if negb (hasMarkedAsReadRef (state w)) then
            withState (setHasMarkedAsReadRef true)
              (call (GetUnreadMessages (chatId (env now)) (uid (val user))) w)
          else w in
        withSubscription
          (Some (mkSubscription (chatId (env now)) (val (blockedUsers (env now)))
                   (depTranslationEnabled now) (depTargetLanguage now) (val user)))
          (call (GetChatMessages (chatId (env now))) w)
  | None => w
  end.

(** Effect 5, on [chatId, currentUser] (effect 4 only scrolls). *)
Definition markAsReadEffect (now : Deps) (w : World) : World :=
  match currentUser (env now) with
  | Some user =>
      if bool_decide (chatId (env now) = EmptyString) then w
      else call (MarkMessagesAsRead (chatId (env now)) (uid (val user))) w
  | None => w
  end.

(** A commit: the effects whose dependencies changed run in the order of
    their declaration, on the values the render closed over. *)
Definition render (e : Env) (w : World) : World :=
  let prev := rendered w in
  let now := mkDeps e (translationEnabled (state w)) (targetLanguage (state w)) in
  let w :=
    if depChanged prev now depChatId || depChanged prev now depGetSettings
    then settingsEffect now w else w in
  let w := if depChanged prev now depChatId then resetGuardEffect w else w in
  let w :=
    if depChanged prev now depChatId || depChanged prev now depTranslationEnabled
       || depChanged prev now depTargetLanguage || depChanged prev now depCurrentUser
       || depChanged prev now depBlockedUsers
    then subscriptionEffect now w else w in
  let w :=
    if depChanged prev now depChatId || depChanged prev now depCurrentUser
    then markAsReadEffect now w else w in
  withRendered now w.

(** *** The subscription callback *)

Section Subscriber.

(** The translation service: the outcome of [translateText(text, lang)]. *)
Variable translateText : string → string → Promise string.

(** The function mapped over the filtered messages when translation is
    enabled. *)
Definition translateMessage (currentUser : User) (targetLanguage : string)
    (msg : Message) : Promise Message :=
  if negb (bool_decide (senderId msg = uid currentUser)) && truthy (originalText msg) then
    match originalText msg with
    | Some text =>
        await (translateText text targetLanguage) (λ translated,
        Resolved (withTranslatedText msg translated))
    | None => Resolved msg (* not reached: [undefined] is falsy *)
    end
  else Resolved msg.

(** The callback given to [getChatMessages]; the result is the batch
    passed to [setMessages], [Rejected] when a translation fails and
    nothing is published. *)
Definition onMessages (deletedLocally blockedUsers : gset string)
    (translationEnabled : bool) (targetLanguage : string) (currentUser : option User)
    (fetchedMessages : list Message) : Promise (list Message) :=
  let filteredMessages :=
    filter (λ msg, ¬ (id msg ∈ deletedLocally) ∧ ¬ (senderId msg ∈ blockedUsers))
      fetchedMessages in
  if translationEnabled then
    match currentUser with
    | Some user =>
        await (all_map (translateMessage user targetLanguage) filteredMessages)
          (λ translatedMessages, Resolved translatedMessages)
    | None => Resolved filteredMessages
    end
  else Resolved filteredMessages.

(** *** Handlers and events *)

(** The handlers read the props and contexts of the last render, and the
    state as it is (a render follows every change of state); before the
    first render there is nothing to click. *)
Definition handleToggleTranslation (w : World) : World :=
  match rendered w with
  | Some d =>
      if negb (translationEnabled (state w)) then withState (setShowSettings true) w
      else
        let w := withState (setTranslationEnabled false) w in
        match currentUser (env d) with
        | Some user =>
            call (UpdateTranslationSettings (chatId (env d)) (uid (val user)) false
                    (targetLanguage (state w))) w
        | None => w
        end
  | None => w
  end.

(** [updated] is the outcome of the awaited [updateTranslationSettings], taken
    to settle before anything else happens. *)
Definition handleSaveTranslationSettings (enabled : bool) (language : string)
    (updated : Promise ()) (w : World) : World :=
  match rendered w with
  | Some d =>
      match currentUser (env d) with
      | Some user =>
          let w := withState (setTranslationEnabled enabled) w in
          let w := withState (setTargetLanguage language) w in
          let w := call (SetSettings (chatId (env d)) (mkSettings enabled language)) w in
          let w :=
            call (UpdateTranslationSettings (chatId (env d)) (uid (val user)) enabled language)
              w in
          match updated with
          | Resolved _ => withState (setShowSettings false) w
          | Rejected => w
          end
      | None => w
      end
  | None => w
  end.

Definition handleLanguageChange (language : string) (w : World) : World :=
  match rendered w with
  | Some d =>
      match currentUser (env d) with
      | Some user =>
          let enabled := translationEnabled (state w) in
          let w := withState (setTargetLanguage language) w in
          let w := call (SetSettings (chatId (env d)) (mkSettings enabled language)) w in
          call (UpdateTranslationSettings (chatId (env d)) (uid (val user)) enabled language) w
      | None => w
      end
  | None => w
  end.

Definition handleDeleteLocalMessage (messageId : string) (w : World) : World :=
  match rendered w with
  | Some d =>
      let w :=
        withDeletedMessages
          (addLocalDeletedMessage (chatId (env d)) messageId (deletedMessages w)) w in
      withState
        (setMessages (filter (λ msg, id msg ≠ messageId) (messages (state w)))) w
  | None => w
  end.

(** [deleted] is the outcome the awaited [deleteMessageForEveryone] will
    have.  The handler calls the service and waits: what follows the
    [await] is left in [inflight], with the [messages] the handler closed
    over, and runs when the call has settled, whatever happened in
    between: [setMessages(messages.filter(...))] if it succeeded, nothing
    but an alert if it failed. *)
Definition handleDeleteMessageForEveryone (messageId : string) (deleted : Promise ())
    (w : World) : World :=
  match rendered w with
  | Some d =>
      let w := call (DeleteMessageForEveryone messageId) w in
      withInflight
        (push (inflight w)
           (await deleted (λ _,
            Resolved (filter (λ msg, id msg ≠ messageId) (messages (state w))))))
        w
  | None => w
  end.

(** The callback of subscription [s], run on [fetchedMessages] with the
    ledger as it is at the delivery. *)
Definition callback (s : Subscription) (ledger : gmap string (gset string))
    (fetchedMessages : list Message) : Promise (list Message) :=
  onMessages (getDeletedMessagesForChat ledger (subChatId s)) (subBlockedUsers s)
    (subTranslationEnabled s) (subTargetLanguage s) (Some (subCurrentUser s))
    fetchedMessages.

(** The subscription delivers [fetchedMessages].  Without translation the
    callback runs to [setMessages] at once; with translation it awaits the
    translations, and the batch is published when they have settled,
    whatever happened in between. *)
Definition deliver (fetchedMessages : list Message) (w : World) : World :=
  match subscription w with
  | Some s =>
      let batch := callback s (deletedMessages w) fetchedMessages in
      if subTranslationEnabled s then withInflight (push (inflight w) batch) w
      else
        match batch with
        | Resolved processedMessages => withState (setMessages processedMessages) w
        | Rejected => w
        end
  | None => w
  end.

(** What the [i]-th entry of [inflight] awaits has settled (the
    translations of a batch, or a deletion for everyone): the function that
    awaited goes on to its [setMessages], or ends there if the promise was
    rejected. *)
Definition settle (i : nat) (w : World) : World :=
  match inflight w !! i with
  | Some batch =>
      let w := withInflight (delete i (inflight w)) w in
      match batch with
      | Resolved processedMessages => withState (setMessages processedMessages) w
      | Rejected => w
      end
  | None => w
  end.

(** [TranslationsSettled i] settles the [i]-th entry of [inflight], be it
    a batch awaiting its translations or a deletion for everyone awaiting
    the chat service. *)
Inductive Event : Type :=
| Render (e : Env)
| UnreadMessagesResolved (unreadMsgs : list Message)
| MarkAsReadResolved
| MessagesDelivered (fetchedMessages : list Message)
| TranslationsSettled (i : nat)
| ToggleTranslation
| SaveTranslationSettings (enabled : bool) (language : string) (updated : Promise ())
| LanguageChange (language : string)
| DeleteLocalMessage (messageId : string)
| DeleteForEveryone (messageId : string) (deleted : Promise ()).

Definition step (w : World) (ev : Event) : World :=
  match ev with
  | Render e => render e w
  | UnreadMessagesResolved unreadMsgs =>
      withState (setUnreadMessageIds (list_to_set (id <$> unreadMsgs))) w
  | MarkAsReadResolved => withState (setUnreadMessageIds ∅) w
  | MessagesDelivered fetchedMessages => deliver fetchedMessages w
  | TranslationsSettled i => settle i w
  | ToggleTranslation => handleToggleTranslation w
  | SaveTranslationSettings enabled language updated =>
      handleSaveTranslationSettings enabled language updated w
  | LanguageChange language => handleLanguageChange language w
  | DeleteLocalMessage messageId => handleDeleteLocalMessage messageId w
  | DeleteForEveryone messageId deleted => handleDeleteMessageForEveryone messageId deleted w
  end.

Definition run (events : list Event) (w : World) : World := foldl step w events.

End Subscriber.

(** What the component displays for its current state. *)
Definition display (LocalTZA : Z → Z) (w : World) : option (list Item) :=
  getMessagesWithDateSeparators LocalTZA (messages (state w)) (unreadMessageIds (state w)).

End ChatWindow.

(** ** ChatList *)

Module ChatList.
Import JS Types.

(** Modelled from the spec: the [types] module is not part of the sources
    (section 3, Chat). *)
Record Chat : Type := mkChat {
  id : string;
  participants : list string;
  lastMessage : string;
  lastMessageTime : Date;
  translationSettings : gmap string TranslationSettings;
  deletedAt : option Date;
}.

(** [{ ...chat, otherUser, unreadCount } as ChatWithUser] *)
Record ChatWithUser : Type := mkChatWithUser {
  chat : Chat;
  otherUser : User;
  unreadCount : option Z;
}.

Section Aggregator.

(** The chat service: the outcomes of [getUser(uid)], [hasChatMessages(chatId)]
    and [getUnreadCount(chatId, uid)]. *)
Variable getUser : string → Promise (option User).
Variable hasChatMessages : string → Promise bool.
Variable getUnreadCount : string → string → Promise Z.

(** The function mapped over the fetched chats; [None] is [null]. *)
Definition enrichChat (currentUser : User) (chat : Chat) : Promise (option ChatWithUser) :=
  match deletedAt chat with
  | Some _ => Resolved None
  | None =>
      let otherUserId :=
        List.find (λ id, negb (bool_decide (id = uid currentUser))) (participants chat) in
      if negb (truthy otherUserId) then Resolved None
      else
        match otherUserId with
        | Some otherUserId =>
            await (getUser otherUserId) (λ otherUser,
            match otherUser with
            | None => Resolved None
            | Some otherUser =>
                await (hasChatMessages (id chat)) (λ hasMessages,
                if negb hasMessages then Resolved None
                else
                  await (getUnreadCount (id chat) (uid currentUser)) (λ unreadCount,
                  Resolved (Some (mkChatWithUser chat otherUser (Some unreadCount)))))
            end)
        | None => Resolved None (* not reached: [undefined] is falsy *)
        end
  end.

(** The callback given to [getUserChats]; the result is the list passed to
    [setChats], [Rejected] when a call to the chat service fails and the
    list is not updated. *)
Definition onChats (currentUser : User) (fetchedChats : list Chat)
    : Promise (list ChatWithUser) :=
  await (all_map (enrichChat currentUser) fetchedChats) (λ chatsWithUsers,
  Resolved (omap (λ chat, chat) chatsWithUsers)).

End Aggregator.

End ChatList.

(** ** Vocabulary for the properties of display sequences *)

Module Display.
Import JS Types ChatWindow.

#[global] Instance number_eq_dec : EqDecision number.
Proof. solve_decision. Defined.

(** The messages of a display sequence, in order. *)
Definition messagesOf (items : list Item) : list Message :=
  omap (λ it, match it with ItemMessage m => Some m | _ => None end) items.

Definition isDateItem (it : Item) : bool :=
  match it with ItemDate _ => true | _ => false end.

Definition isUnreadItem (it : Item) : bool :=
  match it with ItemUnread => true | _ => false end.

Fixpoint countItems (p : Item → bool) (items : list Item) : nat :=
  match items with
  | [] => 0%nat
  | it :: items' => ((if p it then 1 else 0) + countItems p items')%nat
  end.

(** [a] has the fields of [b], [translatedText] left aside. *)
Definition sameBesidesTranslatedText (a b : Message) : Prop :=
  id a = id b ∧ senderId a = senderId b ∧ originalText a = originalText b
  ∧ mediaUrl a = mediaUrl b ∧ mediaType a = mediaType b ∧ fileName a = fileName b
  ∧ fileSize a = fileSize b ∧ timestamp a = timestamp b ∧ replyToId a = replyToId b
  ∧ replyToName a = replyToName b ∧ replyToText a = replyToText b.

(** Some message of [l] is in the unread set. *)
Definition anyUnread (unread : gset string) (l : list Message) : bool :=
  existsb (λ m, bool_decide (id m ∈ unread)) l.

(** The messages carry valid timestamps in non-decreasing order. *)
Fixpoint orderedAfter (t : Z) (l : list Message) : bool :=
  match l with
  | [] => true
  | m :: l' =>
      match timeValue (timestamp m) with
      | Num t' => bool_decide (t ≤ t') && orderedAfter t' l'
      | NaN => false
      end
  end.

Definition timestampOrdered (l : list Message) : bool :=
  match l with
  | [] => true
  | m :: l' =>
      match timeValue (timestamp m) with
      | Num t => orderedAfter t l'
      | NaN => false
      end
  end.

Definition timeLe (m1 m2 : Message) : Prop :=
  ∃ t1 t2, timeValue (timestamp m1) = Num t1 ∧ timeValue (timestamp m2) = Num t2 ∧ t1 ≤ t2.

Section Calendar.

Variable LocalTZA : Z → Z.

(** The local calendar day of a date: year, month and day of the month. *)
Definition calendarDay (d : Date) : number * number * number :=
  (getFullYear LocalTZA d, getMonth LocalTZA d, getDate LocalTZA d).

(** No message of [pre] is on the calendar day of [m]: after the messages
    [pre], [m] is the first message of its day. *)
Definition firstOfDay (pre : list Message) (m : Message) : bool :=
  forallb (λ m', negb (bool_decide (calendarDay (timestamp m') = calendarDay (timestamp m))))
    pre.

(** The loop of [getMessagesWithDateSeparators] by recursion on the
    messages left, from the previous message and the flag. *)
Definition dateSeparator (previous : option Message) (message : Message) : list Item :=
  match previous with
  | None => [ItemDate (timestamp message)]
  | Some p =>
      if isSameDay LocalTZA (timestamp p) (timestamp message) then []
      else [ItemDate (timestamp message)]
  end.

Definition unreadSeparator (unread : gset string) (added : bool) (message : Message)
    : list Item :=
  if bool_decide (id message ∈ unread) && negb added then [ItemUnread] else [].

Fixpoint grouped (unread : gset string) (previous : option Message) (added : bool)
    (l : list Message) : list Item :=
  match l with
  | [] => []
  | m :: l' =>
      dateSeparator previous m ++ unreadSeparator unread added m ++
      ItemMessage m :: grouped unread (Some m) (added || bool_decide (id m ∈ unread)) l'
  end.

End Calendar.

(** The two hosts agree on whether [previous] and the first message of
    [l], and then each message of [l] and the next, are on the same day. *)
Fixpoint sameDaysFrom (zone1 zone2 : Z → Z) (previous : option Message) (l : list Message)
    : Prop :=
  match l with
  | [] => True
  | m :: l' =>
      match previous with
      | Some p =>
          isSameDay zone1 (timestamp p) (timestamp m)
          = isSameDay zone2 (timestamp p) (timestamp m)
      | None => True
      end
      ∧ sameDaysFrom zone1 zone2 (Some m) l'
  end.

End Display.

(** ** Vocabulary for the properties of traces *)

Module Trace.
Import JS Types ChatWindow.

(** The event leaves the window on chat [c]: it is no render for another
    chat. *)
Definition staysInChat (c : string) (ev : Event) : bool :=
  match ev with
  | Render e => bool_decide (chatId e = c)
  | _ => true
  end.

(** The event is not the settling of one of the two read-state calls. *)
Definition keepsReadState (ev : Event) : bool :=
  match ev with
  | UnreadMessagesResolved _ | MarkAsReadResolved => false
  | _ => true
  end.

Definition isSnapshotCall (c : Call) : bool :=
  match c with GetUnreadMessages _ _ => true | _ => false end.

Fixpoint countCalls (p : Call → bool) (l : list Call) : nat :=
  match l with
  | [] => 0%nat
  | c :: l' => ((if p c then 1 else 0) + countCalls p l')%nat
  end.

(** The snapshot calls issued so far, and one more while the guard is not
    set. *)
Definition snapshotBudget (w : World) : nat :=
  (countCalls isSnapshotCall (calls w)
   + (if hasMarkedAsReadRef (state w) then 0 else 1))%nat.

(** The live subscription, if any, is on the chat of the last render. *)
Definition subscribedToRendered (w : World) : Prop :=
  ∀ d s, rendered w = Some d → subscription w = Some s → subChatId s = chatId (env d).

(** Chat [c] is open, the live subscription, if any, is on it, and message
    [messageId] is in its ledger. *)
Definition hiddenIn (c messageId : string) (w : World) : Prop :=
  (∃ d, rendered w = Some d ∧ chatId (env d) = c)
  ∧ (∀ s, subscription w = Some s → subChatId s = c)
  ∧ messageId ∈ DeletionService.getDeletedMessagesForChat (deletedMessages w) c.

(** No message with id [messageId] is in view, nor in a list that waits
    in [inflight] for its [setMessages]. *)
Definition outOfSight (messageId : string) (w : World) : Prop :=
  (∀ m, m ∈ messages (state w) → id m ≠ messageId)
  ∧ ∀ l, Resolved l ∈ inflight w → ∀ m, m ∈ l → id m ≠ messageId.

(** If [ev] is a delivery that arrives in [w] while the subscription is
    on another chat than [c], it carries no message with id
    [messageId]. *)
Definition cleanDelivery (c messageId : string) (w : World) (ev : Event) : Prop :=
  match ev with
  | MessagesDelivered fetchedMessages =>
      ∀ s, subscription w = Some s → subChatId s ≠ c →
           ∀ m, m ∈ fetchedMessages → id m ≠ messageId
  | _ => True
  end.

End Trace.

(** ** Sample data *)

Module Sample.
Import JS Types ChatWindow.

(** A host five and a half hours east of Greenwich. *)
Definition ist : Z → Z := λ _, 19800000.

Definition alice : User := mkUser "alice" "Alice" "alice@example.org" None.
Definition bob : User := mkUser "bob" "Bob" "bob@example.org" None.

Definition textMessage (i sender text : string) (t : Z) : Message :=
  mkMessage i sender (Some text) None None None None None (mkDate (Num t)) None None None.

(** 2024-01-01 10:00 and 11:00, 2024-01-02 10:00 (UTC). *)
Definition m1 : Message := textMessage "m1" "bob" "Hola" 1704103200000.
Definition m2 : Message := textMessage "m2" "bob" "Que tal" 1704106800000.
Definition m3 : Message := textMessage "m3" "alice" "Bien" 1704189600000.

(** A host whose clocks are set back two hours at 00:30 on 2024-01-02
    (UTC), across midnight, and three messages around it: at 00:10 and
    00:40, and at 03:00. *)
Definition clocksSetBack : Z → Z :=
  λ t, if bool_decide (t < 1704155400000) then 0 else -7200000.

Definition n1 : Message := textMessage "n1" "bob" "Uno" 1704154200000.
Definition n2 : Message := textMessage "n2" "bob" "Dos" 1704156000000.
Definition n3 : Message := textMessage "n3" "bob" "Tres" 1704164400000.

(** The three messages, in timestamp order. *)
Definition history : list Message := [m1; m2; m3].

(** Alice's window on her chat with Bob, translation off. *)
Definition window : Env :=
  mkEnv "c1" bob (mkObj 2 ∅) (Some (mkObj 1 alice))
    (mkObj 3 (λ _, mkSettings false "en")).

(** The same window after the parent passed a new block set. *)
Definition windowBlocking : Env :=
  mkEnv "c1" bob (mkObj 4 {["carol"%string]}) (Some (mkObj 1 alice))
    (mkObj 3 (λ _, mkSettings false "en")).

(** Alice's window on the same chat, translation into English on. *)
Definition windowTranslating : Env :=
  mkEnv "c1" bob (mkObj 2 ∅) (Some (mkObj 1 alice))
    (mkObj 3 (λ _, mkSettings true "en")).

(** A translation service that knows one phrase. *)
Definition translator (text language : string) : Promise string :=
  if bool_decide (text = "Hola" ∧ language = "en") then Resolved "Hello"%string
  else Rejected.


(** Alice's chats: one with Bob, one with nothing said yet, one deleted;
    and a chat service that knows them. *)
Definition chatWithBob : ChatList.Chat :=
  ChatList.mkChat "c1" ["alice"; "bob"]%string "Bien" (mkDate (Num 1704189600000)) ∅ None.

Definition chatUnused : ChatList.Chat :=
  ChatList.mkChat "c2" ["alice"; "bob"]%string "" (mkDate (Num 1704189600000)) ∅ None.

Definition chatDeleted : ChatList.Chat :=
  ChatList.mkChat "c3" ["alice"; "bob"]%string "Adios" (mkDate (Num 1704189600000)) ∅
    (Some (mkDate (Num 1704200000000))).

Definition users (u : string) : Promise (option User) :=
  if bool_decide (u = "bob") then Resolved (Some bob) else Resolved None.

Definition chatHasMessages (c : string) : Promise bool :=
  Resolved (negb (bool_decide (c = "c2"))).

Definition unreadCounts (c u : string) : Promise Z := Resolved 2.

End Sample.

(** ** Further vocabulary for display sequences *)

Module DisplayMore.
Import JS Types ChatWindow Display.

(** The date of the last date marker of a display sequence: the header in
    force after it. *)
Definition lastDate (items : list Item) : option Date :=
  last (omap (λ it, match it with ItemDate d => Some d | _ => None end) items).

End DisplayMore.

(** ** Vocabulary for the call log *)

Module Protocol.
Import JS Types ChatWindow.

(** The listener the chat service holds after one more call: [Some None]
    is no listener, [Some (Some chat)] a listener on [chat], and [None] a
    log that subscribed while a listener was live or released a listener
    that was not. *)
Definition listen (live : option (option string)) (c : Call) : option (option string) :=
  match live, c with
  | Some None, GetChatMessages chat => Some (Some chat)
  | Some (Some _), GetChatMessages _ => None
  | Some (Some chat'), Unsubscribe chat =>
      if bool_decide (chat = chat') then Some None else None
  | Some None, Unsubscribe _ => None
  | _, _ => live
  end.

Definition listener (log : list Call) : option (option string) :=
  foldl listen (Some None) log.

(** The live subscription is the one the last commit asked for: there is
    one exactly when that commit had a user and a chat, and its callback
    closed over the chat, the translation flag and the language of that
    commit. *)
Definition closedOverRendered (w : World) : Prop :=
  match rendered w, subscription w with
  | None, s => s = None
  | Some d, Some s =>
      is_Some (currentUser (env d)) ∧ chatId (env d) ≠ EmptyString
      ∧ subChatId s = chatId (env d)
      ∧ subTranslationEnabled s = depTranslationEnabled d
      ∧ subTargetLanguage s = depTargetLanguage d
  | Some d, None => currentUser (env d) = None ∨ chatId (env d) = EmptyString
  end.

(** While the guard is not set, the last commit had no user or no chat. *)
Definition guardOpen (w : World) : Prop :=
  hasMarkedAsReadRef (state w) = false →
  ∀ d, rendered w = Some d → currentUser (env d) = None ∨ chatId (env d) = EmptyString.

(** Every request for the unread snapshot in the log is followed at once
    by the subscription to the same chat and the mark-as-read call for the
    same chat and user. *)
Definition snapshotLeads (log : list Call) : Prop :=
  ∀ pre chat user post,
    log = pre ++ GetUnreadMessages chat user :: post →
    ∃ post', post = GetChatMessages chat :: MarkMessagesAsRead chat user :: post'.

(** The event is not the settling of an entry of [inflight]. *)
Definition leavesInflight (ev : Event) : bool :=
  match ev with TranslationsSettled _ => false | _ => true end.

(** Two worlds that differ at most in what is in flight and in the calls
    logged. *)
Definition sameButLog (w1 w2 : World) : Prop :=
  state w1 = state w2 ∧ rendered w1 = rendered w2 ∧ subscription w1 = subscription w2
  ∧ deletedMessages w1 = deletedMessages w2.

End Protocol.

(** ** Vocabulary for the translation choice *)

Module Choice.
Import JS Types ChatWindow.

(** The event leaves the translation flag and language to the user's last
    choice: it is no handler that sets them, and no commit on another chat
    or with another [getSettings]. *)
Definition keepsChoice (c : string) (g : nat) (ev : Event) : bool :=
  match ev with
  | Render e => bool_decide (chatId e = c) && bool_decide (addr (getSettings e) = g)
  | ToggleTranslation | SaveTranslationSettings _ _ _ | LanguageChange _ => false
  | _ => true
  end.

End Choice.

(** ** ChatWindow: sending and replying *)

Module Composer.
Import JS Types ChatWindow.

Definition setUploading (v : bool) (s : State) : State :=
  mkState (messages s) (translationEnabled s) (ChatWindow.targetLanguage s) (showSettings s) v
    (replyingTo s) (showContactProfile s) (unreadMessageIds s) (hasMarkedAsReadRef s).

Definition setReplyingTo (v : option Message) (s : State) : State :=
  mkState (messages s) (translationEnabled s) (ChatWindow.targetLanguage s) (showSettings s)
    (uploading s) v (showContactProfile s) (unreadMessageIds s) (hasMarkedAsReadRef s).

(** [a || b] on an optional string and a string. *)
Definition orElse (a : option string) (b : string) : string :=
  match a with
  | Some s => if truthy a then s else b
  | None => b
  end.

(** The fields of a DOM [File] the component reads. *)
Record File : Type := mkFile {
  name : string;
  size : Z;
}.

(** What [canSendMessage] resolves to, as the component reads it. *)
Record SendValidation : Type := mkSendValidation {
  allowed : bool;
  reason : option string;
}.

(** What [validateMediaFile] returns, as the component reads it. *)
Record MediaValidation : Type := mkMediaValidation {
  valid : bool;
  error : option string;
}.

(** The calls of the two sending handlers, oldest first in a log. *)
Inductive Outgoing : Type :=
| CanSendMessage (sender recipient : string)
| SendMessage (chat sender recipient : string) (text mediaUrl mediaType fileName : option string)
    (fileSize : option Z) (replyToId : option string) (replyToName : string)
    (replyToText : option string)
| UploadMedia (file : File) (user chat : string)
| Alert (message : option string).

(** What a sending handler closed over when it was called: the user, the
    props and the message replied to of the render that created it. *)
Record Closure : Type := mkClosure {
  clCurrentUser : User;
  clOtherUser : User;
  clChatId : string;
  clReplyingTo : option Message;
}.

(** A sending handler suspended at one of its [await]s. *)
Inductive Pending : Type :=
| ValidatingText (c : Closure) (text : string)
| SendingText
| ValidatingMedia (c : Closure) (file : File)
| Uploading (c : Closure) (file : File)
| SendingMedia.

(** The window, the sending handlers in progress and the log of their
    calls. *)
Record Desk : Type := mkDesk {
  world : World;
  pending : list Pending;
  outbox : list Outgoing;
}.

Definition withWorld (f : World → World) (k : Desk) : Desk :=
  mkDesk (f (world k)) (pending k) (outbox k).

Definition withPending (f : list Pending → list Pending) (k : Desk) : Desk :=
  mkDesk (world k) (f (pending k)) (outbox k).

Definition post (c : Outgoing) (k : Desk) : Desk :=
  mkDesk (world k) (pending k) (push (outbox k) c).

Definition initialDesk (initialTranslationEnabled : bool) (initialTargetLanguage : string)
    (ledger : gmap string (gset string)) : Desk :=
  mkDesk (initialWorld initialTranslationEnabled initialTargetLanguage ledger) [] [].

(** [replyingTo?.senderId === currentUser.uid ? 'You' : otherUser.displayName] *)
Definition replyName (c : Closure) : string :=
  if bool_decide (senderId <$> clReplyingTo c = Some (uid (clCurrentUser c))) then "You"
  else displayName (clOtherUser c).

(** The call to [sendMessage] of [handleSendMessage]. *)
Definition sendText (c : Closure) (text : string) : Outgoing :=
  SendMessage (clChatId c) (uid (clCurrentUser c)) (uid (clOtherUser c))
    (Some text) None None None None
    (id <$> clReplyingTo c) (replyName c) (clReplyingTo c ≫= originalText).

Section Handlers.

(** [String.prototype.trim], and the storage service. *)
Variable trim : string → string.
Variable validateMediaFile : File → MediaValidation.
Variable getMediaType : File → string.

(** The call to [sendMessage] of [handleSendMedia]. *)
Definition sendMedia (c : Closure) (file : File) (mediaUrl : string) : Outgoing :=
  SendMessage (clChatId c) (uid (clCurrentUser c)) (uid (clOtherUser c))
    None (Some mediaUrl) (Some (getMediaType file)) (Some (name file)) (Some (size file))
    (id <$> clReplyingTo c) (replyName c) (clReplyingTo c ≫= originalText).

(** [handleSendMessage], up to its first [await]. *)
Definition handleSendMessage (text : string) (k : Desk) : Desk :=
  match rendered (world k) with
  | Some d =>
      match currentUser (env d) with
      | Some user =>
          if negb (truthy (Some (trim text))) then k
          else
            let c :=
              mkClosure (val user) (otherUser (env d)) (chatId (env d))
                (replyingTo (state (world k))) in
            withPending (λ l, push l (ValidatingText c text))
              (post (CanSendMessage (uid (val user)) (uid (otherUser (env d)))) k)
      | None => k
      end
  | None => k
  end.

(** [handleSendMedia], up to its first [await]. *)
Definition handleSendMedia (file : File) (k : Desk) : Desk :=
  match rendered (world k) with
  | Some d =>
      match currentUser (env d) with
      | Some user =>
          let validation := validateMediaFile file in
          if negb (valid validation) then post (Alert (error validation)) k
          else
            let c :=
              mkClosure (val user) (otherUser (env d)) (chatId (env d))
                (replyingTo (state (world k))) in
            withPending (λ l, push l (ValidatingMedia c file))
              (post (CanSendMessage (uid (val user)) (uid (otherUser (env d)))) k)
      | None => k
      end
  | None => k
  end.

(** The awaited [canSendMessage] of the [i]-th handler in progress has
    settled.  A rejection leaves the handler by an exception nothing
    catches. *)
Definition validationSettled (i : nat) (validation : Promise SendValidation) (k : Desk)
    : Desk :=
  match pending k !! i with
  | Some (ValidatingText c text) =>
      match validation with
      | Resolved v =>
          if negb (allowed v) then
            withPending (delete i)
              (post (Alert (Some (orElse (reason v) "Cannot send message"))) k)
          else withPending (<[i := SendingText]>) (post (sendText c text) k)
      | Rejected => withPending (delete i) k
      end
  | Some (ValidatingMedia c file) =>
      match validation with
      | Resolved v =>
          if negb (allowed v) then
            withPending (delete i)
              (post (Alert (Some (orElse (reason v) "Cannot send message"))) k)
          else
            withPending (<[i := Uploading c file]>)
              (post (UploadMedia file (uid (clCurrentUser c)) (clChatId c))
                 (withWorld (withState (setUploading true)) k))
      | Rejected => withPending (delete i) k
      end
  | _ => k
  end.

(** The awaited [uploadMedia] of the [i]-th handler in progress has
    settled. *)
Definition uploadSettled (i : nat) (mediaUrl : Promise string) (k : Desk) : Desk :=
  match pending k !! i with
  | Some (Uploading c file) =>
      match mediaUrl with
      | Resolved mediaUrl =>
          withPending (<[i := SendingMedia]>) (post (sendMedia c file mediaUrl) k)
      | Rejected =>
          withWorld (withState (setUploading false))
            (withPending (delete i) (post (Alert (Some "Failed to upload media")) k))
      end
  | _ => k
  end.

(** The awaited [sendMessage] of the [i]-th handler in progress has
    settled. *)
Definition sendSettled (i : nat) (sent : Promise ()) (k : Desk) : Desk :=
  match pending k !! i with
  | Some SendingText =>
      match sent with
      | Resolved _ => withWorld (withState (setReplyingTo None)) (withPending (delete i) k)
      | Rejected => withPending (delete i) k
      end
  | Some SendingMedia =>
      match sent with
      | Resolved _ =>
          withWorld (withState (setUploading false))
            (withWorld (withState (setReplyingTo None)) (withPending (delete i) k))
      | Rejected =>
          withWorld (withState (setUploading false))
            (withPending (delete i) (post (Alert (Some "Failed to upload media")) k))
      end
  | _ => k
  end.

Definition handleReplyToMessage (messageId : string) (k : Desk) : Desk :=
  match List.find (λ msg, bool_decide (id msg = messageId)) (messages (state (world k))) with
  | Some message => withWorld (withState (setReplyingTo (Some message))) k
  | None => k
  end.

(** The close button of the reply banner, shown while a message is
    replied to. *)
Definition cancelReply (k : Desk) : Desk :=
  match replyingTo (state (world k)) with
  | Some _ => withWorld (withState (setReplyingTo None)) k
  | None => k
  end.

Section Run.

Variable translateText : string → string → Promise string.

Inductive Event : Type :=
| Window (ev : ChatWindow.Event)
| SendText (text : string)
| SendMedia (file : File)
| ValidationSettled (i : nat) (validation : Promise SendValidation)
| UploadSettled (i : nat) (mediaUrl : Promise string)
| SendSettled (i : nat) (sent : Promise ())
| ReplyTo (messageId : string)
| CancelReply.

Definition step (k : Desk) (ev : Event) : Desk :=
  match ev with
  | Window ev => withWorld (λ w, ChatWindow.step translateText w ev) k
  | SendText text => handleSendMessage text k
  | SendMedia file => handleSendMedia file k
  | ValidationSettled i validation => validationSettled i validation k
  | UploadSettled i mediaUrl => uploadSettled i mediaUrl k
  | SendSettled i sent => sendSettled i sent k
  | ReplyTo messageId => handleReplyToMessage messageId k
  | CancelReply => cancelReply k
  end.

Definition run (events : list Event) (k : Desk) : Desk := foldl step k events.

End Run.

End Handlers.

(** *** Vocabulary for the sending log *)

(** The handler is between [setUploading(true)] and its [finally]. *)
Definition isUploading (p : Pending) : bool :=
  match p with Uploading _ _ | SendingMedia => true | _ => false end.

(** The event settles no awaited call. *)
Definition settlesNothing (ev : Event) : bool :=
  match ev with
  | ValidationSettled _ _ | UploadSettled _ _ | SendSettled _ _ => false
  | _ => true
  end.

(** A call of the log is cleared by the calls before it: a message is sent
    after [canSendMessage] was asked about its sender and recipient, with
    a text that is not blank, or with the media of an upload made before
    for that sender and chat; a file is uploaded after it was found valid
    and [canSendMessage] was asked about the uploader. *)
Definition cleared (trim : string → string) (validateMediaFile : File → MediaValidation)
    (getMediaType : File → string) (pre : list Outgoing) (c : Outgoing) : Prop :=
  match c with
  | SendMessage chat sender recipient text mediaUrl mediaType fileName fileSize _ _ _ =>
      CanSendMessage sender recipient ∈ pre
      ∧ ((∃ t, text = Some t ∧ trim t ≠ EmptyString ∧ mediaUrl = None)
         ∨ (text = None
            ∧ ∃ file url,
                UploadMedia file sender chat ∈ pre ∧ mediaUrl = Some url
                ∧ mediaType = Some (getMediaType file) ∧ fileName = Some (name file)
                ∧ fileSize = Some (size file)))
  | UploadMedia file user chat =>
      valid (validateMediaFile file) = true ∧ ∃ recipient, CanSendMessage user recipient ∈ pre
  | _ => True
  end.

Definition wellSequenced (trim : string → string)
    (validateMediaFile : File → MediaValidation) (getMediaType : File → string)
    (log : list Outgoing) : Prop :=
  ∀ pre c post, log = pre ++ c :: post → cleared trim validateMediaFile getMediaType pre c.

(** What the log holds for a handler in progress. *)
Definition pendingCleared (trim : string → string)
    (validateMediaFile : File → MediaValidation) (log : list Outgoing) (p : Pending) : Prop :=
  match p with
  | ValidatingText c text =>
      trim text ≠ EmptyString
      ∧ CanSendMessage (uid (clCurrentUser c)) (uid (clOtherUser c)) ∈ log
  | ValidatingMedia c file =>
      valid (validateMediaFile file) = true
      ∧ CanSendMessage (uid (clCurrentUser c)) (uid (clOtherUser c)) ∈ log
  | Uploading c file =>
      CanSendMessage (uid (clCurrentUser c)) (uid (clOtherUser c)) ∈ log
      ∧ UploadMedia file (uid (clCurrentUser c)) (clChatId c) ∈ log
  | _ => True
  end.

(** The log is in order and accounts for the handlers in progress. *)
Definition sequenced (trim : string → string) (validateMediaFile : File → MediaValidation)
    (getMediaType : File → string) (k : Desk) : Prop :=
  wellSequenced trim validateMediaFile getMediaType (outbox k)
  ∧ Forall (pendingCleared trim validateMediaFile (outbox k)) (pending k).

(** A call to [sendMessage]. *)
Definition isSend (c : Outgoing) : bool :=
  match c with SendMessage _ _ _ _ _ _ _ _ _ _ _ => true | _ => false end.

(** The call [c] to [sendMessage] is the one event [ev] makes from [k]:
    [canSendMessage] settles and allows the text typed, which is sent as
    typed; or [uploadMedia], called before for the file, settles with a
    URL, which is sent with the name, the size and the type of the file.
    Either way it is sent for the chat, the users and the message replied
    to that the handler closed over. *)
Definition sentAt (getMediaType : File → string) (k : Desk) (ev : Event) (c : Outgoing)
    : Prop :=
  match ev with
  | ValidationSettled i (Resolved v) =>
      allowed v = true
      ∧ ∃ cl text,
          pending k !! i = Some (ValidatingText cl text)
          ∧ c = SendMessage (clChatId cl) (uid (clCurrentUser cl)) (uid (clOtherUser cl))
                  (Some text) None None None None
                  (id <$> clReplyingTo cl) (replyName cl) (clReplyingTo cl ≫= originalText)
  | UploadSettled i (Resolved mediaUrl) =>
      ∃ cl file,
        pending k !! i = Some (Uploading cl file)
        ∧ UploadMedia file (uid (clCurrentUser cl)) (clChatId cl) ∈ outbox k
        ∧ c = SendMessage (clChatId cl) (uid (clCurrentUser cl)) (uid (clOtherUser cl))
                None (Some mediaUrl) (Some (getMediaType file)) (Some (name file))
                (Some (size file))
                (id <$> clReplyingTo cl) (replyName cl) (clReplyingTo cl ≫= originalText)
  | _ => False
  end.

End Composer.

(** ** ChatList: the component *)

Module ChatListView.
Import JS Types ChatList.

(** What a render reads from the authentication context. *)
Record Env : Type := mkEnv {
  currentUser : option (Obj User);
}.

(** The calls to the chat service, to the props and to [alert], oldest
    first in a log. *)
Inductive Call : Type :=
| GetAllUsers
| GetUserChats (user : string)
| Unsubscribe (user : string)
| CreateOrGetChat (user other : string)
| OnSelectChat (chat : ChatWithUser)
| DeleteChat (chat : string)
| BlockUser (user other : string)
| UnblockUser (user other : string)
| Alert (message : string).

(** An asynchronous function suspended at its [await], with what it
    closed over. *)
Inductive Pending : Type :=
| FetchingUsers (currentUser : User)
| Enriching (chatsWithUsers : Promise (list ChatWithUser))
| CreatingChat (currentUser user : User)
| DeletingChat (chats : list ChatWithUser) (chatId : string)
| Blocking (userId : string) (isBlocked : bool).

Section Component.

(** The numbers of a position on the screen. *)
Variable Px : Type.

(** [{ chatId: string; x: number; y: number }] *)
Record ContextMenu : Type := mkContextMenu {
  chatId : string;
  x : Px;
  y : Px;
}.

(** The [useState] cells. *)
Record State : Type := mkState {
  chats : list ChatWithUser;
  users : list User;
  loading : bool;
  creatingChat : bool;
  showProfileModal : bool;
  contextMenu : option ContextMenu;
  blockedUsers : gset string;
}.

Definition setChats (v : list ChatWithUser) (s : State) : State :=
  mkState v (users s) (loading s) (creatingChat s) (showProfileModal s) (contextMenu s)
    (blockedUsers s).

Definition setUsers (v : list User) (s : State) : State :=
  mkState (chats s) v (loading s) (creatingChat s) (showProfileModal s) (contextMenu s)
    (blockedUsers s).

Definition setLoading (v : bool) (s : State) : State :=
  mkState (chats s) (users s) v (creatingChat s) (showProfileModal s) (contextMenu s)
    (blockedUsers s).

Definition setCreatingChat (v : bool) (s : State) : State :=
  mkState (chats s) (users s) (loading s) v (showProfileModal s) (contextMenu s)
    (blockedUsers s).

Definition setShowProfileModal (v : bool) (s : State) : State :=
  mkState (chats s) (users s) (loading s) (creatingChat s) v (contextMenu s)
    (blockedUsers s).

Definition setContextMenu (v : option ContextMenu) (s : State) : State :=
  mkState (chats s) (users s) (loading s) (creatingChat s) (showProfileModal s) v
    (blockedUsers s).

(** [setBlockedUsers(prev => f(prev))] *)
Definition setBlockedUsers (f : gset string → gset string) (s : State) : State :=
  mkState (chats s) (users s) (loading s) (creatingChat s) (showProfileModal s)
    (contextMenu s) (f (blockedUsers s)).

Definition initialState : State := mkState [] [] true false false None ∅.

(** The mounted component: its state, what the last render read, the user
    the live subscription closed over, the asynchronous functions in
    progress and the log of calls. *)
Record World : Type := mkWorld {
  state : State;
  rendered : option Env;
  subscription : option User;
  pending : list Pending;
  calls : list Call;
}.

Definition withState (f : State → State) (w : World) : World :=
  mkWorld (f (state w)) (rendered w) (subscription w) (pending w) (calls w).

Definition withRendered (e : Env) (w : World) : World :=
  mkWorld (state w) (Some e) (subscription w) (pending w) (calls w).

Definition withSubscription (s : option User) (w : World) : World :=
  mkWorld (state w) (rendered w) s (pending w) (calls w).

Definition withPending (f : list Pending → list Pending) (w : World) : World :=
  mkWorld (state w) (rendered w) (subscription w) (f (pending w)) (calls w).

Definition call (c : Call) (w : World) : World :=
  mkWorld (state w) (rendered w) (subscription w) (pending w) (ChatWindow.push (calls w) c).

Definition suspend (p : Pending) (w : World) : World :=
  withPending (λ l, ChatWindow.push l p) w.

Definition initialWorld : World := mkWorld initialState None None [] [].

(** The effect, on [currentUser]: first the cleanup the previous run
    returned, if any. *)
Definition effect (e : Env) (w : World) : World :=
  let w :=
    match subscription w with
    | Some user => withSubscription None (call (Unsubscribe (uid user)) w)
    | None => w
    end in
  match currentUser e with
  | Some user =>
      let w := suspend (FetchingUsers (val user)) (call GetAllUsers w) in
      let w := withState (setLoading false) w in
      withSubscription (Some (val user)) (call (GetUserChats (uid (val user))) w)
  | None => w
  end.

(** A commit: the effect runs at the first commit and when [currentUser]
    changed ([Object.is]). *)
Definition render (e : Env) (w : World) : World :=
  let changed :=
    match rendered w with
    | None => true
    | Some p => negb (bool_decide (addr <$> currentUser p = addr <$> currentUser e))
    end in
  withRendered e (if changed then effect e w else w).

Section Service.

Variable getUser : string → Promise (option User).
Variable hasChatMessages : string → Promise bool.
Variable getUnreadCount : string → string → Promise Z.

(** The subscription delivers [fetchedChats]: the callback starts the
    calls of [onChats] and leaves [setChats] waiting for them. *)
Definition deliver (fetchedChats : list Chat) (w : World) : World :=
  match subscription w with
  | Some user =>
      suspend (Enriching (onChats getUser hasChatMessages getUnreadCount user fetchedChats)) w
  | None => w
  end.

(** The handlers read the context of the last render and the state as it
    is (a render follows every change of state). *)
Definition handleStartChat (user : User) (w : World) : World :=
  match rendered w with
  | Some e =>
      match currentUser e with
      | Some current =>
          if creatingChat (state w) then w
          else
            suspend (CreatingChat (val current) user)
              (call (CreateOrGetChat (uid (val current)) (uid user))
                 (withState (setCreatingChat true) w))
      | None => w
      end
  | None => w
  end.

Definition handleDeleteChat (chatId : string) (w : World) : World :=
  match rendered w with
  | Some e =>
      match currentUser e with
      | Some current =>
          suspend (DeletingChat (chats (state w)) chatId) (call (DeleteChat chatId) w)
      | None => w
      end
  | None => w
  end.

Definition handleBlockUser (chatId userId : string) (isBlocked : bool) (w : World) : World :=
  match rendered w with
  | Some e =>
      match currentUser e with
      | Some current =>
          suspend (Blocking userId isBlocked)
            (call (if isBlocked then UnblockUser (uid (val current)) userId
                   else BlockUser (uid (val current)) userId) w)
      | None => w
      end
  | None => w
  end.

(** The block button of the menu of [chat]:
    [handleBlockUser(chat.id, chat.otherUser.uid, blockedUsers.has(chat.otherUser.uid))]. *)
Definition blockClick (chat : ChatWithUser) (w : World) : World :=
  handleBlockUser (id (ChatList.chat chat)) (uid (otherUser chat))
    (bool_decide (uid (otherUser chat) ∈ blockedUsers (state w))) w.

(** The chat [handleStartChat] hands to [onSelectChat]. *)
Definition startedChat (current user : User) (chatId : string) (now : Date) : ChatWithUser :=
  mkChatWithUser (mkChat chatId [uid current; uid user] "" now ∅ None) user None.

(** What the [i]-th asynchronous function in progress awaits has settled.
    The outcome is that of [getAllUsers], [createOrGetChat] (with the
    [new Date()] that follows it), [deleteChat] and [blockUser] or
    [unblockUser]; the calls of [onChats] settle with the outcome it
    computed. *)
Definition usersSettled (i : nat) (allUsers : Promise (list User)) (w : World) : World :=
  match pending w !! i with
  | Some (FetchingUsers current) =>
      let w := withPending (delete i) w in
      match allUsers with
      | Resolved allUsers =>
          let filteredUsers :=
            filter (λ user, uid user ≠ uid current) allUsers in
          let w := withState (setUsers filteredUsers) w in
          let blocked : gset string := list_to_set (default [] (blockList current)) in
          withState (setBlockedUsers (λ _, blocked)) w
      | Rejected => w
      end
  | _ => w
  end.

Definition chatsSettled (i : nat) (w : World) : World :=
  match pending w !! i with
  | Some (Enriching batch) =>
      let w := withPending (delete i) w in
      match batch with
      | Resolved chatsWithUsers => withState (setChats chatsWithUsers) w
      | Rejected => w
      end
  | _ => w
  end.

Definition chatCreated (i : nat) (chatId : Promise string) (now : Date) (w : World)
    : World :=
  match pending w !! i with
  | Some (CreatingChat current user) =>
      let w := withPending (delete i) w in
      let w :=
        match chatId with
        | Resolved chatId => call (OnSelectChat (startedChat current user chatId now)) w
        | Rejected => w
        end in
      withState (setCreatingChat false) w
  | _ => w
  end.

Definition chatDeleted (i : nat) (deleted : Promise ()) (w : World) : World :=
  match pending w !! i with
  | Some (DeletingChat chats chatId) =>
      let w := withPending (delete i) w in
      match deleted with
      | Resolved _ =>
          let w :=
            withState
              (setChats (filter (λ chat, id (ChatList.chat chat) ≠ chatId) chats)) w in
          withState (setContextMenu None) w
      | Rejected => call (Alert "Failed to delete chat") w
      end
  | _ => w
  end.

Definition blockSettled (i : nat) (updated : Promise ()) (w : World) : World :=
  match pending w !! i with
  | Some (Blocking userId isBlocked) =>
      let w := withPending (delete i) w in
      match updated with
      | Resolved _ =>
          let w :=
            if isBlocked then withState (setBlockedUsers (λ prev, prev ∖ {[userId]})) w
            else withState (setBlockedUsers (λ prev, prev ∪ {[userId]})) w in
          withState (setContextMenu None) w
      | Rejected => call (Alert "Failed to update block status") w
      end
  | _ => w
  end.

Inductive Event : Type :=
| Render (e : Env)
| ChatsDelivered (fetchedChats : list Chat)
| UsersSettled (i : nat) (allUsers : Promise (list User))
| ChatsSettled (i : nat)
| ChatCreated (i : nat) (chatId : Promise string) (now : Date)
| ChatDeleted (i : nat) (deleted : Promise ())
| BlockSettled (i : nat) (updated : Promise ())
| StartChat (user : User)
| SelectChat (chat : ChatWithUser)
| DeleteChatClick (chatId : string)
| BlockUserClick (chat : ChatWithUser)
| OpenContextMenu (menu : ContextMenu)
| CloseContextMenu
| OpenProfile
| CloseProfile.

Definition step (w : World) (ev : Event) : World :=
  match ev with
  | Render e => render e w
  | ChatsDelivered fetchedChats => deliver fetchedChats w
  | UsersSettled i allUsers => usersSettled i allUsers w
  | ChatsSettled i => chatsSettled i w
  | ChatCreated i chatId now => chatCreated i chatId now w
  | ChatDeleted i deleted => chatDeleted i deleted w
  | BlockSettled i updated => blockSettled i updated w
  | StartChat user => handleStartChat user w
  | SelectChat chat => call (OnSelectChat chat) w
  | DeleteChatClick chatId => handleDeleteChat chatId w
  | BlockUserClick chat => blockClick chat w
  | OpenContextMenu menu => withState (setContextMenu (Some menu)) w
  | CloseContextMenu => withState (setContextMenu None) w
  | OpenProfile => withState (setShowProfileModal true) w
  | CloseProfile => withState (setShowProfileModal false) w
  end.

Definition run (events : list Event) (w : World) : World := foldl step w events.

End Service.

(** *** What the list shows *)

(** The body of the list: [loading ? ... : chats.length === 0 ? (users.length
    === 0 ? ... : ...) : ...]. *)
Inductive Body : Type :=
| LoadingChats
| NoOtherUsers
| StartWith (users : list User)
| ChatRows (chats : list ChatWithUser).

Definition body (s : State) : Body :=
  if loading s then LoadingChats
  else if bool_decide (length (chats s) = 0%nat) then
    if bool_decide (length (users s) = 0%nat) then NoOtherUsers else StartWith (users s)
  else ChatRows (chats s).

End Component.

(** What React shows for the value of a JSX expression in braces, as far
    as the unread badge goes: nothing for [undefined] and [false], the
    digits of a number, or the element. *)
Inductive Shown : Type :=
| ShowsNothing
| ShowsNumber (n : Z)
| ShowsBadge (label : string + Z).

(** [chat.unreadCount && chat.unreadCount > 0 && (<span>{chat.unreadCount > 99
    ? '99+' : chat.unreadCount}</span>)] *)
Definition unreadBadge (chat : ChatWithUser) : Shown :=
  match unreadCount chat with
  | None => ShowsNothing
  | Some n =>
      if bool_decide (n = 0) then ShowsNumber n
      else if negb (bool_decide (0 < n)) then ShowsNothing
      else ShowsBadge (if bool_decide (99 < n) then inl "99+"%string else inr n)
  end.

(** [a - b] on Numbers. *)
Definition minus (a b : number) : number :=
  match a, b with
  | Num x, Num y => Num (x - y)
  | _, _ => NaN
  end.

(** [Math.floor(a / d)] for a positive integer [d].  The quotient is a
    floating-point one; it has the floor of the exact quotient for [a]
    below 2^53 in absolute value, and beyond (time values differ by at
    most 1.728e16) either floor is further than 10^8 from zero. *)
Definition floorDiv (a : number) (d : Z) : number :=
  match a with
  | Num x => Num (x `div` d)
  | NaN => NaN
  end.

(** [a < b] on Numbers. *)
Definition lessThan (a b : number) : bool :=
  match a, b with
  | Num x, Num y => bool_decide (x < y)
  | _, _ => false
  end.

Section FormatTime.

(** [date.toLocaleTimeString('en-US', { hour: '2-digit', minute: '2-digit' })],
    [date.toLocaleDateString('en-US', { weekday: 'short' })] and
    [date.toLocaleDateString('en-US', { month: 'short', day: 'numeric' })]. *)
Variable timeOfDay : Date → string.
Variable weekday : Date → string.
Variable monthAndDay : Date → string.

(** [formatTime(date)], with [now] the [new Date()] of the call. *)
Definition formatTime (now date : Date) : string :=
  let diff := minus (timeValue now) (timeValue date) in
  let days := floorDiv diff (1000 * 60 * 60 * 24) in
  if strict_eq days (Num 0) then timeOfDay date
  else if strict_eq days (Num 1) then "Yesterday"
  else if lessThan days (Num 7) then weekday date
  else monthAndDay date.

End FormatTime.

(** *** Vocabulary for the properties of the list *)

(** The chat passes the checks of the aggregator for [currentUser]. *)
Definition listable (getUser : string → Promise (option User))
    (hasChatMessages : string → Promise bool) (currentUser : User) (c : Chat) : bool :=
  match deletedAt c,
        List.find (λ id, negb (bool_decide (id = uid currentUser))) (participants c) with
  | None, Some otherUserId =>
      negb (bool_decide (otherUserId = EmptyString))
      && match getUser otherUserId, hasChatMessages (id c) with
         | Resolved (Some _), Resolved true => true
         | _, _ => false
         end
  | _, _ => false
  end.

Definition isCreatingChat (p : Pending) : bool :=
  match p with CreatingChat _ _ => true | _ => false end.

(** The calls to [createOrGetChat] in progress. *)
Definition creating (l : list Pending) : nat :=
  length (filter (λ p, isCreatingChat p = true) l).

(** The listener the chat service holds on the chats of a user after one
    more call: [Some None] is no listener, [Some (Some user)] a listener
    on the chats of [user], and [None] a log that subscribed while a
    listener was live or released a listener that was not. *)
Definition listen (live : option (option string)) (c : Call) : option (option string) :=
  match live, c with
  | Some None, GetUserChats user => Some (Some user)
  | Some (Some _), GetUserChats _ => None
  | Some (Some user'), Unsubscribe user =>
      if bool_decide (user = user') then Some None else None
  | Some None, Unsubscribe _ => None
  | _, _ => live
  end.

Definition listener (log : list Call) : option (option string) :=
  foldl listen (Some None) log.

(** The log agrees with the subscription held: the listener it leaves is
    on the chats of the user of the subscription; and the subscription is
    that of the last commit: live exactly when that commit had a user. *)
Definition subscribed {Px : Type} (w : World Px) : Prop :=
  listener (calls Px w) = Some (uid <$> subscription Px w)
  ∧ match rendered Px w with
    | Some e => is_Some (subscription Px w) ↔ is_Some (currentUser e)
    | None => subscription Px w = None
    end.

(** The event settles no awaited call but, possibly, one started after
    the first [n]. *)
Definition settlesAfter {Px : Type} (n : nat) (ev : Event Px) : bool :=
  match ev with
  | UsersSettled _ i _ | ChatsSettled _ i | ChatCreated _ i _ _ | ChatDeleted _ i _
  | BlockSettled _ i _ => bool_decide (n < i)%nat
  | _ => true
  end.

(** The event is a commit without a user, or no commit. *)
Definition signedOut {Px : Type} (ev : Event Px) : bool :=
  match ev with
  | Render _ e => negb (bool_decide (is_Some (currentUser e)))
  | _ => true
  end.

End ChatListView.

(** ** More sample data *)

Module SampleMore.
Import JS Types ChatWindow Sample.

(** [trim] on strings with no other blank than the space. *)
Fixpoint trimStart (s : string) : string :=
  match s with
  | String c s' => if bool_decide (c = Ascii.Space) then trimStart s' else s
  | EmptyString => s
  end.

Definition trim (s : string) : string :=
  String.rev (trimStart (String.rev (trimStart s))).

(** A storage service that takes images of at most ten megabytes. *)
Definition validateMediaFile (file : Composer.File) : Composer.MediaValidation :=
  if bool_decide (Composer.size file ≤ 10485760) then Composer.mkMediaValidation true None
  else Composer.mkMediaValidation false (Some "File too large"%string).

Definition getMediaType (file : Composer.File) : string := "image".

Definition photo : Composer.File := Composer.mkFile "cat.png" 2048.

(** Alice's window on another chat. *)
Definition windowOther : Env :=
  mkEnv "c9" bob (mkObj 2 ∅) (Some (mkObj 1 alice))
    (mkObj 3 (λ _, mkSettings false "en")).

(** The same window as [windowTranslating] after the translation context
    was rebuilt: another [getSettings], the same saved settings. *)
Definition windowNewContext : Env :=
  mkEnv "c1" bob (mkObj 2 ∅) (Some (mkObj 1 alice))
    (mkObj 5 (λ _, mkSettings true "en")).

(** Alice, signed in, in front of her chat list. *)
Definition signedIn : ChatListView.Env := ChatListView.mkEnv (Some (mkObj 1 alice)).

Definition rowBob : ChatList.ChatWithUser := ChatList.mkChatWithUser chatWithBob bob (Some 2).

(** Two hosts: one on Greenwich time, one an hour west of it. *)
Definition utc : Z → Z := λ _, 0.
Definition azores : Z → Z := λ _, -3600000.

End SampleMore.

(** * Properties *)

(** ** Calendar *)

Section CalendarFacts.
Import JS.

(** [YearFromTime] is the year ECMAScript defines. *)
Lemma YearFromTime_spec t :
  DayFromYear (YearFromTime t) ≤ Day t < DayFromYear (YearFromTime t + 1).
Proof.
  unfold YearFromTime. generalize (Day t). intros d. unfold DayFromYear.
  repeat case_bool_decide; Z.div_mod_to_equations; lia.
Qed.

Lemma Day_civil_inj t1 t2 :
  YearFromTime t1 = YearFromTime t2 → MonthFromTime t1 = MonthFromTime t2 →
  DateFromTime t1 = DateFromTime t2 → Day t1 = Day t2.
Proof.
  unfold DateFromTime, InLeapYear, DayWithinYear. intros -> -> H. lia.
Qed.

Lemma civil_of_Day t1 t2 :
  Day t1 = Day t2 →
  YearFromTime t1 = YearFromTime t2 ∧ MonthFromTime t1 = MonthFromTime t2 ∧
  DateFromTime t1 = DateFromTime t2.
Proof.
  intros H.
  assert (Hy : YearFromTime t1 = YearFromTime t2) by (unfold YearFromTime; by rewrite H).
  assert (Hm : MonthFromTime t1 = MonthFromTime t2)
    by (unfold MonthFromTime, InLeapYear, DayWithinYear; by rewrite H, Hy).
  repeat split; [done..|].
  unfold DateFromTime, InLeapYear, DayWithinYear. by rewrite H, Hy, Hm.
Qed.

Lemma fixed_offset_mono (offset t1 t2 : Z) :
  t1 ≤ t2 → localDay (λ _, offset) t1 ≤ localDay (λ _, offset) t2.
Proof.
  intros H. unfold localDay, LocalTime, Day, msPerDay. apply Z.div_le_mono; lia.
Qed.

End CalendarFacts.

(** ** The presentation grouper *)

Section GrouperFacts.
Import JS Types ChatWindow Display.

Variable LocalTZA : Z → Z.

Lemma calendarDay_eq d1 d2 t1 t2 :
  timeValue d1 = Num t1 → timeValue d2 = Num t2 →
  calendarDay LocalTZA d1 = calendarDay LocalTZA d2
  ↔ localDay LocalTZA t1 = localDay LocalTZA t2.
Proof.
  intros H1 H2. unfold calendarDay, getFullYear, getMonth, getDate, localDay.
  rewrite H1, H2. split.
  - intros [=]. by apply Day_civil_inj.
  - intros H. destruct (civil_of_Day _ _ H) as (-> & -> & ->). done.
Qed.

Lemma isSameDay_calendarDay d1 d2 t1 t2 :
  timeValue d1 = Num t1 → timeValue d2 = Num t2 →
  isSameDay LocalTZA d1 d2
  = bool_decide (calendarDay LocalTZA d1 = calendarDay LocalTZA d2).
Proof.
  intros H1 H2. unfold isSameDay, calendarDay, getFullYear, getMonth, getDate.
  rewrite H1, H2. simpl.
  repeat case_bool_decide; simpl; try done; congruence.
Qed.

(** *** The loop and its recursive form *)

Lemma groupMessage_step messages unread pre m rest st :
  messages = pre ++ m :: rest →
  groupMessage LocalTZA messages unread st m (length pre)
  = Some (mkLoop (messagesWithSeparators st ++ dateSeparator LocalTZA (last pre) m
                  ++ unreadSeparator unread (unreadSeparatorAdded st) m ++ [ItemMessage m])
                 (unreadSeparatorAdded st || bool_decide (id m ∈ unread))).
Proof.
  intros ->. unfold groupMessage, unreadSeparator, push.
  destruct pre as [|p pre' _] using rev_ind.
  - simpl. destruct (bool_decide (id m ∈ unread)), (unreadSeparatorAdded st);
      simpl; rewrite <- ?app_assoc; done.
  - rewrite length_app, last_snoc. simpl.
    rewrite (bool_decide_eq_false_2 (_ = 0%nat)) by lia.
    replace (length pre' + 1 - 1)%nat with (length pre') by lia.
    rewrite <- app_assoc. change ([p] ++ m :: rest) with (p :: m :: rest).
    rewrite list_lookup_middle by done. simpl.
    destruct (isSameDay _ _ _), (bool_decide (id m ∈ unread)), (unreadSeparatorAdded st);
      simpl; rewrite <- ?app_assoc, ?app_nil_r; done.
Qed.

Lemma forEach_from_grouped messages unread rest :
  ∀ pre st, messages = pre ++ rest →
    ∃ b, forEach_from (groupMessage LocalTZA messages unread) (length pre) rest st
         = Some (mkLoop (messagesWithSeparators st
                         ++ grouped LocalTZA unread (last pre) (unreadSeparatorAdded st) rest) b).
Proof.
  induction rest as [|m rest IH]; intros pre st Hm.
  - exists (unreadSeparatorAdded st). simpl. rewrite app_nil_r. by destruct st.
  - cbn [forEach_from]. rewrite (groupMessage_step _ _ _ _ _ _ Hm). cbn [mbind option_bind].
    destruct (IH (pre ++ [m])
      (mkLoop (messagesWithSeparators st ++ dateSeparator LocalTZA (last pre) m
                  ++ unreadSeparator unread (unreadSeparatorAdded st) m ++ [ItemMessage m])
              (unreadSeparatorAdded st || bool_decide (id m ∈ unread)))) as [b Hb].
    { rewrite Hm. by rewrite <- app_assoc. }
    exists b. rewrite length_app in Hb. simpl in Hb.
    replace (S (length pre)) with (length pre + 1)%nat by lia.
    rewrite Hb, last_snoc. simpl. rewrite <- !app_assoc. done.
Qed.

(** The loop never throws, and computes [grouped]. *)
Lemma getMessagesWithDateSeparators_grouped messages unread :
  getMessagesWithDateSeparators LocalTZA messages unread
  = Some (grouped LocalTZA unread None false messages).
Proof.
  unfold getMessagesWithDateSeparators, forEach.
  destruct (forEach_from_grouped messages unread messages [] (mkLoop [] false) eq_refl) as [b Hb].
  simpl in Hb. rewrite Hb. done.
Qed.

(** *** Messages are kept *)

Lemma messagesOf_app a b : messagesOf (a ++ b) = messagesOf a ++ messagesOf b.
Proof. apply omap_app. Qed.

Lemma messagesOf_dateSeparator prev m : messagesOf (dateSeparator LocalTZA prev m) = [].
Proof. unfold dateSeparator. destruct prev; [destruct (isSameDay _ _ _)|]; done. Qed.

Lemma messagesOf_unreadSeparator unread added m :
  messagesOf (unreadSeparator unread added m) = [].
Proof. unfold unreadSeparator. by destruct (_ && _). Qed.

Lemma messagesOf_grouped unread l : ∀ prev added,
  messagesOf (grouped LocalTZA unread prev added l) = l.
Proof.
  induction l as [|m l IH]; intros prev added; [done|].
  simpl. rewrite !messagesOf_app, messagesOf_dateSeparator, messagesOf_unreadSeparator.
  simpl. unfold messagesOf in IH |- *. simpl. by rewrite IH.
Qed.

Lemma head_grouped unread added l :
  head (grouped LocalTZA unread None added l) = (λ m, ItemDate (timestamp m)) <$> head l.
Proof. by destruct l. Qed.

(** C10: the items tagged 'message' of the output are the input messages,
    none dropped, duplicated or reordered, and the output of a non-empty
    list starts with a date marker (that of the first message). *)
Theorem grouper_keeps_messages messages unread :
  ∃ out, getMessagesWithDateSeparators LocalTZA messages unread = Some out
       ∧ messagesOf out = messages
       ∧ head out = (λ m, ItemDate (timestamp m)) <$> head messages.
Proof.
  exists (grouped LocalTZA unread None false messages).
  split; [apply getMessagesWithDateSeparators_grouped|].
  split; [apply messagesOf_grouped | apply head_grouped].
Qed.

(** *** The unread marker *)

Lemma grouped_ext u1 u2 l : ∀ prev added,
  (∀ m, m ∈ l → id m ∈ u1 ↔ id m ∈ u2) →
  grouped LocalTZA u1 prev added l = grouped LocalTZA u2 prev added l.
Proof.
  induction l as [|m l IH]; intros prev added H; [done|].
  simpl. unfold unreadSeparator.
  assert (Hm : bool_decide (id m ∈ u1) = bool_decide (id m ∈ u2)).
  { apply bool_decide_ext, H. by left. }
  rewrite Hm, IH; [done|]. intros m' Hin. apply H. by right.
Qed.

Lemma countItems_app p a b : countItems p (a ++ b) = (countItems p a + countItems p b)%nat.
Proof. induction a as [|x a IH]; simpl; [done|]. rewrite IH. lia. Qed.

Lemma countUnread_dateSeparator prev m :
  countItems isUnreadItem (dateSeparator LocalTZA prev m) = 0%nat.
Proof. unfold dateSeparator. destruct prev; [destruct (isSameDay _ _ _)|]; done. Qed.

Lemma countUnread_grouped_none unread l : ∀ prev added,
  (∀ m, m ∈ l → id m ∉ unread) →
  countItems isUnreadItem (grouped LocalTZA unread prev added l) = 0%nat.
Proof.
  induction l as [|m l IH]; intros prev added H; [done|].
  simpl. rewrite !countItems_app, countUnread_dateSeparator. unfold unreadSeparator.
  rewrite (bool_decide_eq_false_2 (id m ∈ unread)) by (apply H; by left).
  simpl. apply IH. intros m' Hin. apply H. by right.
Qed.

Lemma countUnread_grouped_added unread l : ∀ prev,
  countItems isUnreadItem (grouped LocalTZA unread prev true l) = 0%nat.
Proof.
  induction l as [|m l IH]; intros prev; [done|].
  simpl. rewrite !countItems_app, countUnread_dateSeparator. unfold unreadSeparator.
  rewrite andb_false_r. simpl. apply IH.
Qed.

Lemma grouped_app unread pre l : ∀ prev added,
  (∀ m, m ∈ pre → id m ∉ unread) →
  grouped LocalTZA unread prev added (pre ++ l)
  = grouped LocalTZA unread prev added pre
    ++ grouped LocalTZA unread (from_option Some prev (last pre)) added l.
Proof.
  induction pre as [|p pre IH]; intros prev added H; [done|].
  simpl. rewrite <- !app_assoc. simpl. do 3 f_equal.
  rewrite (bool_decide_eq_false_2 (id p ∈ unread)) by (apply H; by left).
  rewrite orb_false_r, IH by (intros m' Hin; apply H; by right).
  f_equal. f_equal. rewrite last_cons. by destruct (last pre).
Qed.

Lemma unread_marker_split messages unread pre m post :
  messages = pre ++ m :: post → id m ∈ unread → (∀ m', m' ∈ pre → id m' ∉ unread) →
  ∃ before after,
    getMessagesWithDateSeparators LocalTZA messages unread
    = Some (before ++ ItemUnread :: ItemMessage m :: after)
    ∧ messagesOf before = pre ∧ messagesOf after = post
    ∧ countItems isUnreadItem before = 0%nat ∧ countItems isUnreadItem after = 0%nat.
Proof.
  intros -> Hm Hpre. rewrite getMessagesWithDateSeparators_grouped.
  rewrite grouped_app by done. simpl. unfold unreadSeparator.
  rewrite (bool_decide_eq_true_2 (id m ∈ unread)) by done. simpl.
  exists (grouped LocalTZA unread None false pre
          ++ dateSeparator LocalTZA (from_option Some None (last pre)) m),
    (grouped LocalTZA unread (Some m) true post).
  rewrite <- app_assoc. split; [done|].
  rewrite messagesOf_app, !messagesOf_grouped, messagesOf_dateSeparator, app_nil_r.
  rewrite countItems_app, countUnread_grouped_none, countUnread_dateSeparator by done.
  by rewrite countUnread_grouped_added.
Qed.

Lemma no_unread_marker messages unread :
  (∀ m, m ∈ messages → id m ∉ unread) →
  ∃ out, getMessagesWithDateSeparators LocalTZA messages unread = Some out
       ∧ messagesOf out = messages ∧ countItems isUnreadItem out = 0%nat.
Proof.
  intros H. exists (grouped LocalTZA unread None false messages).
  split; [apply getMessagesWithDateSeparators_grouped|].
  split; [apply messagesOf_grouped | by apply countUnread_grouped_none].
Qed.

(** C3 (amended): when some message of the sequence has its id in the
    unread set, the output has exactly one unread marker, immediately
    before the earliest such message; when no message of the sequence has
    its id in the unread set, in particular when the set is empty, the
    output has no unread marker. *)
Theorem unread_marker_placement messages unread :
  ∃ out, getMessagesWithDateSeparators LocalTZA messages unread = Some out
    ∧ ((∀ m, m ∈ messages → id m ∉ unread) → countItems isUnreadItem out = 0%nat)
    ∧ (∀ pre m post,
         messages = pre ++ m :: post → id m ∈ unread → (∀ m', m' ∈ pre → id m' ∉ unread) →
         countItems isUnreadItem out = 1%nat
         ∧ ∃ before after,
             out = before ++ ItemUnread :: ItemMessage m :: after
             ∧ messagesOf before = pre ∧ messagesOf after = post).
Proof.
  exists (grouped LocalTZA unread None false messages).
  split; [apply getMessagesWithDateSeparators_grouped|]. split.
  - apply countUnread_grouped_none.
  - intros pre m post Hm Hin Hpre.
    destruct (unread_marker_split _ _ _ _ _ Hm Hin Hpre)
      as (before & after & Hout & Hb & Ha & Hcb & Hca).
    rewrite getMessagesWithDateSeparators_grouped in Hout. injection Hout as ->.
    split; [|by exists before, after].
    rewrite countItems_app. simpl. lia.
Qed.

(** *** Date markers *)

Lemma orderedAfter_sorted l : ∀ m t,
  timeValue (timestamp m) = Num t → orderedAfter t l = true →
  StronglySorted timeLe (m :: l).
Proof.
  induction l as [|x l IH]; intros m t Hm H.
  - repeat constructor.
  - simpl in H. destruct (timeValue (timestamp x)) as [|tx] eqn:Hx; [done|].
    apply andb_true_iff in H as [Hle H]. apply bool_decide_eq_true in Hle.
    specialize (IH x tx Hx H). constructor; [done|].
    constructor; [by exists t, tx|].
    apply StronglySorted_inv in IH as [_ IHall].
    eapply Forall_impl; [exact IHall|].
    intros y (t1 & t2 & H1 & H2 & Hy). exists t, t2. repeat split; [done..|].
    rewrite Hx in H1. injection H1 as <-. lia.
Qed.

Lemma timestampOrdered_sorted l :
  timestampOrdered l = true → StronglySorted timeLe l ∧ Forall (λ m, timeLe m m) l.
Proof.
  destruct l as [|m l]; [by split; constructor|]. simpl.
  destruct (timeValue (timestamp m)) as [|t] eqn:Hm; [done|]. intros H.
  pose proof (orderedAfter_sorted _ _ _ Hm H) as Hs. split; [done|].
  constructor; [by exists t, t|].
  apply StronglySorted_inv in Hs as [_ Hall].
  eapply Forall_impl; [exact Hall|].
  intros y (t1 & t2 & H1 & H2 & Hy). by exists t2, t2.
Qed.

Lemma grouped_date_inv unread l : ∀ prev added before d after,
  grouped LocalTZA unread prev added l = before ++ ItemDate d :: after →
  ∃ l1 m l2,
    l = l1 ++ m :: l2 ∧ messagesOf before = l1 ∧ d = timestamp m
    ∧ dateSeparator LocalTZA (from_option Some prev (last l1)) m = [ItemDate (timestamp m)]
    ∧ after = unreadSeparator unread (added || anyUnread unread l1) m
              ++ ItemMessage m
                 :: grouped LocalTZA unread (Some m)
                      (added || anyUnread unread l1 || bool_decide (id m ∈ unread)) l2.
Proof.
  induction l as [|m l IH]; intros prev added before d after H.
  - by destruct before.
  - cbn [grouped] in H.
    destruct before as [|x before].
    + exists [], m, l. simpl. rewrite orb_false_r.
      unfold dateSeparator, unreadSeparator in *.
      destruct prev as [p|]; [destruct (isSameDay _ _ _)|];
        destruct (_ && _); simplify_eq/=; done.
    + assert (∃ before',
         x :: before = dateSeparator LocalTZA prev m ++ unreadSeparator unread added m
                       ++ ItemMessage m :: before' ∧
         grouped LocalTZA unread (Some m) (added || bool_decide (id m ∈ unread)) l
         = before' ++ ItemDate d :: after) as (before' & Hx & Hrest).
      { unfold dateSeparator, unreadSeparator in *.
        destruct prev as [p|]; [destruct (isSameDay _ _ _)|];
          destruct (_ && _); simpl in H |- *;
          first [ injection H as -> H; by eexists
                | destruct before as [|? before]; [done|];
                  first [ injection H as -> -> H; by eexists
                        | destruct before as [|? before]; [done|];
                          injection H as -> -> -> H; by eexists ] ]. }
      destruct (IH _ _ _ _ _ Hrest) as (l1 & m' & l2 & -> & Hl1 & -> & Hsep & ->).
      exists (m :: l1), m', l2. rewrite Hx. split; [done|]. split.
      { rewrite !messagesOf_app, messagesOf_dateSeparator, messagesOf_unreadSeparator.
        simpl. unfold messagesOf in Hl1 |- *. simpl. by rewrite Hl1. }
      split; [done|]. split.
      { rewrite last_cons. by destruct (last l1). }
      simpl. by rewrite !orb_assoc.
Qed.

Lemma length_remove_dups_cons `{EqDecision A} (x : A) (l : list A) :
  length (remove_dups (x :: l))
  = if decide (x ∈ l) then length (remove_dups l) else S (length (remove_dups l)).
Proof. simpl. unfold decide. by destruct (decide_rel _ _ _). Qed.

Lemma countDate_unreadSeparator unread added m :
  countItems isDateItem (unreadSeparator unread added m) = 0%nat.
Proof. unfold unreadSeparator. by destruct (_ && _). Qed.

Section Monotone.

(** The local day number does not decrease with time: so it is in a zone
    of fixed offset, and wherever the clocks are not set back across
    midnight. *)
Hypothesis localDay_mono : ∀ t1 t2, t1 ≤ t2 → localDay LocalTZA t1 ≤ localDay LocalTZA t2.

Lemma timeLe_calendarDay_chain m1 m2 m3 :
  timeLe m1 m2 → timeLe m2 m3 →
  calendarDay LocalTZA (timestamp m1) = calendarDay LocalTZA (timestamp m3) →
  calendarDay LocalTZA (timestamp m2) = calendarDay LocalTZA (timestamp m3).
Proof.
  intros (t1 & t2 & H1 & H2 & H12) (t2' & t3 & H2' & H3 & H23) Heq.
  rewrite H2 in H2'. injection H2' as <-.
  rewrite (calendarDay_eq _ _ _ _ H1 H3) in Heq.
  rewrite (calendarDay_eq _ _ _ _ H2 H3).
  pose proof (localDay_mono _ _ H12). pose proof (localDay_mono _ _ H23). lia.
Qed.

Lemma isSameDay_timeLe m1 m2 :
  timeLe m1 m2 →
  isSameDay LocalTZA (timestamp m1) (timestamp m2)
  = bool_decide (calendarDay LocalTZA (timestamp m1) = calendarDay LocalTZA (timestamp m2)).
Proof. intros (t1 & t2 & H1 & H2 & _). by eapply isSameDay_calendarDay. Qed.

Lemma countDate_grouped_some unread l : ∀ p added,
  StronglySorted timeLe (p :: l) →
  (countItems isDateItem (grouped LocalTZA unread (Some p) added l) + 1)%nat
  = length (remove_dups (calendarDay LocalTZA (timestamp p)
                         :: ((λ m, calendarDay LocalTZA (timestamp m)) <$> l))).
Proof.
  induction l as [|m l IH]; intros p added Hs; [done|].
  apply StronglySorted_inv in Hs as [Hs Hp].
  specialize (IH m (added || bool_decide (id m ∈ unread)) Hs).
  cbn [grouped dateSeparator]. rewrite !countItems_app, countDate_unreadSeparator.
  cbn [countItems isDateItem]. rewrite fmap_cons.
  rewrite length_remove_dups_cons, <- IH.
  rewrite isSameDay_timeLe by (by inversion Hp).
  destruct (decide (calendarDay LocalTZA (timestamp p) = calendarDay LocalTZA (timestamp m)))
    as [Hd|Hd].
  - rewrite (bool_decide_eq_true_2 _ Hd), decide_True by (rewrite Hd; by left). simpl. lia.
  - rewrite (bool_decide_eq_false_2 _ Hd), decide_False; [simpl; lia|].
    intros Hin. apply Hd. apply elem_of_cons in Hin as [Hin|Hin]; [done|].
    apply list_elem_of_fmap in Hin as (m' & Hm' & Hin).
    apply StronglySorted_inv in Hs as [_ Hm].
    rewrite Forall_forall in Hm.
    assert (Hpm : timeLe p m) by (by inversion Hp).
    pose proof (timeLe_calendarDay_chain p m m' Hpm (Hm _ Hin) Hm'). congruence.
Qed.

Lemma countDate_grouped unread l added :
  StronglySorted timeLe l →
  countItems isDateItem (grouped LocalTZA unread None added l)
  = length (remove_dups ((λ m, calendarDay LocalTZA (timestamp m)) <$> l)).
Proof.
  destruct l as [|m l]; [done|]. intros Hs.
  pose proof (countDate_grouped_some unread l m (added || bool_decide (id m ∈ unread)) Hs) as H.
  cbn [grouped dateSeparator]. rewrite !countItems_app, countDate_unreadSeparator.
  cbn [countItems isDateItem]. rewrite fmap_cons. lia.
Qed.

Lemma firstOfDay_sorted pre m :
  StronglySorted timeLe (pre ++ [m]) → Forall (λ x, timeLe x x) pre →
  dateSeparator LocalTZA (last pre) m = [ItemDate (timestamp m)] →
  firstOfDay LocalTZA pre m = true.
Proof.
  intros Hs Hv Hsep. unfold firstOfDay. apply forallb_forall. intros m' Hin.
  apply list_elem_of_In in Hin. apply negb_true_iff, bool_decide_eq_false. intros Heq.
  destruct pre as [|p pre' _] using rev_ind; [by apply elem_of_nil in Hin|].
  rewrite last_snoc in Hsep. simpl in Hsep.
  assert (Hpm : timeLe p m).
  { eapply StronglySorted_app_1_elem_of; [exact Hs| |by left].
    apply elem_of_app. right. by left. }
  rewrite (isSameDay_timeLe _ _ Hpm) in Hsep.
  case_bool_decide as Hd; [done|]. apply Hd.
  assert (Hm'p : timeLe m' p).
  { apply elem_of_app in Hin as [Hin|Hin].
    - apply StronglySorted_app_1_l in Hs.
      eapply StronglySorted_app_1_elem_of; [exact Hs|done|by left].
    - apply list_elem_of_singleton in Hin as ->.
      rewrite Forall_forall in Hv. apply Hv. apply elem_of_app. right. by left. }
  by apply (timeLe_calendarDay_chain m' p m).
Qed.

(** C2 (amended): for messages in timestamp order, on a host whose local
    day number does not decrease with time, the output has as many date
    markers as the messages span calendar days, and every date marker
    carries the timestamp of the first message of its day and stands
    before it: immediately, unless that message is the earliest unread
    one, in which case the unread marker stands between the two. *)
Theorem date_marker_per_day messages unread :
  timestampOrdered messages = true →
  ∃ out, getMessagesWithDateSeparators LocalTZA messages unread = Some out
    ∧ countItems isDateItem out
      = length (remove_dups ((λ m, calendarDay LocalTZA (timestamp m)) <$> messages))
    ∧ ∀ before d after, out = before ++ ItemDate d :: after →
        ∃ m after',
          d = timestamp m
          ∧ messages = messagesOf before ++ m :: messagesOf after'
          ∧ firstOfDay LocalTZA (messagesOf before) m = true
          ∧ (after = ItemMessage m :: after'
             ∨ after = ItemUnread :: ItemMessage m :: after'
               ∧ id m ∈ unread ∧ anyUnread unread (messagesOf before) = false).
Proof.
  intros Hord. apply timestampOrdered_sorted in Hord as [Hs Hv].
  exists (grouped LocalTZA unread None false messages).
  split; [apply getMessagesWithDateSeparators_grouped|].
  split; [by apply countDate_grouped|].
  intros before d after H.
  apply grouped_date_inv in H as (l1 & m & l2 & -> & Hl1 & -> & Hsep & ->).
  exists m, (grouped LocalTZA unread (Some m)
               (false || anyUnread unread l1 || bool_decide (id m ∈ unread)) l2).
  rewrite Hl1, messagesOf_grouped. split; [done|]. split; [done|]. split.
  - apply firstOfDay_sorted.
    + replace (l1 ++ m :: l2) with ((l1 ++ [m]) ++ l2) in Hs by (by rewrite <- app_assoc).
      by apply StronglySorted_app_1_l in Hs.
    + by apply Forall_app in Hv as [Hv _].
    + simpl in Hsep. by destruct (last l1).
  - unfold unreadSeparator. simpl.
    destruct (bool_decide (id m ∈ unread)) eqn:Hm, (anyUnread unread l1); simpl; auto.
    right. apply bool_decide_eq_true in Hm. done.
Qed.

End Monotone.

End GrouperFacts.

(** ** The grouper on two hosts *)

Section GrouperHosts.
Import JS Types ChatWindow Display.

Lemma grouped_hosts zone1 zone2 u1 u2 l : ∀ prev added,
  (∀ m, m ∈ l → id m ∈ u1 ↔ id m ∈ u2) →
  sameDaysFrom zone1 zone2 prev l →
  grouped zone1 u1 prev added l = grouped zone2 u2 prev added l.
Proof.
  induction l as [|m l IH]; intros prev added Hu Hs; [done|].
  destruct Hs as [Hd Hds]. cbn [grouped]. unfold unreadSeparator.
  assert (Hm : bool_decide (id m ∈ u1) = bool_decide (id m ∈ u2)).
  { apply bool_decide_ext, Hu. by left. }
  rewrite Hm, (IH (Some m) _); [|intros m' Hin; apply Hu; by right|done].
  f_equal. unfold dateSeparator. destruct prev as [p|]; [|done]. by rewrite Hd.
Qed.

Lemma sameDaysFrom_lookup zone1 zone2 l : ∀ prev,
  match prev, l with
  | Some p, m :: _ =>
      isSameDay zone1 (timestamp p) (timestamp m) = isSameDay zone2 (timestamp p) (timestamp m)
  | _, _ => True
  end →
  (∀ i p m, l !! i = Some p → l !! S i = Some m →
     isSameDay zone1 (timestamp p) (timestamp m)
     = isSameDay zone2 (timestamp p) (timestamp m)) →
  sameDaysFrom zone1 zone2 prev l.
Proof.
  induction l as [|m l IH]; intros prev Hhead H; [done|].
  split; [by destruct prev|]. apply IH.
  - destruct l as [|m' l']; [done|]. by apply (H 0%nat).
  - intros i p m' Hp Hm. by apply (H (S i)).
Qed.

(** C9 (amended): the display is the same for two runs, on any two hosts
    and in any two states of the component, that have the same messages
    in view, the same unread ids among the ids of these messages, and
    hosts that agree on which consecutive messages are on the same local
    day. *)
Theorem display_deterministic (zone1 zone2 : Z → Z) (w1 w2 : World) :
  messages (state w1) = messages (state w2) →
  (∀ m, m ∈ messages (state w1) →
        id m ∈ unreadMessageIds (state w1) ↔ id m ∈ unreadMessageIds (state w2)) →
  (∀ i p m, messages (state w1) !! i = Some p → messages (state w1) !! S i = Some m →
     isSameDay zone1 (timestamp p) (timestamp m)
     = isSameDay zone2 (timestamp p) (timestamp m)) →
  display zone1 w1 = display zone2 w2.
Proof.
  intros Hm Hu Hd. unfold display.
  rewrite !getMessagesWithDateSeparators_grouped, <- Hm. f_equal.
  apply grouped_hosts; [done|]. by apply sameDaysFrom_lookup.
Qed.

End GrouperHosts.

(** ** Promises *)

Section PromiseFacts.
Import JS.
Context {A B : Type}.

Lemma all_map_resolved (f : A → Promise B) l ys :
  all_map f l = Resolved ys ↔ Forall2 (λ x y, f x = Resolved y) l ys.
Proof.
  revert ys. induction l as [|x l IH]; intros ys; simpl.
  - split; [intros [= <-]; constructor | by inversion 1].
  - destruct (f x) as [y|] eqn:Hx; simpl.
    + destruct (all_map f l) as [ys'|] eqn:Hl; simpl.
      * split.
        -- intros [= <-]. constructor; [done|]. by apply IH.
        -- inversion 1 as [|? y' ? ys'' Hy Hys]; subst.
           apply IH in Hys. congruence.
      * split; [done|]. inversion 1 as [|? y' ? ys'' Hy Hys]; subst.
        apply IH in Hys. done.
    + split; [done|]. inversion 1; congruence.
Qed.

Lemma all_map_rejected (f : A → Promise B) l :
  all_map f l = Rejected ↔ ∃ x, x ∈ l ∧ f x = Rejected.
Proof.
  induction l as [|x l IH]; simpl.
  - split; [done|]. intros (x & Hx & _). by apply elem_of_nil in Hx.
  - destruct (f x) as [y|] eqn:Hx; simpl.
    + destruct (all_map f l) as [ys'|] eqn:Hl; simpl.
      * split; [done|]. intros (x' & Hin & Hrej).
        apply elem_of_cons in Hin as [->|Hin]; [congruence|].
        assert (@Resolved (list B) ys' = Rejected) by (apply IH; eauto). done.
      * split; [|done]. intros _. destruct IH as [IH _].
        destruct (IH eq_refl) as (x' & Hin & Hrej). exists x'. split; [by right|done].
    + split; [|done]. intros _. exists x. split; [by left|done].
Qed.

End PromiseFacts.

(** ** The subscription callback *)

Section SubscriberFacts.
Import JS Types DeletionService ChatWindow Display.

Variable translateText : string → string → Promise string.
Variable LocalTZA : Z → Z.

Lemma translateMessage_resolved user lang msg out :
  translateMessage translateText user lang msg = Resolved out →
  if negb (bool_decide (senderId msg = uid user)) && truthy (originalText msg)
  then ∃ text translated,
         originalText msg = Some text
         ∧ translateText text lang = Resolved translated
         ∧ out = withTranslatedText msg translated
  else out = msg.
Proof.
  unfold translateMessage.
  destruct (negb _ && truthy _) eqn:Hc; [|by intros [= <-]].
  destruct (originalText msg) as [text|] eqn:Ht.
  - destruct (translateText text lang) as [translated|] eqn:Htr; simpl; [|done].
    intros [= <-]. by exists text, translated.
  - apply andb_true_iff in Hc as [_ Hc]. done.
Qed.

Lemma translateMessage_rejected user lang msg :
  translateMessage translateText user lang msg = Rejected ↔
  negb (bool_decide (senderId msg = uid user)) && truthy (originalText msg) = true
  ∧ ∃ text, originalText msg = Some text ∧ translateText text lang = Rejected.
Proof.
  unfold translateMessage.
  destruct (negb _ && truthy _) eqn:Hc.
  - destruct (originalText msg) as [text|] eqn:Ht.
    + destruct (translateText text lang) as [translated|] eqn:Htr; simpl.
      * split; [done|]. intros (_ & text' & [= <-] & H). congruence.
      * split; [|done]. intros _. split; [done|]. by exists text.
    + split; [done|]. by intros (_ & text & ? & _).
  - split; [done|]. by intros [? _].
Qed.

(** C5: with translation enabled, the callback publishes, for every
    message left by the filter that another user sent and that carries
    text, the message with [translatedText] set to the translation of its
    [originalText] into the target language and every other field as it
    was, and every other message as it is; it publishes nothing exactly
    when one of these translations fails. *)
Theorem translation_overlay deleted blocked lang user fetched :
  let filtered :=
    filter (λ msg, ¬ (id msg ∈ deleted) ∧ ¬ (senderId msg ∈ blocked)) fetched in
  (onMessages translateText deleted blocked true lang (Some user) fetched = Rejected
   ↔ ∃ msg text,
       msg ∈ filtered ∧ senderId msg ≠ uid user ∧ originalText msg = Some text
       ∧ text ≠ EmptyString ∧ translateText text lang = Rejected)
  ∧ ∀ batch,
      onMessages translateText deleted blocked true lang (Some user) fetched = Resolved batch →
      Forall2 (λ msg out,
          if negb (bool_decide (senderId msg = uid user)) && truthy (originalText msg)
          then ∃ text translated,
                 originalText msg = Some text
                 ∧ translateText text lang = Resolved translated
                 ∧ translatedText out = Some translated
                 ∧ sameBesidesTranslatedText out msg
          else out = msg)
        filtered batch.
Proof.
  intros filtered. unfold onMessages. fold filtered. split.
  - destruct (all_map _ filtered) as [ys|] eqn:Hall; simpl.
    + split; [done|]. intros (msg & text & Hin & Hs & Ht & Hne & Hrej).
      assert (all_map (translateMessage translateText user lang) filtered = Rejected);
        [|congruence].
      apply all_map_rejected. exists msg. split; [done|].
      apply translateMessage_rejected. split; [|by exists text].
      rewrite Ht. simpl. rewrite !bool_decide_eq_false_2 by done. done.
    + split; [|done]. intros _. apply all_map_rejected in Hall as (msg & Hin & Hrej).
      apply translateMessage_rejected in Hrej as (Hc & text & Ht & Hrej).
      exists msg, text. apply andb_true_iff in Hc as [Hs Htr].
      apply negb_true_iff, bool_decide_eq_false in Hs.
      rewrite Ht in Htr. simpl in Htr. apply negb_true_iff, bool_decide_eq_false in Htr.
      done.
  - intros batch. destruct (all_map _ filtered) as [ys|] eqn:Hall; simpl; [|done].
    intros [= <-]. apply all_map_resolved in Hall.
    eapply Forall2_impl; [exact Hall|]. intros msg out H. simpl in H.
    apply translateMessage_resolved in H.
    destruct (negb _ && truthy _); [|done].
    destruct H as (text & translated & Ht & Htr & ->).
    exists text, translated. repeat split; done.
Qed.

Lemma onMessages_resolved deleted blocked te lang user fetched batch :
  onMessages translateText deleted blocked te lang user fetched = Resolved batch →
  Forall2 (λ msg out, out = msg ∨ ∃ translated, out = withTranslatedText msg translated)
    (filter (λ msg, ¬ (id msg ∈ deleted) ∧ ¬ (senderId msg ∈ blocked)) fetched) batch.
Proof.
  unfold onMessages.
  set (filtered := filter _ fetched).
  assert (Hid : Forall2 (λ msg out : Message,
                  out = msg ∨ ∃ translated, out = withTranslatedText msg translated)
                filtered filtered).
  { apply Forall_Forall2_diag, Forall_forall. auto. }
  destruct te; [|by intros [= <-]].
  destruct user as [user|]; [|by intros [= <-]].
  destruct (all_map _ filtered) as [ys|] eqn:Hall; simpl; [|done].
  intros [= <-]. apply all_map_resolved in Hall.
  eapply Forall2_impl; [exact Hall|]. intros msg out H. simpl in H.
  apply translateMessage_resolved in H.
  destruct (negb _ && truthy _); [|by left].
  destruct H as (text & translated & _ & _ & ->). right. by exists translated.
Qed.

Lemma onMessages_untranslated deleted blocked lang user fetched :
  onMessages translateText deleted blocked false lang user fetched
  = Resolved (filter (λ msg, ¬ (id msg ∈ deleted) ∧ ¬ (senderId msg ∈ blocked)) fetched).
Proof. done. Qed.

Lemma onMessages_excludes deleted blocked te lang user fetched batch out :
  onMessages translateText deleted blocked te lang user fetched = Resolved batch →
  out ∈ batch → ¬ (id out ∈ deleted) ∧ ¬ (senderId out ∈ blocked).
Proof.
  intros H Hin. apply onMessages_resolved in H.
  apply list_elem_of_lookup in Hin as [i Hi].
  destruct (Forall2_lookup_r _ _ _ _ _ H Hi) as (msg & Hmsg & Hout).
  apply list_elem_of_lookup_2, list_elem_of_filter in Hmsg as [Hp _].
  destruct Hout as [->|[translated ->]]; done.
Qed.

(** *** The ledger *)

Lemma getDeleted_add chatId messageId ledger :
  messageId ∈ getDeletedMessagesForChat (addLocalDeletedMessage chatId messageId ledger) chatId.
Proof.
  unfold addLocalDeletedMessage, getDeletedMessagesForChat at 1.
  rewrite lookup_insert_eq. simpl. set_solver.
Qed.

Lemma getDeleted_add_mono c c' messageId x ledger :
  x ∈ getDeletedMessagesForChat ledger c →
  x ∈ getDeletedMessagesForChat (addLocalDeletedMessage c' messageId ledger) c.
Proof.
  intros H. unfold addLocalDeletedMessage, getDeletedMessagesForChat at 1.
  destruct (decide (c' = c)) as [->|Hne].
  - rewrite lookup_insert_eq. simpl. set_solver.
  - by rewrite lookup_insert_ne.
Qed.

Lemma isMessageLocallyDeleted_add chatId messageId ledger :
  isMessageLocallyDeleted (addLocalDeletedMessage chatId messageId ledger) chatId messageId
  = true.
Proof. apply bool_decide_eq_true_2, getDeleted_add. Qed.

(** Recording twice is recording once. *)
Lemma addLocalDeletedMessage_idempotent chatId messageId ledger :
  addLocalDeletedMessage chatId messageId (addLocalDeletedMessage chatId messageId ledger)
  = addLocalDeletedMessage chatId messageId ledger.
Proof.
  unfold addLocalDeletedMessage. rewrite insert_insert_eq. f_equal.
  unfold getDeletedMessagesForChat at 1. rewrite lookup_insert_eq. simpl.
  by rewrite (assoc_L (∪)), (idemp_L (∪)).
Qed.

(** ** The component *)

Lemma run_app events1 events2 w :
  run translateText (events1 ++ events2) w
  = run translateText events2 (run translateText events1 w).
Proof. apply foldl_app. Qed.

(** *** What the effects leave alone *)

Lemma settingsEffect_frame now w :
  messages (state (settingsEffect now w)) = messages (state w)
  ∧ unreadMessageIds (state (settingsEffect now w)) = unreadMessageIds (state w)
  ∧ hasMarkedAsReadRef (state (settingsEffect now w)) = hasMarkedAsReadRef (state w)
  ∧ deletedMessages (settingsEffect now w) = deletedMessages w
  ∧ subscription (settingsEffect now w) = subscription w
  ∧ calls (settingsEffect now w) = calls w.
Proof. done. Qed.

Lemma resetGuardEffect_frame w :
  messages (state (resetGuardEffect w)) = messages (state w)
  ∧ unreadMessageIds (state (resetGuardEffect w)) = unreadMessageIds (state w)
  ∧ translationEnabled (state (resetGuardEffect w)) = translationEnabled (state w)
  ∧ deletedMessages (resetGuardEffect w) = deletedMessages w
  ∧ subscription (resetGuardEffect w) = subscription w
  ∧ calls (resetGuardEffect w) = calls w.
Proof. done. Qed.

Lemma subscriptionEffect_frame now w :
  messages (state (subscriptionEffect now w)) = messages (state w)
  ∧ unreadMessageIds (state (subscriptionEffect now w)) = unreadMessageIds (state w)
  ∧ translationEnabled (state (subscriptionEffect now w)) = translationEnabled (state w)
  ∧ deletedMessages (subscriptionEffect now w) = deletedMessages w.
Proof. unfold subscriptionEffect. repeat case_match; done. Qed.

Lemma markAsReadEffect_frame now w :
  state (markAsReadEffect now w) = state w
  ∧ deletedMessages (markAsReadEffect now w) = deletedMessages w
  ∧ subscription (markAsReadEffect now w) = subscription w.
Proof. unfold markAsReadEffect. repeat case_match; done. Qed.

Lemma subscriptionEffect_subscription now w s :
  subscription (subscriptionEffect now w) = Some s →
  subChatId s = chatId (env now)
  ∧ subTranslationEnabled s = depTranslationEnabled now
  ∧ subTargetLanguage s = depTargetLanguage now
  ∧ subBlockedUsers s = val (blockedUsers (env now))
  ∧ ∃ user, currentUser (env now) = Some user ∧ subCurrentUser s = val user.
Proof.
  unfold subscriptionEffect. intros H.
  destruct (currentUser (env now)) as [user|].
  - case_bool_decide.
    + destruct (subscription w) eqn:Hs; simpl in H; congruence.
    + simpl in H. injection H as <-. simpl. eauto 10.
  - destruct (subscription w) eqn:Hs; simpl in H; congruence.
Qed.

Ltac destruct_if :=
  match goal with
  | |- context [if ?c then _ else _] => destruct c eqn:?
  end.

Ltac destruct_if_as H :=
  match goal with
  | |- context [if ?c then _ else _] => destruct c eqn:H
  end.

(** Name the worlds between the effects of a commit. *)
Ltac name_stage f w' :=
  match goal with
  | |- context [if ?c then f ?x else ?y] => set (w' := if c then f x else y) in *
  end.

Ltac stage_render now w1 w2 w3 w4 :=
  match goal with
  | |- context [settingsEffect ?n _] => set (now := n) in *
  end;
  name_stage (settingsEffect now) w1; name_stage resetGuardEffect w2;
  name_stage (subscriptionEffect now) w3; name_stage (markAsReadEffect now) w4.

(** A commit leaves the messages, the unread ids and the ledger alone. *)
Lemma render_frame e w :
  messages (state (render e w)) = messages (state w)
  ∧ unreadMessageIds (state (render e w)) = unreadMessageIds (state w)
  ∧ deletedMessages (render e w) = deletedMessages w
  ∧ rendered (render e w)
    = Some (mkDeps e (translationEnabled (state w)) (targetLanguage (state w))).
Proof.
  unfold render. stage_render now w1 w2 w3 w4.
  assert (H1 : messages (state w1) = messages (state w)
               ∧ unreadMessageIds (state w1) = unreadMessageIds (state w)
               ∧ deletedMessages w1 = deletedMessages w).
  { subst w1. by destruct_if. }
  assert (H2 : messages (state w2) = messages (state w1)
               ∧ unreadMessageIds (state w2) = unreadMessageIds (state w1)
               ∧ deletedMessages w2 = deletedMessages w1).
  { subst w2. by destruct_if. }
  assert (H3 : messages (state w3) = messages (state w2)
               ∧ unreadMessageIds (state w3) = unreadMessageIds (state w2)
               ∧ deletedMessages w3 = deletedMessages w2).
  { subst w3. destruct_if; [|done].
    destruct (subscriptionEffect_frame now w2) as (? & ? & ? & ?). done. }
  assert (H4 : messages (state w4) = messages (state w3)
               ∧ unreadMessageIds (state w4) = unreadMessageIds (state w3)
               ∧ deletedMessages w4 = deletedMessages w3).
  { subst w4. destruct_if; [|done].
    destruct (markAsReadEffect_frame now w3) as (-> & ? & ?). done. }
  simpl. destruct H1 as (? & ? & ?), H2 as (? & ? & ?), H3 as (? & ? & ?), H4 as (? & ? & ?).
  repeat split; congruence.
Qed.

(** *** The snapshot guard *)

Lemma countCalls_push p l c :
  Trace.countCalls p (push l c) = (Trace.countCalls p l + (if p c then 1 else 0))%nat.
Proof. unfold push. induction l as [|x l IH]; simpl; [lia|]. rewrite IH. lia. Qed.

Ltac unfold_handlers :=
  unfold handleToggleTranslation, handleSaveTranslationSettings, handleLanguageChange,
    handleDeleteLocalMessage, handleDeleteMessageForEveryone, deliver, settle.

Lemma subscriptionEffect_budget now w :
  Trace.snapshotBudget (subscriptionEffect now w) = Trace.snapshotBudget w
  ∧ (hasMarkedAsReadRef (state w) = true →
     hasMarkedAsReadRef (state (subscriptionEffect now w)) = true
     ∧ Trace.countCalls Trace.isSnapshotCall (calls (subscriptionEffect now w))
       = Trace.countCalls Trace.isSnapshotCall (calls w)).
Proof.
  unfold subscriptionEffect, Trace.snapshotBudget.
  destruct (subscription w), (currentUser (env now)), (hasMarkedAsReadRef (state w)) eqn:Href;
    try case_bool_decide; repeat (progress (simpl; rewrite ?countCalls_push, ?Href));
    split; (lia || done || (intros; split; [done|lia])).
Qed.

Lemma markAsReadEffect_budget now w :
  hasMarkedAsReadRef (state (markAsReadEffect now w)) = hasMarkedAsReadRef (state w)
  ∧ Trace.countCalls Trace.isSnapshotCall (calls (markAsReadEffect now w))
    = Trace.countCalls Trace.isSnapshotCall (calls w).
Proof.
  unfold markAsReadEffect.
  destruct (currentUser (env now)); try case_bool_decide; simpl;
    rewrite ?countCalls_push; simpl; split; (lia || done).
Qed.

(** Outside a commit nothing touches the guard or asks for the unread
    messages. *)
Lemma handler_budget w ev :
  (∀ e, ev ≠ Render e) →
  hasMarkedAsReadRef (state (step translateText w ev)) = hasMarkedAsReadRef (state w)
  ∧ Trace.countCalls Trace.isSnapshotCall (calls (step translateText w ev))
    = Trace.countCalls Trace.isSnapshotCall (calls w)
  ∧ rendered (step translateText w ev) = rendered w.
Proof.
  intros Hev. destruct ev; [by destruct (Hev e)|..]; simpl; unfold_handlers;
    repeat case_match; simpl; rewrite ?countCalls_push; simpl;
    rewrite ?countCalls_push; simpl; repeat split; (lia || done).
Qed.

(** A commit on the chat already open. *)
Lemma render_same_chat_budget e w d :
  rendered w = Some d → chatId e = chatId (env d) →
  Trace.snapshotBudget (render e w) = Trace.snapshotBudget w
  ∧ (hasMarkedAsReadRef (state w) = true →
     hasMarkedAsReadRef (state (render e w)) = true
     ∧ Trace.countCalls Trace.isSnapshotCall (calls (render e w))
       = Trace.countCalls Trace.isSnapshotCall (calls w)).
Proof.
  intros Hd He. unfold render. rewrite Hd.
  assert (Hc : depChanged (Some d)
                 (mkDeps e (translationEnabled (state w)) (targetLanguage (state w)))
                 depChatId = false).
  { unfold depChanged, depChatId. simpl. by rewrite bool_decide_eq_true_2. }
  rewrite Hc. cbn [orb].
  set (now := mkDeps e _ _) in *.
  name_stage (settingsEffect now) w2; name_stage (subscriptionEffect now) w3;
    name_stage (markAsReadEffect now) w4.
  assert (H1 : hasMarkedAsReadRef (state w2) = hasMarkedAsReadRef (state w)
               ∧ calls w2 = calls w).
  { subst w2. by destruct_if. }
  assert (H3 : Trace.snapshotBudget w3 = Trace.snapshotBudget w2
               ∧ (hasMarkedAsReadRef (state w2) = true →
                  hasMarkedAsReadRef (state w3) = true
                  ∧ Trace.countCalls Trace.isSnapshotCall (calls w3)
                    = Trace.countCalls Trace.isSnapshotCall (calls w2))).
  { subst w3. destruct_if; [|done]. apply subscriptionEffect_budget. }
  assert (H4 : hasMarkedAsReadRef (state w4) = hasMarkedAsReadRef (state w3)
               ∧ Trace.countCalls Trace.isSnapshotCall (calls w4)
                 = Trace.countCalls Trace.isSnapshotCall (calls w3)).
  { subst w4. destruct_if; [|done]. apply markAsReadEffect_budget. }
  destruct H1 as [Hr1 Hc1], H3 as [Hb3 Hg3], H4 as [Hr4 Hc4].
  unfold Trace.snapshotBudget in *. simpl. rewrite Hr4, Hc4. split.
  - rewrite Hb3, Hr1, Hc1. done.
  - intros Href. rewrite <- Hr1 in Href. destruct (Hg3 Href) as [? ?].
    split; [done|]. congruence.
Qed.

(** A commit that opens a chat: the first one, or one on another chat. *)
Lemma open_budget e w :
  (∀ d, rendered w = Some d → chatId (env d) ≠ chatId e) →
  Trace.snapshotBudget (render e w)
  = (Trace.countCalls Trace.isSnapshotCall (calls w) + 1)%nat.
Proof.
  intros Hopen. unfold render.
  assert (Hc : depChanged (rendered w)
                 (mkDeps e (translationEnabled (state w)) (targetLanguage (state w)))
                 depChatId = true).
  { unfold depChanged, depChatId. destruct (rendered w) as [d|]; [|done].
    rewrite bool_decide_eq_false_2; [done|]. by apply Hopen. }
  rewrite Hc. cbn [orb].
  set (now := mkDeps e _ _).
  set (w2 := resetGuardEffect _). set (w3 := subscriptionEffect now w2).
  destruct (subscriptionEffect_budget now w2) as [H3 _]. fold w3 in H3.
  destruct (markAsReadEffect_budget now w3) as [Hr4 Hc4].
  unfold Trace.snapshotBudget in *. simpl. rewrite Hr4, Hc4, H3. done.
Qed.

Lemma step_same_chat w ev d :
  rendered w = Some d → Trace.staysInChat (chatId (env d)) ev = true →
  (∃ d', rendered (step translateText w ev) = Some d' ∧ chatId (env d') = chatId (env d))
  ∧ Trace.snapshotBudget (step translateText w ev) = Trace.snapshotBudget w
  ∧ (hasMarkedAsReadRef (state w) = true →
     hasMarkedAsReadRef (state (step translateText w ev)) = true
     ∧ Trace.countCalls Trace.isSnapshotCall (calls (step translateText w ev))
       = Trace.countCalls Trace.isSnapshotCall (calls w)).
Proof.
  intros Hd Hev.
  assert (Hcase : (∃ e, ev = Render e) ∨ ∀ e, ev ≠ Render e)
    by (destruct ev; eauto).
  destruct Hcase as [[e ->]|Hne].
  - simpl in Hev. apply bool_decide_eq_true in Hev. cbn [step].
    destruct (render_frame e w) as (_ & _ & _ & Hr).
    split; [rewrite Hr; eauto|]. by apply render_same_chat_budget with d.
  - destruct (handler_budget w ev Hne) as (Href & Hc & Hr).
    unfold Trace.snapshotBudget. rewrite Href, Hc, Hr. split; [by exists d|done].
Qed.

Lemma run_same_chat events : ∀ w d,
  rendered w = Some d → forallb (Trace.staysInChat (chatId (env d))) events = true →
  (∃ d', rendered (run translateText events w) = Some d' ∧ chatId (env d') = chatId (env d))
  ∧ Trace.snapshotBudget (run translateText events w) = Trace.snapshotBudget w
  ∧ (hasMarkedAsReadRef (state w) = true →
     Trace.countCalls Trace.isSnapshotCall (calls (run translateText events w))
     = Trace.countCalls Trace.isSnapshotCall (calls w)).
Proof.
  induction events as [|ev events IH]; intros w d Hd Hev; [by eauto|].
  simpl in Hev. apply andb_true_iff in Hev as [Hev Hevs].
  destruct (step_same_chat w ev d Hd Hev) as ((d' & Hd' & Hc') & Hb & Hg).
  rewrite <- Hc' in Hevs. destruct (IH _ _ Hd' Hevs) as ((d'' & Hd'' & Hc'') & IHb & IHg).
  simpl. split; [exists d''; split; [done|congruence]|]. split; [congruence|].
  intros Href. destruct (Hg Href) as [Href' Hcount]. rewrite IHg by done. done.
Qed.

(** C8: from the commit that opens a chat (the first commit of the window,
    or a commit on another chat than the one before) and while the window
    stays on that chat, whatever is rendered again (translation flag,
    target language, block set, user), clicked, delivered or settled, the
    unread messages are asked for at most once; once the guard is set no
    further snapshot call is issued. *)
Theorem snapshot_once_per_chat_open w e events1 events2 :
  (∀ d, rendered w = Some d → chatId (env d) ≠ chatId e) →
  forallb (Trace.staysInChat (chatId e)) (events1 ++ events2) = true →
  let w0 := step translateText w (Render e) in
  let w1 := run translateText events1 w0 in
  let w2 := run translateText events2 w1 in
  (Trace.countCalls Trace.isSnapshotCall (calls w2)
   ≤ Trace.countCalls Trace.isSnapshotCall (calls w) + 1)%nat
  ∧ (hasMarkedAsReadRef (state w1) = true →
     Trace.countCalls Trace.isSnapshotCall (calls w2)
     = Trace.countCalls Trace.isSnapshotCall (calls w1)).
Proof.
  intros Hopen Hev w0 w1 w2.
  rewrite forallb_app in Hev. apply andb_true_iff in Hev as [Hev1 Hev2].
  destruct (render_frame e w) as (_ & _ & _ & Hr0).
  set (d0 := mkDeps e _ _) in Hr0.
  destruct (run_same_chat events1 w0 d0 Hr0 Hev1) as ((d1 & Hd1 & Hc1) & Hb1 & _).
  fold w1 in Hd1, Hb1. simpl in Hc1. rewrite <- Hc1 in Hev2.
  destruct (run_same_chat events2 w1 d1 Hd1 Hev2) as (_ & Hb2 & Hg2).
  fold w2 in Hb2, Hg2. split; [|done].
  assert (Hm : Trace.snapshotBudget w0
               = (Trace.countCalls Trace.isSnapshotCall (calls w) + 1)%nat)
    by (by apply open_budget).
  unfold Trace.snapshotBudget in *. lia.
Qed.

(** *** The read state *)

Lemma step_keeps_unread w ev :
  Trace.keepsReadState ev = true →
  unreadMessageIds (state (step translateText w ev)) = unreadMessageIds (state w).
Proof.
  destruct ev; try done; intros _; cbn [step].
  - by destruct (render_frame e w) as (_ & -> & _).
  - unfold deliver. by repeat case_match.
  - unfold settle. by repeat case_match.
  - unfold handleToggleTranslation. by repeat case_match.
  - unfold handleSaveTranslationSettings. by repeat case_match.
  - unfold handleLanguageChange. by repeat case_match.
  - unfold handleDeleteLocalMessage. by repeat case_match.
  - unfold handleDeleteMessageForEveryone. by repeat case_match.
Qed.

Lemma run_keeps_unread events : ∀ w,
  forallb Trace.keepsReadState events = true →
  unreadMessageIds (state (run translateText events w)) = unreadMessageIds (state w).
Proof.
  induction events as [|ev events IH]; intros w Hev; [done|].
  simpl in Hev. apply andb_true_iff in Hev as [Hev Hevs].
  simpl. rewrite IH by done. by apply step_keeps_unread.
Qed.

(** On opening a chat, the snapshot of the unread messages is asked for
    before the messages are marked as read. *)
Lemma mount_calls te tl ledger e user :
  currentUser e = Some user → chatId e ≠ EmptyString →
  calls (render e (initialWorld te tl ledger))
  = [GetUnreadMessages (chatId e) (uid (val user)); GetChatMessages (chatId e);
     MarkMessagesAsRead (chatId e) (uid (val user))].
Proof.
  intros Hu Hc. unfold render. cbn [rendered initialWorld depChanged orb].
  unfold markAsReadEffect, subscriptionEffect. simpl. rewrite Hu.
  rewrite bool_decide_eq_false_2 by done. done.
Qed.

(** C1 (amended): on opening a chat the unread messages are asked for
    before the messages are marked as read; from the moment the snapshot
    settles, and as long as the mark-as-read call has not settled after
    it, the unread marker is displayed immediately before the earliest
    message in view whose id is in the snapshot; when the mark-as-read call
    settles the component empties its snapshot and no unread marker is
    displayed. *)
Theorem unread_snapshot_until_marked_read te tl ledger e user events1 unreadMsgs events2 :
  currentUser e = Some user → chatId e ≠ EmptyString →
  forallb Trace.keepsReadState events2 = true →
  let w0 := step translateText (initialWorld te tl ledger) (Render e) in
  let w1 :=
    run translateText events2
      (step translateText (run translateText events1 w0)
         (UnreadMessagesResolved unreadMsgs)) in
  let w2 := step translateText w1 MarkAsReadResolved in
  calls w0
  = [GetUnreadMessages (chatId e) (uid (val user)); GetChatMessages (chatId e);
     MarkMessagesAsRead (chatId e) (uid (val user))]
  ∧ unreadMessageIds (state w1) = list_to_set (id <$> unreadMsgs)
  ∧ (∀ pre m post,
       messages (state w1) = pre ++ m :: post →
       id m ∈ id <$> unreadMsgs → (∀ m', m' ∈ pre → id m' ∉ id <$> unreadMsgs) →
       ∃ before after,
         display LocalTZA w1 = Some (before ++ ItemUnread :: ItemMessage m :: after)
         ∧ messagesOf before = pre ∧ messagesOf after = post
         ∧ countItems isUnreadItem before = 0%nat ∧ countItems isUnreadItem after = 0%nat)
  ∧ unreadMessageIds (state w2) = ∅
  ∧ ∃ out, display LocalTZA w2 = Some out
         ∧ messagesOf out = messages (state w1) ∧ countItems isUnreadItem out = 0%nat.
Proof.
  intros Hu Hc Hev w0 w1 w2.
  assert (Hw1 : unreadMessageIds (state w1) = list_to_set (id <$> unreadMsgs)).
  { subst w1. by rewrite run_keeps_unread. }
  split; [by apply mount_calls|]. split; [done|]. split; [|split; [done|]].
  - intros pre m post Hm Hin Hpre. unfold display. rewrite Hw1.
    apply unread_marker_split; [done|by apply elem_of_list_to_set|].
    intros m' Hm'. rewrite elem_of_list_to_set. by apply Hpre.
  - unfold display. subst w2. simpl. apply no_unread_marker. intros m _.
    apply not_elem_of_empty.
Qed.

(** *** Toggling translation off *)

Lemma subscriptionEffect_subscribes now w user :
  currentUser (env now) = Some user → chatId (env now) ≠ EmptyString →
  subscription (subscriptionEffect now w)
  = Some (mkSubscription (chatId (env now)) (val (blockedUsers (env now)))
            (depTranslationEnabled now) (depTargetLanguage now) (val user)).
Proof.
  intros Hu Hc. unfold subscriptionEffect. rewrite Hu.
  by rewrite bool_decide_eq_false_2 by done.
Qed.

(** C6 (amended): toggling translation off leaves the messages in view as
    they are, translated text included, and so does the commit that
    follows; that commit subscribes again, without translation, and the
    next delivery replaces the messages in view by the delivered ones that
    pass the filters, as they were delivered. *)
Theorem toggle_off_keeps_until_redelivery w d user :
  rendered w = Some d → currentUser (env d) = Some user → chatId (env d) ≠ EmptyString →
  translationEnabled (state w) = true → depTranslationEnabled d = true →
  let w1 := step translateText w ToggleTranslation in
  let w2 := step translateText w1 (Render (env d)) in
  messages (state w1) = messages (state w)
  ∧ translationEnabled (state w1) = false
  ∧ messages (state w2) = messages (state w)
  ∧ (∃ s, subscription w2 = Some s ∧ subTranslationEnabled s = false)
  ∧ ∀ fetched,
      messages (state (step translateText w2 (MessagesDelivered fetched)))
      = filter (λ msg,
          ¬ (id msg ∈ getDeletedMessagesForChat (deletedMessages w) (chatId (env d)))
          ∧ ¬ (senderId msg ∈ val (blockedUsers (env d)))) fetched.
Proof.
  intros Hd Hu Hc Hte Hdte w1 w2.
  assert (H1 : messages (state w1) = messages (state w)
               ∧ translationEnabled (state w1) = false
               ∧ rendered w1 = Some d ∧ deletedMessages w1 = deletedMessages w).
  { subst w1. cbn [step]. unfold handleToggleTranslation. rewrite Hd, Hte, Hu. done. }
  destruct H1 as (Hm1 & Hte1 & Hd1 & Hl1).
  destruct (render_frame (env d) w1) as (Hm2 & _ & Hl2 & _).
  split; [done|]. split; [done|]. split; [subst w2; cbn [step]; congruence|].
  assert (Hs : subscription w2
               = Some (mkSubscription (chatId (env d)) (val (blockedUsers (env d)))
                         false (targetLanguage (state w1)) (val user))).
  { subst w2. cbn [step]. unfold render. rewrite Hd1, Hte1.
    set (now := mkDeps (env d) false _).
    assert (Hc1 : depChanged (Some d) now depChatId = false)
      by (unfold depChanged; by rewrite bool_decide_eq_true_2).
    assert (Hc2 : depChanged (Some d) now depGetSettings = false)
      by (unfold depChanged; by rewrite bool_decide_eq_true_2).
    assert (Hc3 : depChanged (Some d) now depTranslationEnabled = true).
    { unfold depChanged. rewrite bool_decide_eq_false_2; [done|]. simpl. by rewrite Hdte. }
    assert (Hc4 : depChanged (Some d) now depCurrentUser = false)
      by (unfold depChanged; by rewrite bool_decide_eq_true_2).
    rewrite Hc1, Hc2, Hc3, Hc4. cbn [orb].
    change (subscription (subscriptionEffect now w1) = Some
              (mkSubscription (chatId (env now)) (val (blockedUsers (env now)))
                 (depTranslationEnabled now) (depTargetLanguage now) (val user))).
    by apply subscriptionEffect_subscribes. }
  split; [by eauto|]. intros fetched.
  assert (Hl : deletedMessages w2 = deletedMessages w)
    by (subst w2; cbn [step]; congruence).
  cbn [step]. unfold deliver, callback. rewrite Hs, Hl. cbn [subTranslationEnabled subChatId
    subBlockedUsers subTargetLanguage subCurrentUser].
  by rewrite onMessages_untranslated.
Qed.

(** *** Local deletions stay hidden *)

Lemma render_subscription_chat c e w :
  (∀ s, subscription w = Some s → subChatId s = c) → chatId e = c →
  ∀ s, subscription (render e w) = Some s → subChatId s = c.
Proof.
  intros Hw He s. unfold render. stage_render now w1 w2 w3 w4.
  assert (H1 : subscription w1 = subscription w) by (subst w1; by destruct_if).
  assert (H2 : subscription w2 = subscription w1) by (subst w2; by destruct_if).
  assert (H3 : ∀ s, subscription w3 = Some s → subChatId s = c).
  { subst w3. destruct_if.
    - intros s' Hs'. by apply subscriptionEffect_subscription in Hs' as (-> & _).
    - intros s' Hs'. apply Hw. congruence. }
  assert (H4 : subscription w4 = subscription w3).
  { subst w4. destruct_if; [|done]. apply markAsReadEffect_frame. }
  simpl. rewrite H4. apply H3.
Qed.

Lemma step_hiddenIn c messageId w ev :
  Trace.staysInChat c ev = true →
  Trace.hiddenIn c messageId w → Trace.hiddenIn c messageId (step translateText w ev).
Proof.
  intros Hev H. pose proof H as ((d & Hd & Hc) & Hs & Hl).
  assert (Hkeep : ∀ w',
    rendered w' = rendered w → subscription w' = subscription w →
    deletedMessages w' = deletedMessages w → Trace.hiddenIn c messageId w').
  { intros w' Hr' Hs' Hl'. unfold Trace.hiddenIn. rewrite Hr', Hs', Hl'. done. }
  destruct ev; cbn [step].
  - simpl in Hev. apply bool_decide_eq_true in Hev.
    destruct (render_frame e w) as (_ & _ & Hl' & Hr').
    split; [rewrite Hr'; eauto|]. split; [by apply render_subscription_chat|].
    rewrite Hl'. done.
  - by apply Hkeep.
  - by apply Hkeep.
  - unfold deliver. repeat case_match; by apply Hkeep.
  - unfold settle. repeat case_match; by apply Hkeep.
  - unfold handleToggleTranslation. rewrite Hd. repeat case_match; by apply Hkeep.
  - unfold handleSaveTranslationSettings. rewrite Hd. repeat case_match; by apply Hkeep.
  - unfold handleLanguageChange. rewrite Hd. repeat case_match; by apply Hkeep.
  - unfold handleDeleteLocalMessage. rewrite Hd.
    split; [by eauto|]. split; [exact Hs|]. by apply getDeleted_add_mono.
  - unfold handleDeleteMessageForEveryone. rewrite Hd. repeat case_match; by apply Hkeep.
Qed.

Lemma run_hiddenIn c messageId events : ∀ w,
  forallb (Trace.staysInChat c) events = true →
  Trace.hiddenIn c messageId w → Trace.hiddenIn c messageId (run translateText events w).
Proof.
  induction events as [|ev events IH]; intros w Hev H; [done|].
  simpl in Hev. apply andb_true_iff in Hev as [Hev Hevs].
  simpl. apply IH; [done|]. by apply step_hiddenIn.
Qed.

Lemma handler_keeps_subscription w ev :
  (∀ e, ev ≠ Render e) →
  rendered (step translateText w ev) = rendered w
  ∧ subscription (step translateText w ev) = subscription w.
Proof.
  intros Hev. destruct ev; [by destruct (Hev e)|..]; cbn [step]; unfold_handlers;
    repeat case_match; done.
Qed.

Lemma step_subscribedToRendered w ev :
  Trace.subscribedToRendered w → Trace.subscribedToRendered (step translateText w ev).
Proof.
  intros Hinv.
  assert (Hcase : (∃ e, ev = Render e) ∨ ∀ e, ev ≠ Render e)
    by (destruct ev; eauto).
  destruct Hcase as [[e ->]|Hne]; cbn [step].
  2: { destruct (handler_keeps_subscription w ev Hne) as [Hr Hs].
       unfold Trace.subscribedToRendered. rewrite Hr, Hs. done. }
  intros d' s Hd' Hs'.
  destruct (render_frame e w) as (_ & _ & _ & Hr). rewrite Hr in Hd'.
  injection Hd' as <-. cbn [env].
  unfold Trace.subscribedToRendered in Hinv.
  revert s Hs'. unfold render. stage_render now w1 w2 w3 w4.
  assert (H1 : subscription w1 = subscription w) by (subst w1; by destruct_if).
  assert (H2 : subscription w2 = subscription w1) by (subst w2; by destruct_if).
  assert (H3 : ∀ s, subscription w3 = Some s → subChatId s = chatId e).
  { subst w3. destruct_if_as Hrun.
    - intros s' Hs'. by apply subscriptionEffect_subscription in Hs' as (-> & _).
    - intros s' Hs'. rewrite H2, H1 in Hs'.
      destruct (rendered w) as [d|] eqn:Hd; [|done].
      rewrite (Hinv d s' eq_refl Hs').
      rewrite !orb_false_iff in Hrun. destruct Hrun as ((((Hrun & _) & _) & _) & _).
      unfold depChanged, depChatId in Hrun. simpl in Hrun.
      apply negb_false_iff, bool_decide_eq_true in Hrun. done. }
  assert (H4 : subscription w4 = subscription w3).
  { subst w4. destruct_if; [|done]. apply markAsReadEffect_frame. }
  simpl. rewrite H4. apply H3.
Qed.

Lemma run_subscribedToRendered events : ∀ w,
  Trace.subscribedToRendered w → Trace.subscribedToRendered (run translateText events w).
Proof.
  induction events as [|ev events IH]; intros w H; [done|].
  simpl. apply IH. by apply step_subscribedToRendered.
Qed.

End SubscriberFacts.

(** ** The chat list *)

Section AggregatorFacts.
Import JS Types ChatList.

Variable getUser : string → Promise (option User).
Variable hasChatMessages : string → Promise bool.
Variable getUnreadCount : string → string → Promise Z.

Lemma enrichChat_listed currentUser c x :
  enrichChat getUser hasChatMessages getUnreadCount currentUser c = Resolved (Some x) →
  chat x = c ∧ deletedAt c = None
  ∧ (∃ otherUserId,
       List.find (λ id, negb (bool_decide (id = uid currentUser))) (participants c)
       = Some otherUserId
       ∧ otherUserId ≠ EmptyString
       ∧ getUser otherUserId = Resolved (Some (otherUser x)))
  ∧ hasChatMessages (id c) = Resolved true
  ∧ ∃ n, getUnreadCount (id c) (uid currentUser) = Resolved n ∧ unreadCount x = Some n.
Proof.
  unfold enrichChat.
  destruct (deletedAt c); [done|].
  destruct (List.find _ (participants c)) as [o|] eqn:Hfind; [|done]. simpl.
  case_bool_decide as Ho; [done|]. simpl.
  destruct (getUser o) as [[u|]|] eqn:Hu; simpl; [|done..].
  destruct (hasChatMessages (id c)) as [[|]|] eqn:Hh; simpl; [|done..].
  destruct (getUnreadCount (id c) (uid currentUser)) as [n|] eqn:Hn; simpl; [|done].
  intros [= <-]. simpl. repeat split; eauto.
Qed.

Lemma enrichChat_excluded currentUser c :
  deletedAt c ≠ None
  ∨ List.find (λ id, negb (bool_decide (id = uid currentUser))) (participants c) = None
  ∨ List.find (λ id, negb (bool_decide (id = uid currentUser))) (participants c)
    = Some EmptyString
  ∨ (∃ otherUserId,
       List.find (λ id, negb (bool_decide (id = uid currentUser))) (participants c)
       = Some otherUserId
       ∧ getUser otherUserId = Resolved None)
  ∨ hasChatMessages (id c) = Resolved false →
  ∀ x, enrichChat getUser hasChatMessages getUnreadCount currentUser c ≠ Resolved (Some x).
Proof.
  intros H x Hx. apply enrichChat_listed in Hx as (_ & Hd & (o & Hf & Ho & Hu) & Hh & _).
  destruct H as [H|[H|[H|[(o' & Hf' & Hu')|H]]]]; congruence.
Qed.

Lemma onChats_listed currentUser fetchedChats listed x :
  onChats getUser hasChatMessages getUnreadCount currentUser fetchedChats = Resolved listed →
  x ∈ listed →
  ∃ c, c ∈ fetchedChats
     ∧ enrichChat getUser hasChatMessages getUnreadCount currentUser c = Resolved (Some x).
Proof.
  unfold onChats.
  destruct (all_map _ fetchedChats) as [rs|] eqn:Hall; simpl; [|done].
  intros [= <-] Hx. apply all_map_resolved in Hall.
  apply list_elem_of_omap in Hx as (r & Hr & Heq). simpl in Heq. subst r.
  apply list_elem_of_lookup in Hr as [i Hi].
  destruct (Forall2_lookup_r _ _ _ _ _ Hall Hi) as (c & Hc & Hen).
  exists c. split; [by eapply list_elem_of_lookup_2|done].
Qed.

(** C7: a chat with a deletedAt marker, without a participant other than
    the current user (or with the empty id for one), whose counterpart has
    no profile, or without any message is not in the list published for a
    snapshot of the user's chats; every chat that is listed comes from the
    snapshot and carries the profile of its counterpart and its unread
    count. *)
Theorem chat_list_aggregation currentUser fetchedChats listed :
  onChats getUser hasChatMessages getUnreadCount currentUser fetchedChats = Resolved listed →
  (∀ c, c ∈ fetchedChats →
     deletedAt c ≠ None
     ∨ List.find (λ id, negb (bool_decide (id = uid currentUser))) (participants c) = None
     ∨ List.find (λ id, negb (bool_decide (id = uid currentUser))) (participants c)
       = Some EmptyString
     ∨ (∃ otherUserId,
          List.find (λ id, negb (bool_decide (id = uid currentUser))) (participants c)
          = Some otherUserId
          ∧ getUser otherUserId = Resolved None)
     ∨ hasChatMessages (id c) = Resolved false →
     ∀ x, x ∈ listed → chat x ≠ c)
  ∧ (∀ x, x ∈ listed →
       chat x ∈ fetchedChats
       ∧ hasChatMessages (id (chat x)) = Resolved true
       ∧ (∃ otherUserId,
            otherUserId ∈ participants (chat x) ∧ otherUserId ≠ uid currentUser
            ∧ getUser otherUserId = Resolved (Some (otherUser x)))
       ∧ ∃ n, getUnreadCount (id (chat x)) (uid currentUser) = Resolved n
              ∧ unreadCount x = Some n).
Proof.
  intros Hpub. split.
  - intros c _ Hex x Hx Heq.
    destruct (onChats_listed _ _ _ _ Hpub Hx) as (c' & _ & Hen).
    pose proof (enrichChat_listed _ _ _ Hen) as (Hc' & _). rewrite Heq in Hc'. subst c'.
    by apply (enrichChat_excluded currentUser c Hex x).
  - intros x Hx.
    destruct (onChats_listed _ _ _ _ Hpub Hx) as (c & Hc & Hen).
    apply enrichChat_listed in Hen as (-> & _ & (o & Hf & _ & Hu) & Hh & Hn).
    split; [done|]. split; [done|]. split; [|done].
    exists o. apply find_some in Hf as [Hin Hne].
    split; [by apply list_elem_of_In|]. split; [|done].
    by apply negb_true_iff, bool_decide_eq_false in Hne.
Qed.

(** The list is published as soon as the chat service answers every call. *)
Lemma onChats_resolves currentUser fetchedChats :
  (∀ u, getUser u ≠ Rejected) → (∀ c, hasChatMessages c ≠ Rejected) →
  (∀ c u, getUnreadCount c u ≠ Rejected) →
  ∃ listed,
    onChats getUser hasChatMessages getUnreadCount currentUser fetchedChats
    = Resolved listed.
Proof.
  intros Hu Hh Hn. unfold onChats.
  destruct (all_map _ fetchedChats) as [rs|] eqn:Hall; simpl; [by eauto|].
  apply all_map_rejected in Hall as (c & _ & Hrej). exfalso. revert Hrej.
  unfold enrichChat. destruct (deletedAt c); [done|].
  destruct (negb _); [done|].
  destruct (List.find _ _) as [o|]; [|done].
  specialize (Hu o). destruct (getUser o) as [[u|]|]; simpl; [|done..].
  specialize (Hh (id c)). destruct (hasChatMessages (id c)) as [[|]|]; simpl; [|done..].
  specialize (Hn (id c) (uid currentUser)).
  destruct (getUnreadCount _ _); simpl; done.
Qed.

End AggregatorFacts.

(** ** The properties on sample data *)

Section Samples.
Import JS Types DeletionService ChatWindow Display Sample.

(** C1, the claim as stated fails: Alice opens her chat with Bob, the
    messages arrive, the snapshot settles with two unread messages and the
    marker is displayed; the mark-as-read call then settles, and the marker
    is gone. *)
Lemma unread_marker_cleared_counterexample :
  let w :=
    run translator
      [Render window; MessagesDelivered history; UnreadMessagesResolved [m2; m3]]
      (initialWorld false "en" ∅) in
  display ist w
  = Some [ItemDate (timestamp m1); ItemMessage m1; ItemUnread; ItemMessage m2;
          ItemDate (timestamp m3); ItemMessage m3]
  ∧ display ist (step translator w MarkAsReadResolved)
    = Some [ItemDate (timestamp m1); ItemMessage m1; ItemMessage m2;
            ItemDate (timestamp m3); ItemMessage m3]
  ∧ ¬ (∃ out, display ist (step translator w MarkAsReadResolved) = Some out
              ∧ ItemUnread ∈ out).
Proof.
  assert (H : display ist (step translator
                (run translator
                   [Render window; MessagesDelivered history;
                    UnreadMessagesResolved [m2; m3]]
                   (initialWorld false "en" ∅)) MarkAsReadResolved)
              = Some [ItemDate (timestamp m1); ItemMessage m1; ItemMessage m2;
                      ItemDate (timestamp m3); ItemMessage m3])
    by (vm_compute; reflexivity).
  split; [vm_compute; reflexivity|]. split; [exact H|].
  intros (out & Hout & Hin). rewrite H in Hout. injection Hout as <-.
  repeat (apply elem_of_cons in Hin as [Hin|Hin]; [discriminate|]).
  by apply elem_of_nil in Hin.
Qed.

Lemma unread_snapshot_until_marked_read_witness :
  let w0 := step translator (initialWorld false "en" ∅) (Render window) in
  let w1 :=
    run translator [MessagesDelivered history]
      (step translator (run translator [] w0) (UnreadMessagesResolved [m2; m3])) in
  currentUser window = Some (mkObj 1%nat alice)
  ∧ chatId window ≠ EmptyString
  ∧ forallb Trace.keepsReadState [MessagesDelivered history] = true
  ∧ calls w0
    = [GetUnreadMessages "c1" "alice"; GetChatMessages "c1"; MarkMessagesAsRead "c1" "alice"]
  ∧ unreadMessageIds (state w1) = list_to_set (id <$> [m2; m3])
  ∧ unreadMessageIds (state (step translator w1 MarkAsReadResolved)) = ∅.
Proof.
  assert (Hc : chatId window ≠ EmptyString) by discriminate.
  destruct (unread_snapshot_until_marked_read translator ist false "en"%string ∅ window
              (mkObj 1%nat alice) [] [m2; m3] [MessagesDelivered history]
              eq_refl Hc eq_refl) as (H1 & H2 & _ & H3 & _).
  exact (conj eq_refl (conj Hc (conj eq_refl (conj H1 (conj H2 H3))))).
Defined.

(** C2, the claim as stated fails: the only message is unread, and the
    date marker is followed by the unread marker, not by the message. *)
Lemma date_marker_before_unread_marker_counterexample :
  timestampOrdered [m1] = true
  ∧ getMessagesWithDateSeparators ist [m1] {["m1"%string]}
    = Some [ItemDate (timestamp m1); ItemUnread; ItemMessage m1]
  ∧ ¬ (∀ out before d after,
         getMessagesWithDateSeparators ist [m1] {["m1"%string]} = Some out →
         out = before ++ ItemDate d :: after →
         ∃ m after', after = ItemMessage m :: after').
Proof.
  assert (H : getMessagesWithDateSeparators ist [m1] {["m1"%string]}
              = Some [ItemDate (timestamp m1); ItemUnread; ItemMessage m1])
    by (vm_compute; reflexivity).
  split; [reflexivity|]. split; [exact H|]. intros Hclaim.
  destruct (Hclaim _ [] (timestamp m1) [ItemUnread; ItemMessage m1] H eq_refl)
    as (m & after' & Heq).
  discriminate.
Qed.

(** Where the clocks are set back across midnight the local day of later
    messages can be an earlier one, and a day gets a second marker. *)
Lemma date_markers_where_clocks_go_back :
  timestampOrdered [n1; n2; n3] = true
  ∧ getMessagesWithDateSeparators clocksSetBack [n1; n2; n3] ∅
    = Some [ItemDate (timestamp n1); ItemMessage n1; ItemDate (timestamp n2); ItemMessage n2;
            ItemDate (timestamp n3); ItemMessage n3]
  ∧ length (remove_dups ((λ m, calendarDay clocksSetBack (timestamp m)) <$> [n1; n2; n3]))
    = 2%nat.
Proof. split; [reflexivity|]. split; vm_compute; reflexivity. Qed.

Lemma date_marker_per_day_witness :
  (∀ t1 t2, t1 ≤ t2 → localDay ist t1 ≤ localDay ist t2)
  ∧ timestampOrdered history = true
  ∧ ∃ out, getMessagesWithDateSeparators ist history {["m2"%string]} = Some out
         ∧ countItems isDateItem out = 2%nat.
Proof.
  split; [exact (fixed_offset_mono 19800000)|]. split; [reflexivity|].
  destruct (date_marker_per_day ist (fixed_offset_mono 19800000) history {["m2"%string]}
              eq_refl) as (out & H1 & H2 & _).
  exists out. split; [exact H1|]. rewrite H2. vm_compute. reflexivity.
Defined.

(** C3, the claim as stated fails: the unread set is not empty, but its
    message is not in view (deleted locally, say), and no marker is
    displayed. *)
Lemma no_unread_marker_counterexample :
  ({["m9"%string]} : gset string) ≠ ∅
  ∧ getMessagesWithDateSeparators ist history {["m9"%string]}
    = Some [ItemDate (timestamp m1); ItemMessage m1; ItemMessage m2;
            ItemDate (timestamp m3); ItemMessage m3]
  ∧ countItems isUnreadItem
      [ItemDate (timestamp m1); ItemMessage m1; ItemMessage m2;
       ItemDate (timestamp m3); ItemMessage m3] = 0%nat.
Proof.
  split; [|split; [vm_compute; reflexivity|reflexivity]].
  intros H. assert (Hin : "m9"%string ∈ ({["m9"%string]} : gset string))
    by (by apply elem_of_singleton).
  rewrite H in Hin. by apply not_elem_of_empty in Hin.
Qed.

Lemma unread_marker_placement_witness :
  history = [m1] ++ m2 :: [m3]
  ∧ id m2 ∈ ({["m2"%string]} : gset string)
  ∧ (∀ m', m' ∈ [m1] → id m' ∉ ({["m2"%string]} : gset string))
  ∧ ∃ out, getMessagesWithDateSeparators ist history {["m2"%string]} = Some out
         ∧ countItems isUnreadItem out = 1%nat.
Proof.
  assert (H2 : id m2 ∈ ({["m2"%string]} : gset string)) by (by apply elem_of_singleton).
  assert (H1 : ∀ m', m' ∈ [m1] → id m' ∉ ({["m2"%string]} : gset string)).
  { intros m' Hin. apply list_elem_of_singleton in Hin as ->.
    intros Hin. by apply elem_of_singleton in Hin. }
  split; [reflexivity|]. split; [exact H2|]. split; [exact H1|].
  destruct (unread_marker_placement ist history {["m2"%string]}) as (out & Hout & _ & H).
  exists out. split; [exact Hout|].
  exact (proj1 (H [m1] m2 [m3] eq_refl H2 H1)).
Defined.

Lemma translation_overlay_witness :
  onMessages translator ∅ ∅ true "en" (Some alice) [m1]
  = Resolved [withTranslatedText m1 "Hello"]
  ∧ translatedText (withTranslatedText m1 "Hello") = Some "Hello"%string
  ∧ originalText (withTranslatedText m1 "Hello") = Some "Hola"%string
  ∧ Forall2 (λ msg out,
        if negb (bool_decide (senderId msg = uid alice)) && truthy (originalText msg)
        then ∃ text translated,
               originalText msg = Some text
               ∧ translator text "en" = Resolved translated
               ∧ translatedText out = Some translated
               ∧ sameBesidesTranslatedText out msg
        else out = msg)
      (filter (λ msg, ¬ (id msg ∈ (∅ : gset string)) ∧ ¬ (senderId msg ∈ (∅ : gset string)))
         [m1])
      [withTranslatedText m1 "Hello"].
Proof.
  assert (H : onMessages translator ∅ ∅ true "en" (Some alice) [m1]
              = Resolved [withTranslatedText m1 "Hello"]) by (vm_compute; reflexivity).
  split; [exact H|]. split; [reflexivity|]. split; [reflexivity|].
  exact (proj2 (translation_overlay translator ∅ ∅ "en"%string alice [m1]) _ H).
Defined.

(** C6, the claim as stated fails: Bob's message is in view with its
    translation; Alice toggles translation off, the window subscribes
    again and the message is delivered again: it is in view without its
    translation. *)
Lemma translation_cleared_counterexample :
  let w :=
    run translator [Render windowTranslating; MessagesDelivered [m1]; TranslationsSettled 0]
      (initialWorld true "en" ∅) in
  let w' :=
    run translator [ToggleTranslation; Render windowTranslating; MessagesDelivered [m1]] w in
  messages (state w) = [withTranslatedText m1 "Hello"]
  ∧ messages (state w') = [m1]
  ∧ translatedText m1 = None.
Proof. split; [vm_compute; reflexivity|]. split; [vm_compute; reflexivity|reflexivity]. Qed.

Lemma toggle_off_keeps_until_redelivery_witness :
  let w :=
    run translator [Render windowTranslating; MessagesDelivered [m1]; TranslationsSettled 0]
      (initialWorld true "en" ∅) in
  let d := mkDeps windowTranslating true "en" in
  let w1 := step translator w ToggleTranslation in
  let w2 := step translator w1 (Render windowTranslating) in
  rendered w = Some d
  ∧ currentUser (env d) = Some (mkObj 1%nat alice)
  ∧ chatId (env d) ≠ EmptyString
  ∧ translationEnabled (state w) = true
  ∧ depTranslationEnabled d = true
  ∧ messages (state w1) = messages (state w)
  ∧ translationEnabled (state w1) = false
  ∧ messages (state w2) = messages (state w).
Proof.
  intros w d w1 w2.
  assert (Hr : rendered w = Some d) by reflexivity.
  assert (Hc : chatId (env d) ≠ EmptyString) by discriminate.
  assert (Ht : translationEnabled (state w) = true) by reflexivity.
  destruct (toggle_off_keeps_until_redelivery translator w d (mkObj 1%nat alice)
              Hr eq_refl Hc Ht eq_refl) as (H1 & H2 & H3 & _ & _).
  exact (conj Hr (conj eq_refl (conj Hc (conj Ht (conj eq_refl (conj H1 (conj H2 H3))))))).
Defined.

Lemma chat_list_aggregation_witness :
  ChatList.onChats users chatHasMessages unreadCounts alice
    [chatWithBob; chatUnused; chatDeleted]
  = Resolved [ChatList.mkChatWithUser chatWithBob bob (Some 2)]
  ∧ ∀ x, x ∈ [ChatList.mkChatWithUser chatWithBob bob (Some 2)] →
         ChatList.chat x ≠ chatUnused.
Proof.
  assert (H : ChatList.onChats users chatHasMessages unreadCounts alice
                [chatWithBob; chatUnused; chatDeleted]
              = Resolved [ChatList.mkChatWithUser chatWithBob bob (Some 2)])
    by (vm_compute; reflexivity).
  split; [exact H|].
  apply (proj1 (chat_list_aggregation users chatHasMessages unreadCounts alice
                  [chatWithBob; chatUnused; chatDeleted] _ H) chatUnused).
  - right. by left.
  - right. right. right. right. reflexivity.
Defined.

Lemma snapshot_once_per_chat_open_witness :
  let events1 := [MessagesDelivered history; Render windowBlocking; ToggleTranslation] in
  let events2 :=
    [SaveTranslationSettings true "en" (Resolved ()); Render windowBlocking;
     LanguageChange "fr"; Render windowBlocking; MessagesDelivered history] in
  (∀ d, rendered (initialWorld false "en" ∅) = Some d → chatId (env d) ≠ chatId window)
  ∧ forallb (Trace.staysInChat (chatId window)) (events1 ++ events2) = true
  ∧ (Trace.countCalls Trace.isSnapshotCall
       (calls (run translator events2
                 (run translator events1
                    (step translator (initialWorld false "en" ∅) (Render window))))) ≤ 1)%nat.
Proof.
  intros events1 events2. split; [discriminate|]. split; [reflexivity|].
  assert (Hopen : ∀ d, rendered (initialWorld false "en" ∅) = Some d →
                       chatId (env d) ≠ chatId window) by discriminate.
  exact (proj1 (snapshot_once_per_chat_open translator (initialWorld false "en" ∅) window
                  events1 events2 Hopen eq_refl)).
Defined.

End Samples.

(** * Further properties *)

(** ** The presentation grouper, for any message list *)

Section GrouperMore.
Import JS Types ChatWindow Display DisplayMore.

Variable LocalTZA : Z → Z.

(** X1: [isSameDay] holds exactly for two valid dates whose local times
    fall on the same day; an invalid date is on the same day as no date,
    itself included. *)
Theorem isSameDay_same_local_day d1 d2 :
  isSameDay LocalTZA d1 d2 = true
  ↔ ∃ t1 t2, timeValue d1 = Num t1 ∧ timeValue d2 = Num t2
             ∧ localDay LocalTZA t1 = localDay LocalTZA t2.
Proof.
  split.
  - intros H. destruct (timeValue d1) as [|t1] eqn:H1.
    { unfold isSameDay, getFullYear in H. by rewrite H1 in H. }
    destruct (timeValue d2) as [|t2] eqn:H2.
    { unfold isSameDay, getFullYear in H. rewrite H2 in H. simpl in H.
      by destruct (timeValue d1). }
    exists t1, t2. split; [done|]. split; [done|].
    rewrite (isSameDay_calendarDay LocalTZA d1 d2 t1 t2 H1 H2) in H.
    apply bool_decide_eq_true in H. by apply (calendarDay_eq LocalTZA d1 d2 t1 t2).
  - intros (t1 & t2 & H1 & H2 & H).
    rewrite (isSameDay_calendarDay LocalTZA d1 d2 t1 t2 H1 H2).
    apply bool_decide_eq_true. by apply (calendarDay_eq LocalTZA d1 d2 t1 t2).
Qed.

Lemma grouped_app_any unread pre l : ∀ prev added,
  grouped LocalTZA unread prev added (pre ++ l)
  = grouped LocalTZA unread prev added pre
    ++ grouped LocalTZA unread (from_option Some prev (last pre))
         (added || anyUnread unread pre) l.
Proof.
  induction pre as [|p pre IH]; intros prev added.
  - simpl. by rewrite orb_false_r.
  - simpl. rewrite <- !app_assoc. simpl. do 3 f_equal.
    rewrite IH, orb_assoc. f_equal. f_equal.
    rewrite last_cons. by destruct (last pre).
Qed.

(** X2: the display of a message list extended at its end extends the
    display of the list: no item already displayed changes or moves when
    later messages arrive. *)
Theorem display_extends messages more unread :
  ∃ out tail,
    getMessagesWithDateSeparators LocalTZA messages unread = Some out
    ∧ getMessagesWithDateSeparators LocalTZA (messages ++ more) unread = Some (out ++ tail)
    ∧ messagesOf tail = more.
Proof.
  exists (grouped LocalTZA unread None false messages),
    (grouped LocalTZA unread (from_option Some None (last messages))
       (false || anyUnread unread messages) more).
  rewrite !getMessagesWithDateSeparators_grouped, grouped_app_any.
  split; [done|]. split; [done|]. apply messagesOf_grouped.
Qed.

Lemma strict_eq_true a b : strict_eq a b = true → a = b.
Proof. destruct a, b; simpl; try done. intros H. by apply bool_decide_eq_true in H as ->. Qed.

Lemma isSameDay_true_calendarDay d1 d2 :
  isSameDay LocalTZA d1 d2 = true → calendarDay LocalTZA d1 = calendarDay LocalTZA d2.
Proof.
  unfold isSameDay, calendarDay. intros H.
  apply andb_true_iff in H as [H H3]. apply andb_true_iff in H as [H1 H2].
  by rewrite (strict_eq_true _ _ H1), (strict_eq_true _ _ H2), (strict_eq_true _ _ H3).
Qed.

Lemma lastDate_app a b :
  lastDate (a ++ b) = match lastDate b with Some d => Some d | None => lastDate a end.
Proof.
  unfold lastDate. rewrite omap_app, last_app. by destruct (last (omap _ b)).
Qed.

Lemma lastDate_unreadSeparator unread added m :
  lastDate (unreadSeparator unread added m) = None.
Proof. unfold unreadSeparator. by destruct (_ && _). Qed.

(** After the items of a message, the header in force is on its day. *)
Lemma lastDate_chunk unread prev added m items :
  match prev with
  | None => True
  | Some p => ∃ d, lastDate items = Some d
                   ∧ calendarDay LocalTZA d = calendarDay LocalTZA (timestamp p)
  end →
  ∃ d, lastDate (items ++ dateSeparator LocalTZA prev m ++ unreadSeparator unread added m)
       = Some d
       ∧ calendarDay LocalTZA d = calendarDay LocalTZA (timestamp m).
Proof.
  intros Hprev. rewrite !lastDate_app, lastDate_unreadSeparator.
  unfold dateSeparator. destruct prev as [p|]; [|by exists (timestamp m)].
  destruct (isSameDay LocalTZA (timestamp p) (timestamp m)) eqn:Hs;
    [|by exists (timestamp m)].
  destruct Hprev as (d & Hd & Hcd). exists d. simpl. split; [done|].
  rewrite Hcd. by apply isSameDay_true_calendarDay.
Qed.

Lemma lastDate_grouped unread l : ∀ prev added items p,
  match prev with
  | None => True
  | Some p => ∃ d, lastDate items = Some d
                   ∧ calendarDay LocalTZA d = calendarDay LocalTZA (timestamp p)
  end →
  last l = Some p →
  ∃ d, lastDate (items ++ grouped LocalTZA unread prev added l) = Some d
       ∧ calendarDay LocalTZA d = calendarDay LocalTZA (timestamp p).
Proof.
  induction l as [|m l IH]; intros prev added items p Hprev Hlast; [done|].
  pose proof (lastDate_chunk unread prev added m items Hprev) as (d & Hd & Hcd).
  assert (Hd' : lastDate ((items ++ dateSeparator LocalTZA prev m
                                 ++ unreadSeparator unread added m) ++ [ItemMessage m])
                = Some d) by (by rewrite lastDate_app).
  cbn [grouped].
  replace (items ++ dateSeparator LocalTZA prev m ++ unreadSeparator unread added m
           ++ ItemMessage m :: grouped LocalTZA unread (Some m)
                (added || bool_decide (id m ∈ unread)) l)
    with (((items ++ dateSeparator LocalTZA prev m ++ unreadSeparator unread added m)
           ++ [ItemMessage m])
          ++ grouped LocalTZA unread (Some m) (added || bool_decide (id m ∈ unread)) l)
    by (by rewrite <- !app_assoc).
  destruct l as [|m' l'].
  - simpl in Hlast. injection Hlast as <-. rewrite app_nil_r. eauto.
  - apply IH; [by eauto|]. by rewrite last_cons_cons in Hlast.
Qed.

Lemma grouped_message_inv unread l : ∀ prev added before m after,
  grouped LocalTZA unread prev added l = before ++ ItemMessage m :: after →
  ∃ l1 l2,
    l = l1 ++ m :: l2
    ∧ before = grouped LocalTZA unread prev added l1
               ++ dateSeparator LocalTZA (from_option Some prev (last l1)) m
               ++ unreadSeparator unread (added || anyUnread unread l1) m.
Proof.
  induction l as [|x l IH]; intros prev added before m after H.
  - by destruct before.
  - cbn [grouped] in H.
    assert ((before = dateSeparator LocalTZA prev x ++ unreadSeparator unread added x
             ∧ m = x)
            ∨ ∃ before',
                before = dateSeparator LocalTZA prev x ++ unreadSeparator unread added x
                         ++ ItemMessage x :: before'
                ∧ grouped LocalTZA unread (Some x) (added || bool_decide (id x ∈ unread)) l
                  = before' ++ ItemMessage m :: after) as [[-> ->]|(before' & -> & Hrest)].
    { unfold dateSeparator, unreadSeparator in *.
      destruct prev as [p|]; [destruct (isSameDay _ _ _)|];
        destruct (_ && _); simpl in H |- *;
        repeat (destruct before as [|? before]; simplify_eq/=; eauto). }
    + exists [], l. simpl. by rewrite orb_false_r.
    + destruct (IH _ _ _ _ _ Hrest) as (l1 & l2 & -> & ->).
      exists (x :: l1), l2. split; [done|]. simpl. rewrite <- !app_assoc. simpl.
      rewrite last_cons, !orb_assoc. by destruct (last l1).
Qed.

(** X3: whatever the order and the timestamps of the messages, the date
    marker last displayed before a message is on that message's calendar
    day. *)
Theorem header_is_message_day messages unread :
  ∃ out, getMessagesWithDateSeparators LocalTZA messages unread = Some out
    ∧ ∀ before m after, out = before ++ ItemMessage m :: after →
        ∃ d, lastDate before = Some d
             ∧ calendarDay LocalTZA d = calendarDay LocalTZA (timestamp m).
Proof.
  exists (grouped LocalTZA unread None false messages).
  split; [apply getMessagesWithDateSeparators_grouped|].
  intros before m after H.
  apply grouped_message_inv in H as (l1 & l2 & -> & ->).
  rewrite app_assoc. rewrite lastDate_app, lastDate_unreadSeparator.
  destruct (last l1) as [p|] eqn:Hl1.
  - destruct (lastDate_grouped unread l1 None false [] p I Hl1) as (d & Hd & Hcd).
    simpl in Hd. rewrite lastDate_app. simpl. unfold dateSeparator.
    destruct (isSameDay LocalTZA (timestamp p) (timestamp m)) eqn:Hs.
    + exists d. simpl. split; [done|]. rewrite Hcd. by apply isSameDay_true_calendarDay.
    + by exists (timestamp m).
  - apply last_None in Hl1 as ->. by exists (timestamp m).
Qed.

Lemma last_grouped unread l : ∀ prev added,
  last (grouped LocalTZA unread prev added l) = ItemMessage <$> last l.
Proof.
  induction l as [|m l IH]; intros prev added; [done|].
  cbn [grouped]. rewrite !last_app, last_cons, IH, last_cons.
  by destruct (last l).
Qed.

Lemma length_grouped unread l : ∀ prev added,
  (length l ≤ length (grouped LocalTZA unread prev added l)
   ≤ 2 * length l + (if added then 0 else 1))%nat.
Proof.
  induction l as [|m l IH]; intros prev added; [simpl; destruct added; lia|].
  cbn [grouped]. rewrite !length_app. cbn [length].
  specialize (IH (Some m) (added || bool_decide (id m ∈ unread))).
  assert (length (dateSeparator LocalTZA prev m) ≤ 1)%nat
    by (unfold dateSeparator; destruct prev; [destruct (isSameDay _ _ _)|]; simpl; lia).
  unfold unreadSeparator.
  destruct added, (bool_decide (id m ∈ unread)); simpl in *; lia.
Qed.

(** X4: a display never ends with a marker: its last item is the last
    message; and it holds, besides the messages, at most one date marker
    per message and one unread marker. *)
Theorem display_shape messages unread :
  ∃ out, getMessagesWithDateSeparators LocalTZA messages unread = Some out
    ∧ last out = ItemMessage <$> last messages
    ∧ (length messages ≤ length out ≤ 2 * length messages + 1)%nat.
Proof.
  exists (grouped LocalTZA unread None false messages).
  split; [apply getMessagesWithDateSeparators_grouped|].
  split; [apply last_grouped|]. apply (length_grouped unread messages None false).
Qed.
End GrouperMore.

Section SubscriberMore.
Import JS Types DeletionService ChatWindow Display Protocol.

Variable translateText : string → string → Promise string.
Variable LocalTZA : Z → Z.

Ltac destruct_if :=
  match goal with
  | |- context [if ?c then _ else _] => destruct c eqn:?
  end.

Ltac destruct_if_as H :=
  match goal with
  | |- context [if ?c then _ else _] => destruct c eqn:H
  end.

Ltac name_stage f w' :=
  match goal with
  | |- context [if ?c then f ?x else ?y] => set (w' := if c then f x else y) in *
  end.

Ltac stage_render now w1 w2 w3 w4 :=
  match goal with
  | |- context [settingsEffect ?n _] => set (now := n) in *
  end;
  name_stage (settingsEffect now) w1; name_stage resetGuardEffect w2;
  name_stage (subscriptionEffect now) w3; name_stage (markAsReadEffect now) w4.

Ltac unfold_handlers :=
  unfold handleToggleTranslation, handleSaveTranslationSettings, handleLanguageChange,
    handleDeleteLocalMessage, handleDeleteMessageForEveryone, deliver, settle.

Lemma listener_push log c : listener (push log c) = listen (listener log) c.
Proof. unfold listener, push. by rewrite foldl_app. Qed.

Lemma subscriptionEffect_listener now w :
  listener (calls w) = Some (subChatId <$> subscription w) →
  listener (calls (subscriptionEffect now w))
  = Some (subChatId <$> subscription (subscriptionEffect now w)).
Proof.
  intros H. unfold subscriptionEffect.
  destruct (subscription w) as [s|] eqn:Hs; simpl in *.
  - assert (H' : listener (push (calls w) (Unsubscribe (subChatId s))) = Some None).
    { rewrite listener_push, H. simpl. by rewrite bool_decide_eq_true_2. }
    destruct (currentUser (env now)) as [user|]; [|done].
    case_bool_decide; [done|].
    destruct (hasMarkedAsReadRef _); simpl; rewrite !listener_push, H; simpl;
      rewrite bool_decide_eq_true_2 by done; reflexivity.
  - destruct (currentUser (env now)) as [user|]; [|by rewrite Hs].
    case_bool_decide; [by rewrite Hs|].
    destruct (hasMarkedAsReadRef _); simpl; rewrite !listener_push, H; reflexivity.
Qed.

Lemma markAsReadEffect_listener now w :
  listener (calls (markAsReadEffect now w)) = listener (calls w).
Proof.
  unfold markAsReadEffect. destruct (currentUser (env now)); [|done].
  case_bool_decide; [done|]. simpl. rewrite listener_push.
  by destruct (listener (calls w)) as [[?|]|].
Qed.

Lemma render_listener e w :
  listener (calls w) = Some (subChatId <$> subscription w) →
  listener (calls (render e w)) = Some (subChatId <$> subscription (render e w)).
Proof.
  intros H. unfold render. stage_render now w1 w2 w3 w4.
  assert (H1 : listener (calls w1) = Some (subChatId <$> subscription w1))
    by (subst w1; by destruct_if).
  assert (H2 : listener (calls w2) = Some (subChatId <$> subscription w2))
    by (subst w2; by destruct_if).
  assert (H3 : listener (calls w3) = Some (subChatId <$> subscription w3)).
  { subst w3. destruct_if; [|done]. by apply subscriptionEffect_listener. }
  assert (H4 : listener (calls w4) = Some (subChatId <$> subscription w4)).
  { subst w4. destruct_if; [|done].
    rewrite markAsReadEffect_listener.
    destruct (markAsReadEffect_frame now w3) as (_ & _ & ->). done. }
  done.
Qed.

Lemma listen_other live c :
  match c with GetChatMessages _ | Unsubscribe _ => False | _ => True end →
  listen live c = live.
Proof. by destruct live as [[?|]|], c. Qed.

Lemma handler_listener w ev :
  (∀ e, ev ≠ Render e) →
  listener (calls (step translateText w ev)) = listener (calls w).
Proof.
  intros Hev. destruct ev; [by destruct (Hev e)|..]; cbn [step]; unfold_handlers;
    repeat case_match; simpl; rewrite ?listener_push, ?listen_other; done.
Qed.

Lemma step_listener w ev :
  listener (calls w) = Some (subChatId <$> subscription w) →
  listener (calls (step translateText w ev))
  = Some (subChatId <$> subscription (step translateText w ev)).
Proof.
  intros H.
  assert (Hcase : (∃ e, ev = Render e) ∨ ∀ e, ev ≠ Render e)
    by (destruct ev; eauto).
  destruct Hcase as [[e ->]|Hne]; [by apply render_listener|].
  rewrite handler_listener by done.
  by destruct (handler_keeps_subscription translateText w ev Hne) as [_ ->].
Qed.

(** X5: the component holds at most one listener on the chat service: in
    the log of every run, a subscription is opened only when none is live,
    each release is that of the live subscription, and the listener left
    by the log is the subscription the component holds. *)
Theorem one_listener events te tl ledger :
  listener (calls (run translateText events (initialWorld te tl ledger)))
  = Some (subChatId <$> subscription (run translateText events (initialWorld te tl ledger))).
Proof.
  assert (H : ∀ w, listener (calls w) = Some (subChatId <$> subscription w) →
    listener (calls (run translateText events w))
    = Some (subChatId <$> subscription (run translateText events w))).
  { induction events as [|ev events IH]; intros w Hw; [done|].
    simpl. apply IH. by apply step_listener. }
  by apply H.
Qed.

Lemma subscriptionEffect_none now w :
  currentUser (env now) = None ∨ chatId (env now) = EmptyString →
  subscription (subscriptionEffect now w) = None.
Proof.
  intros H. unfold subscriptionEffect.
  destruct (subscription w) eqn:Hs, (currentUser (env now)); simpl;
    try case_bool_decide; try done; by destruct H.
Qed.

(** The subscription the third effect leaves depends on the commit only. *)
Lemma subscriptionEffect_result now w :
  subscription (subscriptionEffect now w)
  = match currentUser (env now) with
    | Some user =>
        if bool_decide (chatId (env now) = EmptyString) then None
        else Some (mkSubscription (chatId (env now)) (val (blockedUsers (env now)))
                     (depTranslationEnabled now) (depTargetLanguage now) (val user))
    | None => None
    end.
Proof.
  unfold subscriptionEffect.
  destruct (subscription w) eqn:Hs, (currentUser (env now));
    try case_bool_decide; done.
Qed.

(** The subscription after the third effect of a commit, run or skipped. *)
Lemma subscriptionEffect_closedOver (now : Deps) w :
  closedOverRendered w →
  let w3 :=
    if depChanged (rendered w) now depChatId
       || depChanged (rendered w) now depTranslationEnabled
       || depChanged (rendered w) now depTargetLanguage
       || depChanged (rendered w) now depCurrentUser
       || depChanged (rendered w) now depBlockedUsers
    then subscription (subscriptionEffect now w) else subscription w in
  match w3 with
  | Some s =>
      is_Some (currentUser (env now)) ∧ chatId (env now) ≠ EmptyString
      ∧ subChatId s = chatId (env now)
      ∧ subTranslationEnabled s = depTranslationEnabled now
      ∧ subTargetLanguage s = depTargetLanguage now
  | None => currentUser (env now) = None ∨ chatId (env now) = EmptyString
  end.
Proof.
  intros Hinv. destruct_if_as Hrun; cbn zeta.
  - destruct (currentUser (env now)) as [user|] eqn:Hu.
    + destruct (decide (chatId (env now) = EmptyString)) as [Hc|Hc].
      * rewrite subscriptionEffect_none by eauto. eauto.
      * rewrite (subscriptionEffect_subscribes now w user) by done. simpl. eauto 10.
    + rewrite subscriptionEffect_none by eauto. eauto.
  - unfold closedOverRendered in Hinv.
    destruct (rendered w) as [p|] eqn:Hp; [|done].
    rewrite !orb_false_iff in Hrun.
    destruct Hrun as ((((Hc & Hte) & Htl) & Hcu) & _).
    unfold depChanged in Hc, Hte, Htl, Hcu.
    apply negb_false_iff, bool_decide_eq_true in Hc, Hte, Htl, Hcu.
    unfold depChatId in Hc. unfold depCurrentUser in Hcu.
    rewrite <- Hc, <- Hte, <- Htl.
    destruct (subscription w) as [s|].
    + destruct Hinv as ([u Hu] & ? & ? & ? & ?). rewrite Hu in Hcu.
      destruct (currentUser (env now)); [eauto 10|done].
    + destruct Hinv as [Hu|?]; [|by right]. rewrite Hu in Hcu.
      destruct (currentUser (env now)); [done|by left].
Qed.

Lemma render_closedOver e w :
  closedOverRendered w → closedOverRendered (render e w).
Proof.
  intros Hinv. unfold closedOverRendered.
  destruct (render_frame e w) as (_ & _ & _ & ->).
  pose proof (subscriptionEffect_closedOver
                (mkDeps e (translationEnabled (state w)) (targetLanguage (state w))) w Hinv)
    as H3.
  cbn zeta in H3. revert H3.
  unfold render. stage_render now w1 w2 w3 w4.
  assert (H1 : subscription w1 = subscription w) by (subst w1; by destruct_if).
  assert (H2 : subscription w2 = subscription w1) by (subst w2; by destruct_if).
  assert (H4 : subscription w4 = subscription w3).
  { subst w4. destruct_if; [|done]. apply markAsReadEffect_frame. }
  cbn [subscription withRendered]. rewrite H4.
  assert (Hw3 : subscription w3
                = if depChanged (rendered w) now depChatId
                     || depChanged (rendered w) now depTranslationEnabled
                     || depChanged (rendered w) now depTargetLanguage
                     || depChanged (rendered w) now depCurrentUser
                     || depChanged (rendered w) now depBlockedUsers
                  then subscription (subscriptionEffect now w) else subscription w).
  { subst w3. destruct_if.
    - by rewrite !subscriptionEffect_result.
    - by rewrite H2, H1. }
  rewrite Hw3. done.
Qed.

Lemma step_closedOver w ev :
  closedOverRendered w → closedOverRendered (step translateText w ev).
Proof.
  intros H.
  assert (Hcase : (∃ e, ev = Render e) ∨ ∀ e, ev ≠ Render e)
    by (destruct ev; eauto).
  destruct Hcase as [[e ->]|Hne]; [by apply render_closedOver|].
  destruct (handler_keeps_subscription translateText w ev Hne) as [Hr Hs].
  unfold closedOverRendered. by rewrite Hr, Hs.
Qed.

(** X6: in every run, the component is subscribed exactly when its last
    commit had a user and a chat, and the callback of the live
    subscription closed over the chat, the translation flag and the
    target language of that commit (those of the state at that commit,
    whatever the handlers changed since). *)
Theorem subscription_of_last_commit events te tl ledger :
  closedOverRendered (run translateText events (initialWorld te tl ledger)).
Proof.
  assert (H : ∀ w, closedOverRendered w →
                   closedOverRendered (run translateText events w)).
  { induction events as [|ev events IH]; intros w Hw; [done|].
    simpl. apply IH. by apply step_closedOver. }
  by apply H.
Qed.

(** *** The snapshot request and its followers *)

Lemma snapshotLeads_app l1 l2 :
  snapshotLeads l1 → snapshotLeads l2 → snapshotLeads (l1 ++ l2).
Proof.
  intros H1 H2 pre chat user post H.
  apply app_eq_app in H as [k [[-> Hk]|[-> Hk]]].
  - destruct k as [|x k]; simpl in Hk.
    + symmetry in Hk. apply (H2 []) in Hk. done.
    + injection Hk as <- ->.
      destruct (H1 pre chat user k eq_refl) as (post' & ->). eauto.
  - by apply H2 in Hk.
Qed.

Ltac solve_snapshotLeads :=
  let pre := fresh "pre" in
  intros pre ? ? ? ?;
  do 5 (try (destruct pre as [|? pre]; simplify_eq/=)); eauto.

Lemma subscriptionEffect_calls now w :
  calls (subscriptionEffect now w)
  = calls w
    ++ match subscription w with Some s => [Unsubscribe (subChatId s)] | None => [] end
    ++ match currentUser (env now) with
       | Some user =>
           if bool_decide (chatId (env now) = EmptyString) then []
           else (if hasMarkedAsReadRef (state w) then []
                 else [GetUnreadMessages (chatId (env now)) (uid (val user))])
                ++ [GetChatMessages (chatId (env now))]
       | None => []
       end.
Proof.
  unfold subscriptionEffect, call, push.
  destruct (subscription w) eqn:Hs, (currentUser (env now));
    try case_bool_decide; simpl; rewrite ?app_nil_r; try done;
    destruct (hasMarkedAsReadRef (state w)); simpl; by rewrite <- ?app_assoc.
Qed.

Lemma subscriptionEffect_guard now w :
  hasMarkedAsReadRef (state (subscriptionEffect now w))
  = match currentUser (env now) with
    | Some _ =>
        if bool_decide (chatId (env now) = EmptyString)
        then hasMarkedAsReadRef (state w) else true
    | None => hasMarkedAsReadRef (state w)
    end.
Proof.
  unfold subscriptionEffect.
  destruct (subscription w) eqn:Hs, (currentUser (env now));
    try case_bool_decide; simpl; try done;
    by destruct (hasMarkedAsReadRef (state w)) eqn:Hg.
Qed.

Lemma markAsReadEffect_calls now w :
  calls (markAsReadEffect now w)
  = calls w
    ++ match currentUser (env now) with
       | Some user =>
           if bool_decide (chatId (env now) = EmptyString) then []
           else [MarkMessagesAsRead (chatId (env now)) (uid (val user))]
       | None => []
       end.
Proof.
  unfold markAsReadEffect.
  destruct (currentUser (env now)); try case_bool_decide; simpl;
    by rewrite ?app_nil_r.
Qed.

(** A commit that skips the effects on the user and the chat has the user
    and the chat of the commit before. *)
Lemma same_user_and_chat (w : World) (now : Deps) :
  depChanged (rendered w) now depChatId = false →
  depChanged (rendered w) now depCurrentUser = false →
  ∃ p, rendered w = Some p ∧ chatId (env p) = chatId (env now)
       ∧ (currentUser (env p) = None ↔ currentUser (env now) = None).
Proof.
  unfold depChanged. destruct (rendered w) as [p|]; [|done].
  intros Hc Hu. apply negb_false_iff, bool_decide_eq_true in Hc, Hu.
  exists p. split; [done|]. split; [done|].
  unfold depCurrentUser in Hu.
  destruct (currentUser (env p)), (currentUser (env now)); done.
Qed.

Lemma render_snapshot e w :
  guardOpen w →
  guardOpen (render e w)
  ∧ ∃ added, calls (render e w) = calls w ++ added ∧ snapshotLeads added.
Proof.
  intros Hopen. unfold guardOpen.
  destruct (render_frame e w) as (_ & _ & _ & Hr). rewrite Hr. clear Hr.
  unfold render. stage_render now w1 w2 w3 w4.
  assert (H1 : calls w1 = calls w ∧ subscription w1 = subscription w
               ∧ hasMarkedAsReadRef (state w1) = hasMarkedAsReadRef (state w))
    by (subst w1; by destruct_if).
  destruct H1 as (Hc1 & Hs1 & Hg1).
  assert (H2 : calls w2 = calls w1 ∧ subscription w2 = subscription w1
               ∧ hasMarkedAsReadRef (state w2)
                 = if depChanged (rendered w) now depChatId then false
                   else hasMarkedAsReadRef (state w1))
    by (subst w2; by destruct_if).
  destruct H2 as (Hc2 & Hs2 & Hg2).
  assert (Hg4 : hasMarkedAsReadRef (state w4) = hasMarkedAsReadRef (state w3)).
  { subst w4. destruct_if; [|done].
    by destruct (markAsReadEffect_frame now w3) as (-> & _). }
  cbn [state calls withRendered]. rewrite Hg4. clear Hg4.
  assert (Hc4 : calls w4
                = calls w3
                  ++ if depChanged (rendered w) now depChatId
                        || depChanged (rendered w) now depCurrentUser
                     then match currentUser (env now) with
                          | Some user =>
                              if bool_decide (chatId (env now) = EmptyString) then []
                              else [MarkMessagesAsRead (chatId (env now)) (uid (val user))]
                          | None => []
                          end
                     else []).
  { subst w4. destruct_if; [apply markAsReadEffect_calls|by rewrite app_nil_r]. }
  rewrite Hc4. clear Hc4. clearbody w4. clear w4.
  assert (H3 : calls w3
               = calls w
                 ++ (if depChanged (rendered w) now depChatId
                        || depChanged (rendered w) now depTranslationEnabled
                        || depChanged (rendered w) now depTargetLanguage
                        || depChanged (rendered w) now depCurrentUser
                        || depChanged (rendered w) now depBlockedUsers
                     then
                       match subscription w with
                       | Some s => [Unsubscribe (subChatId s)]
                       | None => []
                       end
                       ++ match currentUser (env now) with
                          | Some user =>
                              if bool_decide (chatId (env now) = EmptyString) then []
                              else (if hasMarkedAsReadRef (state w2) then []
                                    else [GetUnreadMessages (chatId (env now))
                                            (uid (val user))])
                                   ++ [GetChatMessages (chatId (env now))]
                          | None => []
                          end
                     else [])
               ∧ hasMarkedAsReadRef (state w3)
                 = if depChanged (rendered w) now depChatId
                      || depChanged (rendered w) now depTranslationEnabled
                      || depChanged (rendered w) now depTargetLanguage
                      || depChanged (rendered w) now depCurrentUser
                      || depChanged (rendered w) now depBlockedUsers
                   then
                     match currentUser (env now) with
                     | Some _ =>
                         if bool_decide (chatId (env now) = EmptyString)
                         then hasMarkedAsReadRef (state w2) else true
                     | None => hasMarkedAsReadRef (state w2)
                     end
                   else hasMarkedAsReadRef (state w2)).
  { subst w3. destruct_if.
    - rewrite subscriptionEffect_calls, subscriptionEffect_guard, Hs2, Hs1, Hc2, Hc1. done.
    - by rewrite app_nil_r, Hc2, Hc1. }
  destruct H3 as (-> & ->). rewrite Hg2, Hg1. clear Hg2 Hg1 Hc2 Hc1 Hs2 Hs1.
  clearbody w1 w2 w3. clear w1 w2 w3.
  pose proof (same_user_and_chat w now) as Hsame.
  change (env now) with e in *.
  destruct (depChanged (rendered w) now depChatId) eqn:Hchat;
    destruct (depChanged (rendered w) now depCurrentUser) eqn:Huser;
    cbn [orb]; rewrite ?orb_true_r; cbn [orb].
  1-3: split;
    [ intros Hg d [= <-]; change (env now) with e;
      destruct (currentUser e); [|by left];
      case_bool_decide; [by right|done]
    | eexists; split; [by rewrite <- app_assoc|];
      destruct (subscription w), (currentUser e), (hasMarkedAsReadRef (state w));
      try case_bool_decide; simpl; solve_snapshotLeads ].
  destruct (Hsame eq_refl eq_refl) as (p & Hp & Hpc & Hpu).
  assert (Hclosed : hasMarkedAsReadRef (state w) = false →
                    currentUser e = None ∨ chatId e = EmptyString).
  { intros Hg. destruct (Hopen Hg p Hp) as [?|?]; [left; by apply Hpu|right; congruence]. }
  split.
  - intros Hg d [= <-]. change (env now) with e.
    destruct (currentUser e) as [user|]; [|by left].
    destruct (decide (chatId e = EmptyString)) as [?|Hne]; [by right|].
    rewrite bool_decide_eq_false_2 in Hg by done.
    apply Hclosed. revert Hg. by destruct_if.
  - eexists. split; [by rewrite <- app_assoc|].
    destruct (hasMarkedAsReadRef (state w)) eqn:Hg.
    + destruct_if; destruct (subscription w), (currentUser e); try case_bool_decide;
        simpl; solve_snapshotLeads.
    + destruct (Hclosed eq_refl) as [->| ->].
      * destruct_if; destruct (subscription w); simpl; solve_snapshotLeads.
      * destruct_if; destruct (subscription w), (currentUser e); simpl;
          solve_snapshotLeads.
Qed.

Lemma handler_snapshot w ev :
  (∀ e, ev ≠ Render e) →
  ∃ added, calls (step translateText w ev) = calls w ++ added ∧ snapshotLeads added.
Proof.
  intros Hev. destruct ev; [by destruct (Hev e)|..]; cbn [step]; unfold_handlers;
    repeat case_match; simpl; unfold push; rewrite <- ?app_assoc;
    (eexists; split; [done || by rewrite app_nil_r|]); simpl; solve_snapshotLeads.
Qed.

Lemma step_snapshot w ev :
  guardOpen w ∧ snapshotLeads (calls w) →
  guardOpen (step translateText w ev) ∧ snapshotLeads (calls (step translateText w ev)).
Proof.
  intros [Hopen Hleads].
  assert (Hcase : (∃ e, ev = Render e) ∨ ∀ e, ev ≠ Render e)
    by (destruct ev; eauto).
  destruct Hcase as [[e ->]|Hne]; cbn [step].
  - destruct (render_snapshot e w Hopen) as (? & added & -> & ?).
    split; [done|]. by apply snapshotLeads_app.
  - destruct (handler_snapshot w ev Hne) as (added & -> & ?).
    split; [|by apply snapshotLeads_app].
    destruct (handler_budget translateText w ev Hne) as (Hg & _ & Hr).
    unfold guardOpen. by rewrite Hg, Hr.
Qed.

(** X7: in the log of every run, each request for the unread snapshot is
    followed at once by the subscription to the same chat and by the
    mark-as-read call for the same chat and user: the snapshot is never
    requested after the messages were marked as read. *)
Theorem snapshot_before_mark_as_read events te tl ledger :
  snapshotLeads (calls (run translateText events (initialWorld te tl ledger))).
Proof.
  assert (H : ∀ w, guardOpen w ∧ snapshotLeads (calls w) →
    guardOpen (run translateText events w)
    ∧ snapshotLeads (calls (run translateText events w))).
  { induction events as [|ev events IH]; intros w Hw; [done|].
    simpl. apply IH. by apply step_snapshot. }
  apply H. split; [done|]. intros pre ? ? ? Hnil. by destruct pre.
Qed.

(** *** Saved settings at the opening of a chat *)

(** The subscription and the translation settings after a commit. *)
Lemma render_outcome e w :
  let now := mkDeps e (translationEnabled (state w)) (targetLanguage (state w)) in
  subscription (render e w)
  = (if depChanged (rendered w) now depChatId
        || depChanged (rendered w) now depTranslationEnabled
        || depChanged (rendered w) now depTargetLanguage
        || depChanged (rendered w) now depCurrentUser
        || depChanged (rendered w) now depBlockedUsers
     then subscription (subscriptionEffect now w) else subscription w)
  ∧ (translationEnabled (state (render e w)), targetLanguage (state (render e w)))
    = (if depChanged (rendered w) now depChatId || depChanged (rendered w) now depGetSettings
       then (enabled (val (getSettings e) (chatId e)),
             Types.targetLanguage (val (getSettings e) (chatId e)))
       else (translationEnabled (state w), targetLanguage (state w)))
  ∧ inflight (render e w) = inflight w.
Proof.
  cbn zeta. unfold render. stage_render now w1 w2 w3 w4.
  assert (H1 : subscription w1 = subscription w ∧ inflight w1 = inflight w
               ∧ (translationEnabled (state w1), targetLanguage (state w1))
                 = (if depChanged (rendered w) now depChatId
                       || depChanged (rendered w) now depGetSettings
                    then (enabled (val (getSettings e) (chatId e)),
                          Types.targetLanguage (val (getSettings e) (chatId e)))
                    else (translationEnabled (state w), targetLanguage (state w))))
    by (subst w1; by destruct_if).
  destruct H1 as (Hs1 & Hi1 & Ht1).
  assert (H2 : subscription w2 = subscription w1 ∧ inflight w2 = inflight w1
               ∧ translationEnabled (state w2) = translationEnabled (state w1)
               ∧ targetLanguage (state w2) = targetLanguage (state w1))
    by (subst w2; by destruct_if).
  destruct H2 as (Hs2 & Hi2 & Hte2 & Htl2).
  assert (Hframe3 : inflight (subscriptionEffect now w2) = inflight w2
                    ∧ translationEnabled (state (subscriptionEffect now w2))
                      = translationEnabled (state w2)
                    ∧ targetLanguage (state (subscriptionEffect now w2))
                      = targetLanguage (state w2)).
  { unfold subscriptionEffect.
    destruct (subscription w2), (currentUser (env now)); try case_bool_decide;
      try done; by destruct (hasMarkedAsReadRef _). }
  assert (H3 : inflight w3 = inflight w2
               ∧ translationEnabled (state w3) = translationEnabled (state w2)
               ∧ targetLanguage (state w3) = targetLanguage (state w2)).
  { subst w3. by destruct_if. }
  destruct H3 as (Hi3 & Hte3 & Htl3).
  assert (H4 : subscription w4 = subscription w3 ∧ inflight w4 = inflight w3
               ∧ state w4 = state w3).
  { subst w4. destruct_if; [|done]. unfold markAsReadEffect.
    destruct (currentUser (env now)); try case_bool_decide; done. }
  destruct H4 as (Hs4 & Hi4 & Hst4).
  cbn [subscription state inflight withRendered].
  rewrite Hs4, Hi4, Hst4, Hi3, Hte3, Htl3, Hi2, Hte2, Htl2, Hi1, Ht1.
  split; [|done]. subst w3. destruct_if.
  - by rewrite !subscriptionEffect_result.
  - by rewrite Hs2, Hs1.
Qed.

(** X8: at the opening of a chat the saved settings of the chat replace
    the translation flag and language of the component, but the
    subscription of that commit still translates as the component did
    before; the commit that follows subscribes with the saved settings. *)
Theorem saved_settings_after_second_commit w e user :
  (∀ d, rendered w = Some d → chatId (env d) ≠ chatId e) →
  currentUser e = Some user → chatId e ≠ EmptyString →
  let saved := val (getSettings e) (chatId e) in
  let w1 := render e w in
  let w2 := render e w1 in
  translationEnabled (state w1) = enabled saved
  ∧ targetLanguage (state w1) = Types.targetLanguage saved
  ∧ subscription w1
    = Some (mkSubscription (chatId e) (val (blockedUsers e))
              (translationEnabled (state w)) (targetLanguage (state w)) (val user))
  ∧ subscription w2
    = Some (mkSubscription (chatId e) (val (blockedUsers e))
              (enabled saved) (Types.targetLanguage saved) (val user))
  ∧ translationEnabled (state w2) = enabled saved
  ∧ targetLanguage (state w2) = Types.targetLanguage saved.
Proof.
  intros Hopen Hu Hc. cbn zeta.
  assert (Hchat : depChanged (rendered w)
                    (mkDeps e (translationEnabled (state w)) (targetLanguage (state w)))
                    depChatId = true).
  { unfold depChanged. destruct (rendered w) as [d|] eqn:Hd; [|done].
    apply negb_true_iff, bool_decide_eq_false. apply (Hopen d eq_refl). }
  destruct (render_outcome e w) as (Hs1 & Ht1 & _).
  rewrite Hchat in Hs1, Ht1. cbn [orb] in Hs1, Ht1.
  rewrite (subscriptionEffect_subscribes _ w user) in Hs1 by done.
  cbn [env depTranslationEnabled depTargetLanguage] in Hs1.
  pose proof (f_equal fst Ht1) as Hte1. pose proof (f_equal snd Ht1) as Htl1.
  cbn [fst snd] in Hte1, Htl1. clear Ht1.
  destruct (render_outcome e (render e w)) as (Hs2 & Ht2 & _).
  destruct (render_frame e w) as (_ & _ & _ & Hr1).
  rewrite Hr1 in Hs2, Ht2.
  assert (Hsame : ∀ A `{EqDecision A} (dep : Deps → A) d,
            dep d = dep (mkDeps e (translationEnabled (state w)) (targetLanguage (state w))) →
            depChanged (Some (mkDeps e (translationEnabled (state w))
                                (targetLanguage (state w)))) d dep = false).
  { intros A ? dep d Hdep. unfold depChanged.
    by rewrite bool_decide_eq_true_2. }
  rewrite !(Hsame _ _ depChatId), !(Hsame _ _ depCurrentUser),
    !(Hsame _ _ depBlockedUsers) in Hs2 by done.
  rewrite !(Hsame _ _ depChatId), !(Hsame _ _ depGetSettings) in Ht2 by done.
  cbn [orb] in Hs2, Ht2.
  pose proof (f_equal fst Ht2) as Hte2. pose proof (f_equal snd Ht2) as Htl2.
  cbn [fst snd] in Hte2, Htl2. clear Ht2.
  rewrite Hte1, Htl1 in *.
  split; [done|]. split; [done|]. split; [done|]. split; [|done].
  rewrite Hs2, Hs1.
  rewrite (subscriptionEffect_subscribes _ (render e w) user) by done.
  cbn [env depTranslationEnabled depTargetLanguage].
  unfold depChanged, depTranslationEnabled, depTargetLanguage.
  repeat case_bool_decide; simpl; congruence.
Qed.

(** *** Batches awaiting their translations *)

Lemma step_inflight w ev i batch :
  leavesInflight ev = true →
  inflight w !! i = Some batch → inflight (step translateText w ev) !! i = Some batch.
Proof.
  intros Hev Hi. destruct ev; try done; cbn [step].
  - by destruct (render_outcome e w) as (_ & _ & ->).
  - unfold deliver. repeat case_match; try done.
    simpl. unfold push. by apply lookup_app_l_Some.
  - unfold handleToggleTranslation. by repeat case_match.
  - unfold handleSaveTranslationSettings. by repeat case_match.
  - unfold handleLanguageChange. by repeat case_match.
  - unfold handleDeleteLocalMessage. by repeat case_match.
  - unfold handleDeleteMessageForEveryone. destruct (rendered w); [|done].
    simpl. unfold push. by apply lookup_app_l_Some.
Qed.

(** X9: a batch whose translations are awaited is published when they
    settle, as it was computed at its delivery: whatever commits, handlers
    and deliveries happened in between (a local deletion, the opening of
    another chat), the messages in view are then those of the batch. *)
Theorem awaited_batch_published w i batch events :
  inflight w !! i = Some (Resolved batch) →
  forallb leavesInflight events = true →
  messages (state (run translateText (events ++ [TranslationsSettled i]) w)) = batch.
Proof.
  intros Hi Hev. rewrite run_app.
  assert (H : inflight (run translateText events w) !! i = Some (Resolved batch)).
  { revert w Hi. induction events as [|ev events IH]; intros w Hi; [done|].
    simpl in Hev. apply andb_true_iff in Hev as [Hev Hevs].
    simpl. apply IH; [done|]. by apply step_inflight. }
  simpl. unfold settle. by rewrite H.
Qed.

(** *** Local deletions *)

(** X10: hiding messages on this device calls no service, and the view
    and the ledger it leaves do not depend on the order or on repetition:
    hiding a message twice is hiding it once, and two messages can be
    hidden in either order. *)
Theorem local_deletion_order w a b :
  calls (handleDeleteLocalMessage a w) = calls w
  ∧ handleDeleteLocalMessage a (handleDeleteLocalMessage a w)
    = handleDeleteLocalMessage a w
  ∧ handleDeleteLocalMessage a (handleDeleteLocalMessage b w)
    = handleDeleteLocalMessage b (handleDeleteLocalMessage a w).
Proof.
  unfold handleDeleteLocalMessage.
  destruct (rendered w) as [d|] eqn:Hd; simpl; rewrite ?Hd; [|done]. simpl.
  split; [done|].
  unfold withState, withDeletedMessages, setMessages. simpl.
  split; f_equal.
  - f_equal. rewrite list_filter_filter. apply list_filter_iff. tauto.
  - unfold addLocalDeletedMessage, getDeletedMessagesForChat.
    rewrite lookup_insert_eq, insert_insert_eq. simpl.
    by rewrite (assoc_L (∪)), (idemp_L (∪)).
  - f_equal. rewrite !list_filter_filter. apply list_filter_iff. tauto.
  - unfold addLocalDeletedMessage, getDeletedMessagesForChat.
    rewrite !lookup_insert_eq, !insert_insert_eq. simpl.
    by rewrite !(assoc_L (∪)), (comm_L (∪) {[a]} {[b]}).
Qed.

(** *** From a delivery to the display *)

(** X11: once the batch of a delivery is published (at once without
    translation, when its translations have settled with it), the display
    holds, in order, exactly the delivered messages that are neither
    hidden on this device nor sent by a blocked user, each as delivered or
    with a translation attached, and as delivered without translation. *)
Theorem delivered_display w s fetchedMessages batch :
  subscription w = Some s →
  callback translateText s (deletedMessages w) fetchedMessages = Resolved batch →
  let filtered :=
    filter (λ msg, ¬ (id msg ∈ getDeletedMessagesForChat (deletedMessages w) (subChatId s))
                   ∧ ¬ (senderId msg ∈ subBlockedUsers s)) fetchedMessages in
  ∃ out,
    display LocalTZA
      (run translateText
         [MessagesDelivered fetchedMessages; TranslationsSettled (length (inflight w))] w)
    = Some out
    ∧ Forall2 (λ msg shown,
                 shown = msg ∨ ∃ translated, shown = withTranslatedText msg translated)
        filtered (messagesOf out)
    ∧ (subTranslationEnabled s = false → messagesOf out = filtered).
Proof.
  intros Hs Hbatch filtered.
  assert (Hview : messages (state (run translateText
                    [MessagesDelivered fetchedMessages;
                     TranslationsSettled (length (inflight w))] w)) = batch).
  { simpl. unfold deliver. rewrite Hs, Hbatch.
    destruct (subTranslationEnabled s); unfold settle; simpl.
    - unfold push. by rewrite list_lookup_middle.
    - by rewrite lookup_ge_None_2. }
  unfold display. rewrite Hview, getMessagesWithDateSeparators_grouped.
  eexists. split; [done|]. rewrite messagesOf_grouped.
  split; [by eapply onMessages_resolved|].
  intros Hte. unfold callback in Hbatch. rewrite Hte, onMessages_untranslated in Hbatch.
  by injection Hbatch as <-.
Qed.

End SubscriberMore.

(** ** The deletion ledger along a run *)

Section LedgerFacts.
Import JS Types DeletionService ChatWindow Display Trace.

Variable translateText : string → string → Promise string.

Lemma onMessages_ledger_ext deleted1 deleted2 blocked te lang user fetched :
  (∀ msg, msg ∈ fetched → id msg ∈ deleted1 ↔ id msg ∈ deleted2) →
  onMessages translateText deleted1 blocked te lang user fetched
  = onMessages translateText deleted2 blocked te lang user fetched.
Proof.
  intros H. unfold onMessages.
  assert (Hf : filter (λ msg, ¬ (id msg ∈ deleted1) ∧ ¬ (senderId msg ∈ blocked)) fetched
               = filter (λ msg, ¬ (id msg ∈ deleted2) ∧ ¬ (senderId msg ∈ blocked)) fetched).
  { induction fetched as [|msg l IH]; [done|].
    assert (Hmsg : id msg ∈ deleted1 ↔ id msg ∈ deleted2) by (apply H; by left).
    assert (Hl : filter (λ msg, ¬ (id msg ∈ deleted1) ∧ ¬ (senderId msg ∈ blocked)) l
                 = filter (λ msg, ¬ (id msg ∈ deleted2) ∧ ¬ (senderId msg ∈ blocked)) l)
      by (apply IH; intros msg' Hin; apply H; by right).
    destruct (decide (¬ (id msg ∈ deleted1) ∧ ¬ (senderId msg ∈ blocked))) as [Hp|Hp].
    - rewrite !filter_cons_True by tauto. by rewrite Hl.
    - rewrite !filter_cons_False by tauto. done. }
  by rewrite Hf.
Qed.

(** The ledger only grows. *)
Lemma step_ledger_mono c messageId w ev :
  messageId ∈ getDeletedMessagesForChat (deletedMessages w) c →
  messageId ∈ getDeletedMessagesForChat (deletedMessages (step translateText w ev)) c.
Proof.
  intros H.
  destruct ev as [e|unreadMsgs| |fetched|i| |en lang updated|lang|mid|mid deleted];
    cbn [step]; try done.
  - by destruct (render_frame e w) as (_ & _ & -> & _).
  - unfold deliver. by repeat case_match.
  - unfold settle. by repeat case_match.
  - unfold handleToggleTranslation. by repeat case_match.
  - unfold handleSaveTranslationSettings. by repeat case_match.
  - unfold handleLanguageChange. by repeat case_match.
  - unfold handleDeleteLocalMessage. destruct (rendered w); [|done].
    simpl. by apply (getDeleted_add_mono translateText).
  - unfold handleDeleteMessageForEveryone. by destruct (rendered w).
Qed.

Lemma run_ledger_mono c messageId events : ∀ w,
  messageId ∈ getDeletedMessagesForChat (deletedMessages w) c →
  messageId ∈ getDeletedMessagesForChat (deletedMessages (run translateText events w)) c.
Proof.
  induction events as [|ev events IH]; intros w H; [done|].
  simpl. apply IH. by apply step_ledger_mono.
Qed.

(** A published message has the id of a delivered one. *)
Lemma onMessages_ids deleted blocked te lang user fetched batch out :
  onMessages translateText deleted blocked te lang user fetched = Resolved batch →
  out ∈ batch → ∃ msg, msg ∈ fetched ∧ id out = id msg.
Proof.
  intros H Hin. apply onMessages_resolved in H.
  apply list_elem_of_lookup in Hin as [i Hi].
  destruct (Forall2_lookup_r _ _ _ _ _ H Hi) as (msg & Hmsg & Hout).
  apply list_elem_of_lookup_2, list_elem_of_filter in Hmsg as [_ Hmsg].
  exists msg. split; [done|]. by destruct Hout as [-> | [translated ->]].
Qed.

(** With the message in the ledger of chat [c], what is out of sight
    stays out of sight, unless a delivery for another chat brings the
    id. *)
Lemma step_outOfSight c messageId w ev :
  cleanDelivery c messageId w ev →
  messageId ∈ getDeletedMessagesForChat (deletedMessages w) c →
  outOfSight messageId w →
  outOfSight messageId (step translateText w ev).
Proof.
  intros Hev Hl [Hview Hwait].
  assert (Hkeep : ∀ w',
    messages (state w') = messages (state w) → inflight w' = inflight w →
    outOfSight messageId w').
  { intros w' Hm Hi. unfold outOfSight. by rewrite Hm, Hi. }
  destruct ev as [e|unreadMsgs| |fetched|i| |en lang updated|lang|mid|mid deleted];
    cbn [step]; try (by apply Hkeep).
  - destruct (render_frame e w) as (Hm & _). destruct (render_outcome e w) as (_ & _ & Hi).
    by apply Hkeep.
  - unfold deliver. destruct (subscription w) as [s|] eqn:Hs; [|by apply Hkeep].
    assert (Hbatch : ∀ l, callback translateText s (deletedMessages w) fetched = Resolved l →
                          ∀ m, m ∈ l → id m ≠ messageId).
    { intros l Hb m Hin Heq. unfold callback in Hb.
      destruct (decide (subChatId s = c)) as [Hc|Hc].
      - apply (onMessages_excludes _ _ _ _ _ _ _ _ _ Hb) in Hin as [Hin _].
        apply Hin. by rewrite Hc, Heq.
      - destruct (onMessages_ids _ _ _ _ _ _ _ _ Hb Hin) as (msg & Hmsg & Hid).
        apply (Hev s Hs Hc msg Hmsg). congruence. }
    destruct (subTranslationEnabled s).
    + split; [done|]. simpl. unfold push. intros l Hin.
      apply elem_of_app in Hin as [Hin|Hin]; [by apply Hwait|].
      apply list_elem_of_singleton in Hin. by apply Hbatch.
    + destruct (callback _ _ _ _) as [l|] eqn:Hb; [|by apply Hkeep].
      split; [by apply Hbatch|done].
  - unfold settle. destruct (inflight w !! i) as [batch|] eqn:Hi; [|by apply Hkeep].
    assert (Hrest : ∀ l, Resolved l ∈ delete i (inflight w) →
                         ∀ m, m ∈ l → id m ≠ messageId).
    { intros l Hin. apply Hwait. by eapply list_elem_of_delete_inv. }
    destruct batch as [l|]; split; simpl; try done.
    apply Hwait. by eapply list_elem_of_lookup_2.
  - unfold handleToggleTranslation. repeat case_match; by apply Hkeep.
  - unfold handleSaveTranslationSettings. repeat case_match; by apply Hkeep.
  - unfold handleLanguageChange. repeat case_match; by apply Hkeep.
  - unfold handleDeleteLocalMessage. destruct (rendered w); [|by apply Hkeep].
    split; [|done]. simpl. intros m Hin.
    apply list_elem_of_filter in Hin as [_ Hin]. by apply Hview.
  - unfold handleDeleteMessageForEveryone. destruct (rendered w); [|by apply Hkeep].
    split; [done|]. simpl. unfold push. intros l Hin.
    apply elem_of_app in Hin as [Hin|Hin]; [by apply Hwait|].
    apply list_elem_of_singleton in Hin. destruct deleted; [|done].
    simpl in Hin. injection Hin as ->. intros m Hm.
    apply list_elem_of_filter in Hm as [_ Hm]. by apply Hview.
Qed.

Lemma run_outOfSight c messageId events : ∀ w,
  (∀ pre ev post,
     events = pre ++ ev :: post → cleanDelivery c messageId (run translateText pre w) ev) →
  messageId ∈ getDeletedMessagesForChat (deletedMessages w) c →
  outOfSight messageId w →
  outOfSight messageId (run translateText events w).
Proof.
  induction events as [|ev events IH]; intros w Hev Hl Ho; [done|].
  simpl. apply IH.
  - intros pre ev' post ->. apply (Hev (ev :: pre) ev' post). done.
  - by apply step_ledger_mono.
  - apply (step_outOfSight c); [|done..]. by apply (Hev [] ev events).
Qed.

Lemma cleanDelivery_nil c messageId w pre ev post :
  [] = pre ++ ev :: post → cleanDelivery c messageId (run translateText pre w) ev.
Proof. intros H. by destruct pre. Qed.

Lemma cleanDelivery_cons c messageId w ev0 events :
  cleanDelivery c messageId w ev0 →
  (∀ pre ev post,
     events = pre ++ ev :: post →
     cleanDelivery c messageId (run translateText pre (step translateText w ev0)) ev) →
  ∀ pre ev post,
    ev0 :: events = pre ++ ev :: post → cleanDelivery c messageId (run translateText pre w) ev.
Proof.
  intros H0 H pre ev post Heq. destruct pre as [|ev1 pre].
  - by injection Heq as <- _.
  - injection Heq as <- Heq. by apply (H pre ev post).
Qed.

(** While the window stays on chat [c], every delivery is for [c]. *)
Lemma staysInChat_cleanDelivery c messageId events : ∀ w,
  hiddenIn c messageId w →
  forallb (staysInChat c) events = true →
  ∀ pre ev post,
    events = pre ++ ev :: post → cleanDelivery c messageId (run translateText pre w) ev.
Proof.
  intros w Hh Hev pre ev post ->.
  rewrite forallb_app in Hev. apply andb_true_iff in Hev as [Hpre _].
  destruct (run_hiddenIn translateText c messageId pre w Hpre Hh) as (_ & Hsub & _).
  destruct ev; try done. simpl. intros s Hs Hc. by destruct (Hc (Hsub s Hs)).
Qed.


End LedgerFacts.

Section ComposerFacts.
Import JS Types DeletionService ChatWindow Display Composer.

Variable trim : string → string.
Variable validateMediaFile : File → MediaValidation.
Variable getMediaType : File → string.
Variable translateText : string → string → Promise string.

Abbreviation step := (Composer.step trim validateMediaFile getMediaType translateText).
Abbreviation run := (Composer.run trim validateMediaFile getMediaType translateText).
Abbreviation cleared := (Composer.cleared trim validateMediaFile getMediaType).
Abbreviation wellSequenced := (Composer.wellSequenced trim validateMediaFile getMediaType).
Abbreviation pendingCleared := (Composer.pendingCleared trim validateMediaFile).

Ltac destruct_if :=
  match goal with
  | |- context [if ?c then _ else _] => destruct c eqn:?
  end.

Ltac name_stage f w' :=
  match goal with
  | |- context [if ?c then f ?x else ?y] => set (w' := if c then f x else y) in *
  end.

Ltac stage_render now w1 w2 w3 w4 :=
  match goal with
  | |- context [settingsEffect ?n _] => set (now := n) in *
  end;
  name_stage (settingsEffect now) w1; name_stage resetGuardEffect w2;
  name_stage (subscriptionEffect now) w3; name_stage (markAsReadEffect now) w4.

Lemma run_snoc events ev k : run (events ++ [ev]) k = step (run events k) ev.
Proof. unfold Composer.run. by rewrite foldl_app. Qed.

(** *** What the window leaves to the sending handlers *)

Lemma render_keeps_composer e w :
  uploading (state (render e w)) = uploading (state w)
  ∧ replyingTo (state (render e w)) = replyingTo (state w).
Proof.
  unfold render. stage_render now w1 w2 w3 w4.
  assert (H1 : uploading (state w1) = uploading (state w)
               ∧ replyingTo (state w1) = replyingTo (state w))
    by (subst w1; by destruct_if).
  assert (H2 : uploading (state w2) = uploading (state w1)
               ∧ replyingTo (state w2) = replyingTo (state w1))
    by (subst w2; by destruct_if).
  assert (H3 : uploading (state w3) = uploading (state w2)
               ∧ replyingTo (state w3) = replyingTo (state w2)).
  { subst w3. destruct_if; [|done]. unfold subscriptionEffect.
    destruct (subscription w2), (currentUser (env now)); try case_bool_decide;
      try done; by destruct (hasMarkedAsReadRef _). }
  assert (H4 : state w4 = state w3).
  { subst w4. destruct_if; [|done]. apply markAsReadEffect_frame. }
  cbn [state withRendered]. rewrite H4.
  destruct H3 as [-> ->], H2 as [-> ->], H1 as [-> ->]. done.
Qed.

Lemma window_keeps_composer w ev :
  uploading (state (ChatWindow.step translateText w ev)) = uploading (state w)
  ∧ replyingTo (state (ChatWindow.step translateText w ev)) = replyingTo (state w).
Proof.
  destruct ev; cbn [ChatWindow.step]; [apply render_keeps_composer|..];
    unfold handleToggleTranslation, handleSaveTranslationSettings, handleLanguageChange,
      handleDeleteLocalMessage, handleDeleteMessageForEveryone, deliver, settle;
    repeat case_match; done.
Qed.

(** *** The order of the calls *)

Lemma wellSequenced_push log c :
  wellSequenced log → cleared log c → wellSequenced (push log c).
Proof.
  intros Hlog Hc pre x post H. unfold push in H.
  destruct post as [|y post _] using rev_ind.
  - apply (app_inj_tail log pre c x) in H as [-> ->]. done.
  - rewrite app_comm_cons, app_assoc in H.
    apply app_inj_tail in H as [-> _]. by apply (Hlog pre x post).
Qed.

Lemma pendingCleared_push log c p :
  pendingCleared log p → pendingCleared (push log c) p.
Proof.
  unfold push. destruct p; simpl; rewrite ?elem_of_app; tauto.
Qed.

Lemma Forall_pendingCleared_push log c l :
  Forall (pendingCleared log) l → Forall (pendingCleared (push log c)) l.
Proof.
  intros H. eapply Forall_impl; [exact H|]. intros p. apply pendingCleared_push.
Qed.

Abbreviation sequenced := (Composer.sequenced trim validateMediaFile getMediaType).

Lemma step_sequenced k ev : sequenced k → sequenced (step k ev).
Proof.
  intros [Hlog Hpend].
  destruct ev as [ev|text|file|i validation|i upload|i sent|messageId|];
    cbn [Composer.step].
  - done.
  - unfold handleSendMessage. repeat case_match; try done.
    split; simpl.
    + by apply wellSequenced_push.
    + apply Forall_app. split; [by apply Forall_pendingCleared_push|].
      apply Forall_singleton. simpl. split.
      * intros Ht. match goal with H : negb (truthy _) = false |- _ => rename H into Hb end.
        simpl in Hb. rewrite Ht in Hb. done.
      * unfold push. set_solver.
  - unfold handleSendMedia. repeat case_match; try done.
    + split; simpl; [by apply wellSequenced_push|by apply Forall_pendingCleared_push].
    + split; simpl.
      * by apply wellSequenced_push.
      * apply Forall_app. split; [by apply Forall_pendingCleared_push|].
        apply Forall_singleton. simpl. split.
        -- match goal with H : negb (valid _) = false |- _ => rename H into Hb end.
           by apply negb_false_iff in Hb.
        -- unfold push. set_solver.
  - unfold validationSettled.
    destruct (pending k !! i) as [p|] eqn:Hi; [|done].
    pose proof (Forall_lookup_1 _ _ _ _ Hpend Hi) as Hp.
    destruct p; try done; destruct validation as [v|]; try destruct (allowed v);
      simpl negb; cbv iota; split; simpl; try done;
      try (by apply wellSequenced_push);
      try (by apply Forall_delete);
      try (by apply Forall_delete, Forall_pendingCleared_push).
    + apply wellSequenced_push; [done|]. simpl. destruct Hp as [Hne Hin].
      split; [done|]. left. eauto.
    + apply Forall_insert; [by apply Forall_pendingCleared_push|done].
    + apply wellSequenced_push; [done|]. simpl. destruct Hp as [Hv Hin]. eauto.
    + apply Forall_insert; [by apply Forall_pendingCleared_push|].
      simpl. destruct Hp as [Hv Hin]. unfold push. set_solver.
  - unfold uploadSettled.
    destruct (pending k !! i) as [p|] eqn:Hi; [|done].
    pose proof (Forall_lookup_1 _ _ _ _ Hpend Hi) as Hp.
    destruct p; try done; destruct upload as [url|]; split; simpl; try done;
      try (by apply wellSequenced_push);
      try (by apply Forall_delete, Forall_pendingCleared_push).
    + apply wellSequenced_push; [done|]. simpl. destruct Hp as [Hc Hu].
      split; [done|]. right. split; [done|]. eauto 10.
    + apply Forall_insert; [by apply Forall_pendingCleared_push|done].
  - unfold sendSettled.
    destruct (pending k !! i) as [p|] eqn:Hi; [|done].
    destruct p; try done; destruct sent; split; simpl;
      try done; try (by apply wellSequenced_push);
      try (by apply Forall_delete); by apply Forall_delete, Forall_pendingCleared_push.
  - unfold handleReplyToMessage. by case_match.
  - unfold cancelReply. by case_match.
Qed.

Lemma run_sequenced events : ∀ k, sequenced k → sequenced (run events k).
Proof.
  induction events as [|ev events IH]; intros k Hk; [done|].
  simpl. apply IH. by apply step_sequenced.
Qed.

(** An event makes at most one call, and a call to [sendMessage] only as
    [sentAt] says. *)
Lemma step_outbox k ev :
  sequenced k →
  outbox (step k ev) = outbox k
  ∨ ∃ c, outbox (step k ev) = outbox k ++ [c]
         ∧ (isSend c = true → sentAt getMediaType k ev c).
Proof.
  intros [_ Hpend].
  destruct ev as [ev|text|file|i validation|i upload|i sent|messageId|];
    cbn [Composer.step].
  - by left.
  - unfold handleSendMessage. repeat case_match; try (by left).
    right. eexists. split; [reflexivity|done].
  - unfold handleSendMedia. repeat case_match; try (by left);
      right; eexists; (split; [reflexivity|done]).
  - unfold validationSettled.
    destruct (pending k !! i) as [p|] eqn:Hi; [|by left].
    destruct p as [cl text| |cl file|cl file|]; try (by left);
      destruct validation as [v|]; try (by left);
      destruct (allowed v) eqn:Hv; simpl negb; cbv iota;
      right; eexists; (split; [reflexivity|]); try done.
    intros _. split; [done|]. by exists cl, text.
  - unfold uploadSettled.
    destruct (pending k !! i) as [p|] eqn:Hi; [|by left].
    destruct p as [cl text| |cl file|cl file|]; try (by left).
    destruct upload as [url|]; right; eexists; (split; [reflexivity|]); [|done].
    intros _. exists cl, file. split; [done|]. split; [|done].
    by destruct (Forall_lookup_1 _ _ _ _ Hpend Hi) as [_ Hup].
  - unfold sendSettled.
    destruct (pending k !! i) as [p|] eqn:Hi; [|by left].
    destruct p; try (by left); destruct sent; try (by left).
    right. eexists. split; [reflexivity|done].
  - unfold handleReplyToMessage. case_match; by left.
  - unfold cancelReply. case_match; by left.
Qed.


(** *** The upload flag *)

Lemma existsb_isUploading_delete l i p :
  l !! i = Some p → isUploading p = false →
  existsb isUploading (delete i l) = existsb isUploading l.
Proof.
  revert i. induction l as [|x l IH]; intros [|i] Hi Hp; simplify_eq/=; [by rewrite Hp|].
  by rewrite (IH i).
Qed.

Lemma existsb_isUploading_insert l i p q :
  l !! i = Some p →
  existsb isUploading (<[i := q]> l)
  = if isUploading q then true
    else if isUploading p then existsb isUploading (delete i l)
    else existsb isUploading l.
Proof.
  revert i. induction l as [|x l IH]; intros [|i] Hi; simplify_eq/=.
  - by destruct (isUploading q), (isUploading p).
  - rewrite (IH i) by done.
    destruct (isUploading q), (isUploading p), (isUploading x); simpl; try done.
Qed.

Lemma existsb_isUploading_push l p :
  existsb isUploading (push l p) = existsb isUploading l || isUploading p.
Proof. unfold push. rewrite existsb_app. simpl. by rewrite orb_false_r. Qed.

Lemma step_uploading k ev :
  (uploading (state (world k)) = true → existsb isUploading (pending k) = true) →
  uploading (state (world (step k ev))) = true →
  existsb isUploading (pending (step k ev)) = true.
Proof.
  intros Hk.
  destruct ev as [ev|text|file|i validation|i upload|i sent|messageId|];
    cbn [Composer.step].
  - simpl. by destruct (window_keeps_composer (world k) ev) as [-> _].
  - unfold handleSendMessage. repeat case_match; try done.
    simpl. rewrite existsb_isUploading_push. intros Hup. by rewrite Hk.
  - unfold handleSendMedia. repeat case_match; try done.
    simpl. rewrite existsb_isUploading_push. intros Hup. by rewrite Hk.
  - unfold validationSettled.
    destruct (pending k !! i) as [p|] eqn:Hi; [|done].
    destruct p; try done; destruct validation as [v|]; try destruct (allowed v);
      simpl negb; cbv iota; simpl;
      rewrite ?(existsb_isUploading_delete _ _ _ Hi), ?(existsb_isUploading_insert _ _ _ _ Hi);
      done.
  - unfold uploadSettled.
    destruct (pending k !! i) as [p|] eqn:Hi; [|done].
    destruct p; try done; destruct upload as [url|]; simpl; [|done].
    by rewrite (existsb_isUploading_insert _ _ _ _ Hi).
  - unfold sendSettled.
    destruct (pending k !! i) as [p|] eqn:Hi; [|done].
    destruct p; try done; destruct sent; simpl; try done;
      by rewrite (existsb_isUploading_delete _ _ _ Hi).
  - unfold handleReplyToMessage. by case_match.
  - unfold cancelReply. by case_match.
Qed.

(** X13: the input is never left disabled: in every run, when no media
    handler is between its [setUploading(true)] and its [finally], the
    upload flag is off, however the uploads and sends before ended. *)
Theorem input_enabled_when_idle events te tl ledger :
  let k := run events (initialDesk te tl ledger) in
  existsb isUploading (pending k) = false → uploading (state (world k)) = false.
Proof.
  assert (H : ∀ k,
    (uploading (state (world k)) = true → existsb isUploading (pending k) = true) →
    uploading (state (world (run events k))) = true →
    existsb isUploading (pending (run events k)) = true).
  { induction events as [|ev events IH]; intros k Hk; [done|].
    simpl. apply IH. by apply step_uploading. }
  cbn zeta. intros Hidle.
  destruct (uploading (state (world (run events (initialDesk te tl ledger))))) eqn:Hup;
    [|done].
  apply H in Hup; [congruence|done].
Qed.

(** *** The message replied to *)

(** X14: replying to a message picks the first message in view with that
    id, and nothing when there is none; and nothing the window does
    afterwards (a commit on another chat, a delivery without the message,
    its deletion) changes the message replied to. *)
Theorem reply_target_kept k messageId (events : list ChatWindow.Event) :
  replyingTo (state (world (run (ReplyTo messageId :: (Window <$> events)) k)))
  = match List.find (λ msg, bool_decide (id msg = messageId)) (messages (state (world k)))
    with
    | Some message => Some message
    | None => replyingTo (state (world k))
    end.
Proof.
  assert (H : ∀ k, replyingTo (state (world (run (Window <$> events) k)))
                   = replyingTo (state (world k))).
  { induction events as [|ev events IH]; intros k'; [done|].
    simpl. rewrite IH. simpl. apply window_keeps_composer. }
  simpl. rewrite H. unfold handleReplyToMessage. by case_match.
Qed.

(** *** What a send closed over *)

Lemma step_pending k ev i p :
  settlesNothing ev = true →
  pending k !! i = Some p → pending (step k ev) !! i = Some p.
Proof.
  intros Hev Hi.
  destruct ev as [ev|text|file|? ?|? ?|? ?|messageId|]; try done; cbn [Composer.step].
  - unfold handleSendMessage. repeat case_match; try done.
    simpl. unfold push. by apply lookup_app_l_Some.
  - unfold handleSendMedia. repeat case_match; try done.
    simpl. unfold push. by apply lookup_app_l_Some.
  - unfold handleReplyToMessage. by case_match.
  - unfold cancelReply. by case_match.
Qed.

(** X15: the message sent is the one of the click: the text as typed, for
    the chat, the users and the message replied to of the moment the user
    pressed send, whatever was rendered, replied to or cancelled while
    [canSendMessage] was awaited. *)
Theorem send_closes_over_click k d user text events v :
  rendered (world k) = Some d → currentUser (env d) = Some user →
  trim text ≠ EmptyString → forallb settlesNothing events = true → allowed v = true →
  let c :=
    mkClosure (val user) (otherUser (env d)) (chatId (env d))
      (replyingTo (state (world k))) in
  outbox (run (SendText text :: events
               ++ [ValidationSettled (length (pending k)) (Resolved v)]) k)
  = outbox (run (SendText text :: events) k) ++ [sendText c text].
Proof.
  intros Hd Hu Ht Hev Hv c.
  change (SendText text :: events ++ [ValidationSettled (length (pending k)) (Resolved v)])
    with ((SendText text :: events)
          ++ [ValidationSettled (length (pending k)) (Resolved v)]).
  rewrite run_snoc.
  assert (H : pending (run (SendText text :: events) k) !! length (pending k)
              = Some (ValidatingText c text)).
  { simpl.
    assert (H0 : pending (handleSendMessage trim text k) !! length (pending k)
                 = Some (ValidatingText c text)).
    { unfold handleSendMessage. rewrite Hd, Hu. simpl.
      rewrite (bool_decide_eq_false_2 _ Ht). simpl. unfold push.
      by rewrite list_lookup_middle. }
    revert H0. generalize (handleSendMessage trim text k).
    induction events as [|ev events IH]; intros k' Hk'; [done|].
    simpl in Hev. apply andb_true_iff in Hev as [Hev Hevs].
    simpl. apply IH; [done|]. by apply step_pending. }
  cbn [Composer.step]. unfold validationSettled. rewrite H, Hv. done.
Qed.

End ComposerFacts.

Section ChatListFacts.
Import JS Types ChatList ChatListView.

Variable getUser : string → Promise (option User).
Variable hasChatMessages : string → Promise bool.
Variable getUnreadCount : string → string → Promise Z.

(** *** The published list *)

Lemma enrichChat_listable currentUser c r :
  enrichChat getUser hasChatMessages getUnreadCount currentUser c = Resolved r →
  match r with
  | Some x => chat x = c ∧ listable getUser hasChatMessages currentUser c = true
  | None => listable getUser hasChatMessages currentUser c = false
  end.
Proof.
  unfold enrichChat, listable.
  destruct (deletedAt c); [by intros [= <-]|].
  destruct (List.find _ (participants c)) as [o|] eqn:Hfind; [|by intros [= <-]]. simpl.
  case_bool_decide as Ho; [by intros [= <-]|]. simpl.
  destruct (getUser o) as [[u|]|] eqn:Hu; simpl; [|by intros [= <-]|done].
  destruct (hasChatMessages (id c)) as [[|]|] eqn:Hh; simpl; [|by intros [= <-]|done].
  destruct (getUnreadCount (id c) (uid currentUser)) as [n|] eqn:Hn; simpl; [|done].
  by intros [= <-].
Qed.

(** X16: the list published for a snapshot of the user's chats holds the
    chats of the snapshot that pass the checks of the aggregator, all of
    them, in the order of the snapshot and as often as they occur in it. *)
Theorem published_list_exact currentUser fetchedChats listed :
  onChats getUser hasChatMessages getUnreadCount currentUser fetchedChats = Resolved listed →
  chat <$> listed
  = filter (λ c, listable getUser hasChatMessages currentUser c = true) fetchedChats.
Proof.
  unfold onChats.
  destruct (all_map _ fetchedChats) as [rs|] eqn:Hall; simpl; [|done].
  intros [= <-]. apply all_map_resolved in Hall.
  induction Hall as [|c r cs rs Hc _ IH]; [done|].
  apply enrichChat_listable in Hc. destruct r as [x|]; simpl.
  - destruct Hc as [<- Hl]. rewrite filter_cons_True by done. f_equal. exact IH.
  - rewrite filter_cons_False by congruence. done.
Qed.

(** X17: a listed chat shows the badge of its unread count exactly when
    the count is positive, with [99+] above 99; a count of zero is shown
    as a bare 0. *)
Theorem listed_chat_badge currentUser fetchedChats listed x :
  onChats getUser hasChatMessages getUnreadCount currentUser fetchedChats = Resolved listed →
  x ∈ listed →
  ∃ n, getUnreadCount (id (chat x)) (uid currentUser) = Resolved n
     ∧ (n < 0 → unreadBadge x = ShowsNothing)
     ∧ (n = 0 → unreadBadge x = ShowsNumber 0)
     ∧ (0 < n ≤ 99 → unreadBadge x = ShowsBadge (inr n))
     ∧ (99 < n → unreadBadge x = ShowsBadge (inl "99+"%string)).
Proof.
  intros Hpub Hx.
  destruct (onChats_listed _ _ _ _ _ _ _ Hpub Hx) as (c & _ & Hen).
  apply enrichChat_listed in Hen as (<- & _ & _ & _ & n & Hn & Hcount).
  exists n. split; [done|]. unfold unreadBadge. rewrite Hcount.
  repeat split; intros Hcase; repeat case_bool_decide; simpl; try lia; try done.
  by subst n.
Qed.

End ChatListFacts.

Section ChatListViewFacts.
Import JS Types ChatList ChatListView.

Variable Px : Type.
Variable getUser : string → Promise (option User).
Variable hasChatMessages : string → Promise bool.
Variable getUnreadCount : string → string → Promise Z.

Abbreviation step := (ChatListView.step Px getUser hasChatMessages getUnreadCount).
Abbreviation run := (ChatListView.run Px getUser hasChatMessages getUnreadCount).

Ltac destruct_if :=
  match goal with
  | |- context [if ?c then _ else _] => destruct c eqn:?
  end.

Lemma run_view_snoc events ev (w : World Px) : run (events ++ [ev]) w = step (run events w) ev.
Proof. unfold ChatListView.run. by rewrite foldl_app. Qed.

(** *** Loading *)

Lemma effect_loading e (w : World Px) :
  loading Px (state Px (effect Px e w))
  = if bool_decide (is_Some (currentUser e)) then false else loading Px (state Px w).
Proof.
  unfold effect. destruct (currentUser e) as [user|].
  - rewrite bool_decide_eq_true_2 by eauto. by destruct (subscription Px w).
  - rewrite bool_decide_eq_false_2 by (by intros [? ?]). by destruct (subscription Px w).
Qed.

Lemma step_loading (w : World Px) ev :
  (∀ e, rendered Px w = Some e → is_Some (currentUser e) →
        loading Px (state Px w) = false) →
  loading Px (state Px (step w ev)) = loading Px (state Px w) && signedOut ev
  ∧ (∀ e, rendered Px (step w ev) = Some e → is_Some (currentUser e) →
          loading Px (state Px (step w ev)) = false).
Proof.
  intros Hinv.
  assert (Hkeep : ∀ w' : World Px,
    rendered Px w' = rendered Px w →
    loading Px (state Px w') = loading Px (state Px w) →
    loading Px (state Px w') = loading Px (state Px w) && true
    ∧ (∀ e, rendered Px w' = Some e → is_Some (currentUser e) →
            loading Px (state Px w') = false)).
  { intros w' Hr Hl. rewrite Hr, Hl, andb_true_r. done. }
  destruct ev; cbn [ChatListView.step signedOut]; try (by apply Hkeep).
  - unfold render. cbn [state rendered withRendered].
    assert (Hl : loading Px (state Px
                   (if match rendered Px w with
                       | Some p =>
                           negb (bool_decide (addr <$> currentUser p = addr <$> currentUser e))
                       | None => true
                       end then effect Px e w else w))
                 = loading Px (state Px w) && negb (bool_decide (is_Some (currentUser e)))).
    { destruct (rendered Px w) as [p|] eqn:Hp.
      - case_bool_decide as Hsame; simpl.
        + case_bool_decide as Hu; simpl; [|by rewrite andb_true_r].
          rewrite (Hinv p eq_refl); [done|].
          destruct Hu as [u Hu]. rewrite Hu in Hsame.
          destruct (currentUser p); [eauto|done].
        + rewrite effect_loading. case_bool_decide; simpl;
            [by rewrite andb_false_r|by rewrite andb_true_r].
      - rewrite effect_loading. case_bool_decide; simpl;
          [by rewrite andb_false_r|by rewrite andb_true_r]. }
    split; [done|]. intros e' [= <-] Hu. rewrite Hl.
    rewrite bool_decide_eq_true_2 by done. by rewrite andb_false_r.
  - unfold deliver. destruct (subscription Px w); by apply Hkeep.
  - unfold usersSettled. repeat case_match; by apply Hkeep.
  - unfold chatsSettled. repeat case_match; by apply Hkeep.
  - unfold chatCreated. repeat case_match; by apply Hkeep.
  - unfold chatDeleted. repeat case_match; by apply Hkeep.
  - unfold blockSettled. repeat case_match; by apply Hkeep.
  - unfold handleStartChat. repeat case_match; by apply Hkeep.
  - unfold handleDeleteChat. repeat case_match; by apply Hkeep.
  - unfold blockClick, handleBlockUser. repeat case_match; by apply Hkeep.
Qed.

(** X18: the list shows [Loading chats...] exactly until the first commit
    with a signed-in user, whatever else happens; signed out, it shows it
    for ever. *)
Theorem loading_until_signed_in events :
  body Px (state Px (run events (initialWorld Px))) = LoadingChats
  ↔ forallb signedOut events = true.
Proof.
  assert (H : ∀ w : World Px,
    (∀ e, rendered Px w = Some e → is_Some (currentUser e) →
          loading Px (state Px w) = false) →
    loading Px (state Px (run events w))
    = loading Px (state Px w) && forallb signedOut events).
  { induction events as [|ev events IH]; intros w Hw; [by rewrite andb_true_r|].
    destruct (step_loading w ev Hw) as [Hl Hinv].
    simpl. rewrite IH by done. rewrite Hl. by rewrite andb_assoc. }
  specialize (H (initialWorld Px)). simpl in H. unfold body.
  rewrite H by done.
  destruct (forallb signedOut events); [done|].
  split; [|done]. repeat case_match; done.
Qed.

(** *** Starting a chat *)

Lemma creating_push l p :
  creating (ChatWindow.push l p) = (creating l + if isCreatingChat p then 1 else 0)%nat.
Proof.
  unfold creating, ChatWindow.push. rewrite filter_app, length_app.
  destruct (isCreatingChat p) eqn:Hp.
  - by rewrite filter_cons_True, filter_nil.
  - rewrite filter_cons_False, filter_nil by congruence. done.
Qed.

Lemma creating_delete l i p :
  l !! i = Some p →
  (creating (delete i l) + (if isCreatingChat p then 1 else 0))%nat = creating l.
Proof.
  unfold creating. revert i. induction l as [|q l IH]; intros [|i] Hi; simplify_eq/=.
  - destruct (isCreatingChat p) eqn:Hp.
    + rewrite filter_cons_True by done. simpl. lia.
    + rewrite filter_cons_False by congruence. lia.
  - specialize (IH i Hi).
    destruct (isCreatingChat q) eqn:Hq.
    + rewrite !filter_cons_True by done. simpl. lia.
    + rewrite !filter_cons_False by congruence. lia.
Qed.

Lemma step_creating (w : World Px) ev :
  creating (pending Px w) = (if creatingChat Px (state Px w) then 1 else 0)%nat →
  creating (pending Px (step w ev))
  = (if creatingChat Px (state Px (step w ev)) then 1 else 0)%nat.
Proof.
  intros Hinv.
  destruct ev as [e|fetched|i allUsers|i|i created now|i deleted|i updated|user|chat|c|chat
                 |menu| | |]; cbn [ChatListView.step]; try done.
  - unfold render. cbn [state pending withRendered].
    destruct_if; [|done]. unfold effect.
    destruct (subscription Px w), (currentUser e); simpl; rewrite ?creating_push; simpl; lia.
  - unfold deliver. destruct (subscription Px w); [|done].
    simpl. rewrite creating_push. simpl. lia.
  - unfold usersSettled. destruct (pending Px w !! i) as [p|] eqn:Hi; [|done].
    pose proof (creating_delete _ _ _ Hi) as Hdel.
    destruct p; try done. destruct allUsers; simpl in *; lia.
  - unfold chatsSettled. destruct (pending Px w !! i) as [p|] eqn:Hi; [|done].
    pose proof (creating_delete _ _ _ Hi) as Hdel.
    destruct p as [|batch| | |]; try done. destruct batch; simpl in *; lia.
  - unfold chatCreated. destruct (pending Px w !! i) as [p|] eqn:Hi; [|done].
    pose proof (creating_delete _ _ _ Hi) as Hdel.
    destruct p; try done. destruct (creatingChat Px (state Px w));
      destruct created; simpl in *; lia.
  - unfold chatDeleted. destruct (pending Px w !! i) as [p|] eqn:Hi; [|done].
    pose proof (creating_delete _ _ _ Hi) as Hdel.
    destruct p; try done. destruct deleted; simpl in *; lia.
  - unfold blockSettled. destruct (pending Px w !! i) as [p|] eqn:Hi; [|done].
    pose proof (creating_delete _ _ _ Hi) as Hdel.
    destruct p as [| | | |userId isBlocked]; try done.
    destruct updated; [destruct isBlocked|]; simpl in *; lia.
  - unfold handleStartChat. destruct (rendered Px w) as [e|]; [|done].
    destruct (currentUser e); [|done].
    destruct (creatingChat Px (state Px w)) eqn:Hc; [by rewrite Hc|].
    simpl. rewrite creating_push. simpl. lia.
  - unfold handleDeleteChat. destruct (rendered Px w) as [e|]; [|done].
    destruct (currentUser e); [|done]. simpl. rewrite creating_push. simpl. lia.
  - unfold blockClick, handleBlockUser. destruct (rendered Px w) as [e|]; [|done].
    destruct (currentUser e); [|done]. simpl. rewrite creating_push. simpl. lia.
Qed.

(** X19: in every run at most one call to [createOrGetChat] is in
    progress, and the flag that disables the buttons of the users is set
    exactly while one is: a chat is never started twice at once, and the
    buttons are never left disabled. *)
Theorem one_chat_started_at_a_time events :
  let w := run events (initialWorld Px) in
  creating (pending Px w) = (if creatingChat Px (state Px w) then 1 else 0)%nat.
Proof.
  assert (H : ∀ w : World Px,
    creating (pending Px w) = (if creatingChat Px (state Px w) then 1 else 0)%nat →
    creating (pending Px (run events w))
    = (if creatingChat Px (state Px (run events w)) then 1 else 0)%nat).
  { induction events as [|ev events IH]; intros w Hw; [done|].
    simpl. apply IH. by apply step_creating. }
  by apply H.
Qed.

(** *** Blocking *)

Lemma block_settled (w : World Px) e current chatId userId isBlocked updated :
  rendered Px w = Some e → currentUser e = Some current →
  blockSettled Px (length (pending Px w)) updated
    (handleBlockUser Px chatId userId isBlocked w)
  = let request :=
      if isBlocked then UnblockUser (uid (val current)) userId
      else BlockUser (uid (val current)) userId in
    match updated with
    | Resolved _ =>
        mkWorld Px
          (setContextMenu Px None
             (setBlockedUsers Px
                (λ prev, if isBlocked then prev ∖ {[userId]} else prev ∪ {[userId]})
                (state Px w)))
          (rendered Px w) (subscription Px w) (pending Px w) (calls Px w ++ [request])
    | Rejected =>
        mkWorld Px (state Px w) (rendered Px w) (subscription Px w) (pending Px w)
          (calls Px w ++ [request; Alert "Failed to update block status"])
    end.
Proof.
  intros Hr Hu. unfold handleBlockUser, blockSettled. rewrite Hr, Hu. simpl.
  unfold ChatWindow.push. rewrite list_lookup_middle by done.
  destruct updated; [destruct isBlocked|]; simpl; unfold ChatWindow.push; simpl.
  all: unfold withState, withPending, suspend, call, withPending, ChatWindow.push; simpl.
  all: rewrite delete_middle, app_nil_r, <- ?app_assoc, ?Hr; done.
Qed.

(** X20: blocking and unblocking are inverse: two clicks on the block
    button of a chat, each settled with success, call [blockUser] and
    [unblockUser] once each (the one that fits the state first) and leave
    the set of blocked users as it was; a click whose call fails leaves
    the set as it was too, and raises an alert. *)
Theorem block_twice_restores (w : World Px) e current chat :
  rendered Px w = Some e → currentUser e = Some current →
  let n := length (pending Px w) in
  let other := uid (otherUser chat) in
  let twice :=
    run [BlockUserClick Px chat; BlockSettled Px n (Resolved ());
         BlockUserClick Px chat; BlockSettled Px n (Resolved ())] w in
  let failed := run [BlockUserClick Px chat; BlockSettled Px n Rejected] w in
  blockedUsers Px (state Px twice) = blockedUsers Px (state Px w)
  ∧ calls Px twice
    = calls Px w
      ++ (if bool_decide (other ∈ blockedUsers Px (state Px w))
          then [UnblockUser (uid (val current)) other; BlockUser (uid (val current)) other]
          else [BlockUser (uid (val current)) other; UnblockUser (uid (val current)) other])
  ∧ pending Px twice = pending Px w
  ∧ blockedUsers Px (state Px failed) = blockedUsers Px (state Px w)
  ∧ calls Px failed
    = calls Px w
      ++ [if bool_decide (other ∈ blockedUsers Px (state Px w))
          then UnblockUser (uid (val current)) other
          else BlockUser (uid (val current)) other;
          Alert "Failed to update block status"].
Proof.
  intros Hr Hu. cbn zeta. unfold ChatListView.run. cbn [foldl ChatListView.step].
  unfold blockClick.
  rewrite !(block_settled w e current) by done. cbn zeta iota.
  set (X := blockedUsers Px (state Px w)).
  set (u := uid (otherUser chat)).
  split_and!; try done.
  all: set (w1 := mkWorld Px _ _ _ _ _).
  all: change (length (pending Px w)) with (length (pending Px w1)).
  all: rewrite (block_settled w1 e current) by done; cbn zeta iota; subst w1; simpl.
  all: fold X; fold u.
  - destruct (decide (u ∈ X)) as [Hin|Hin].
    + rewrite (bool_decide_eq_true_2 _ Hin).
      rewrite bool_decide_eq_false_2
        by (rewrite elem_of_difference, elem_of_singleton; tauto).
      apply set_eq. intros z.
      rewrite elem_of_union, elem_of_difference, elem_of_singleton.
      destruct (decide (z = u)) as [->|]; tauto.
    + rewrite (bool_decide_eq_false_2 _ Hin).
      rewrite bool_decide_eq_true_2 by (rewrite elem_of_union, elem_of_singleton; tauto).
      apply set_eq. intros z.
      rewrite elem_of_difference, elem_of_union, elem_of_singleton.
      destruct (decide (z = u)) as [->|]; tauto.
  - rewrite <- app_assoc. destruct (decide (u ∈ X)) as [Hin|Hin].
    + rewrite (bool_decide_eq_true_2 _ Hin).
      by rewrite bool_decide_eq_false_2
        by (rewrite elem_of_difference, elem_of_singleton; tauto).
    + rewrite (bool_decide_eq_false_2 _ Hin).
      by rewrite bool_decide_eq_true_2
        by (rewrite elem_of_union, elem_of_singleton; tauto).
  - done.
Qed.

(** *** The subscription to the chats *)

Lemma view_listener_push log c : listener (ChatWindow.push log c) = listen (listener log) c.
Proof. unfold listener, ChatWindow.push. by rewrite foldl_app. Qed.

Lemma view_listen_other live c :
  match c with GetUserChats _ | Unsubscribe _ => False | _ => True end →
  listen live c = live.
Proof. by destruct live as [[?|]|], c. Qed.

Lemma effect_subscribed e (w : World Px) :
  listener (calls Px w) = Some (uid <$> subscription Px w) →
  listener (calls Px (effect Px e w)) = Some (uid <$> subscription Px (effect Px e w))
  ∧ (is_Some (subscription Px (effect Px e w)) ↔ is_Some (currentUser e)).
Proof.
  intros H. unfold effect.
  destruct (subscription Px w) as [s|] eqn:Hs, (currentUser e) as [user|]; simpl;
    rewrite ?view_listener_push, ?Hs, ?H; simpl;
    rewrite ?bool_decide_eq_true_2 by done; simpl;
    (split; [try reflexivity|]).
  all: try (split; intros [? ?]; by eauto).
  all: try (split; by eauto).
Qed.

Lemma step_subscribed (w : World Px) ev : subscribed w → subscribed (step w ev).
Proof.
  intros [Hlog Hlive].
  assert (Hkeep : ∀ (w' : World Px) added,
    rendered Px w' = rendered Px w → subscription Px w' = subscription Px w →
    calls Px w' = calls Px w ++ added →
    Forall (λ c, match c with GetUserChats _ | Unsubscribe _ => False | _ => True end)
      added →
    subscribed w').
  { intros w' added Hr Hs Hc Hadded. unfold subscribed. rewrite Hr, Hs, Hc.
    split; [|done]. unfold listener. rewrite foldl_app. fold (listener (calls Px w)).
    rewrite Hlog. clear Hc. induction Hadded as [|c added Hc _ IH]; [done|].
    cbn [foldl]. by rewrite view_listen_other. }
  assert (Hsame : ∀ w' : World Px,
    rendered Px w' = rendered Px w → subscription Px w' = subscription Px w →
    calls Px w' = calls Px w → subscribed w').
  { intros w' Hr Hs Hc. apply (Hkeep w' []); try done. by rewrite app_nil_r. }
  destruct ev as [e|fetched|i allUsers|i|i created now|i deleted|i updated|user|chat|c|chat
                 |menu| | |]; cbn [ChatListView.step]; try (by apply Hsame).
  - unfold render, subscribed. cbn [calls subscription rendered withRendered].
    destruct (rendered Px w) as [p|] eqn:Hp.
    + case_bool_decide as Hsame'; simpl.
      * split; [done|]. rewrite Hlive. split; intros [u Hu].
        -- rewrite Hu in Hsame'. destruct (currentUser e); [eauto|done].
        -- rewrite Hu in Hsame'. destruct (currentUser p); [eauto|done].
      * by apply effect_subscribed.
    + by apply effect_subscribed.
  - unfold deliver. destruct (subscription Px w) eqn:Hs; apply Hsame; simpl; by rewrite ?Hs.
  - unfold usersSettled. repeat case_match; by apply Hsame.
  - unfold chatsSettled. repeat case_match; by apply Hsame.
  - unfold chatCreated. destruct (pending Px w !! i) as [[]|]; try (by apply Hsame).
    destruct created; [|by apply Hsame].
    eapply Hkeep; [done..|]. by apply Forall_singleton.
  - unfold chatDeleted. destruct (pending Px w !! i) as [[]|]; try (by apply Hsame).
    destruct deleted; [by apply Hsame|].
    eapply Hkeep; [done..|]. by apply Forall_singleton.
  - unfold blockSettled. destruct (pending Px w !! i) as [[]|]; try (by apply Hsame).
    destruct updated; [by repeat case_match; apply Hsame|].
    eapply Hkeep; [done..|]. by apply Forall_singleton.
  - unfold handleStartChat. repeat case_match; try (by apply Hsame).
    eapply Hkeep; [done..|]. by apply Forall_singleton.
  - eapply Hkeep; [done..|]. by apply Forall_singleton.
  - unfold handleDeleteChat. repeat case_match; try (by apply Hsame).
    eapply Hkeep; [done..|]. by apply Forall_singleton.
  - unfold blockClick, handleBlockUser. repeat case_match; try (by apply Hsame).
    all: eapply Hkeep; [done..|]; by apply Forall_singleton.
Qed.

(** X21: the list holds at most one listener on the chats of a user: in
    the log of every run, a subscription is opened only when none is
    live, each release is that of the live one, and after each commit a
    subscription is live exactly when that commit had a user. *)
Theorem one_chats_listener events : subscribed (run events (initialWorld Px)).
Proof.
  assert (H : ∀ w : World Px, subscribed w → subscribed (run events w)).
  { induction events as [|ev events IH]; intros w Hw; [done|].
    simpl. apply IH. by apply step_subscribed. }
  by apply H.
Qed.

(** *** Deleting a chat *)

Lemma step_pending_after (w : World Px) ev n p :
  settlesAfter n ev = true →
  pending Px w !! n = Some p → pending Px (step w ev) !! n = Some p.
Proof.
  intros Hev Hn.
  assert (Hpush : ∀ q, ChatWindow.push (pending Px w) q !! n = Some p).
  { intros q. unfold ChatWindow.push. by apply lookup_app_l_Some. }
  destruct ev as [e|fetched|i allUsers|i|i created now|i deleted|i updated|user|chat|c|chat
                 |menu| | |]; cbn [ChatListView.step]; try done;
    try (simpl in Hev; apply bool_decide_eq_true in Hev).
  - unfold render. cbn [pending withRendered]. destruct_if; [|done].
    unfold effect. destruct (subscription Px w), (currentUser e); simpl; done.
  - unfold deliver. destruct (subscription Px w); simpl; done.
  - unfold usersSettled. destruct (pending Px w !! i) as [[]|]; try done.
    destruct allUsers; simpl; by rewrite list_lookup_delete_lt.
  - unfold chatsSettled. destruct (pending Px w !! i) as [[|batch| | |]|]; try done.
    destruct batch; simpl; by rewrite list_lookup_delete_lt.
  - unfold chatCreated. destruct (pending Px w !! i) as [[]|]; try done.
    destruct created; simpl; by rewrite list_lookup_delete_lt.
  - unfold chatDeleted. destruct (pending Px w !! i) as [[]|]; try done.
    destruct deleted; simpl; by rewrite list_lookup_delete_lt.
  - unfold blockSettled. destruct (pending Px w !! i) as [[| | | |userId isBlocked]|];
      try done.
    destruct updated; [destruct isBlocked|]; simpl; by rewrite list_lookup_delete_lt.
  - unfold handleStartChat. repeat case_match; simpl; done.
  - unfold handleDeleteChat. repeat case_match; simpl; done.
  - unfold blockClick, handleBlockUser. repeat case_match; simpl; done.
Qed.

(** X22: deleting a chat publishes the list of the click without the
    chat: whatever was delivered and published while [deleteChat] was
    awaited is replaced by the list the handler closed over. *)
Theorem delete_chat_publishes_click_list (w : World Px) e current chatId events :
  rendered Px w = Some e → currentUser e = Some current →
  forallb (settlesAfter (length (pending Px w))) events = true →
  chats Px (state Px
    (run (DeleteChatClick Px chatId :: events
          ++ [ChatDeleted Px (length (pending Px w)) (Resolved ())]) w))
  = filter (λ row, id (chat row) ≠ chatId) (chats Px (state Px w)).
Proof.
  intros Hr Hu Hev.
  change (DeleteChatClick Px chatId :: events
          ++ [ChatDeleted Px (length (pending Px w)) (Resolved ())])
    with ((DeleteChatClick Px chatId :: events)
          ++ [ChatDeleted Px (length (pending Px w)) (Resolved ())]).
  rewrite run_view_snoc.
  assert (H : pending Px (run (DeleteChatClick Px chatId :: events) w)
              !! length (pending Px w)
              = Some (DeletingChat (chats Px (state Px w)) chatId)).
  { simpl.
    assert (H0 : pending Px (handleDeleteChat Px chatId w) !! length (pending Px w)
                 = Some (DeletingChat (chats Px (state Px w)) chatId)).
    { unfold handleDeleteChat. rewrite Hr, Hu. simpl. unfold ChatWindow.push.
      by rewrite list_lookup_middle. }
    revert H0. generalize (handleDeleteChat Px chatId w).
    induction events as [|ev events IH]; intros w' Hw'; [done|].
    simpl in Hev. apply andb_true_iff in Hev as [Hev Hevs].
    simpl. apply IH; [done|]. by apply step_pending_after. }
  cbn [ChatListView.step]. unfold chatDeleted. rewrite H. done.
Qed.

(** *** The users to start a chat with *)

(** X24: when [getAllUsers] settles, the users offered are those fetched
    but the current user, in order, and the blocked users are those of
    the block list of the current user; a chat started with one of the
    users offered has that user as the participant the aggregator takes
    for the counterpart, and shows no unread badge. *)
Theorem started_from_users_list (w : World Px) i current allUsers :
  pending Px w !! i = Some (FetchingUsers current) →
  let w' := usersSettled Px i (Resolved allUsers) w in
  users Px (state Px w') = filter (λ user, uid user ≠ uid current) allUsers
  ∧ blockedUsers Px (state Px w') = list_to_set (default [] (blockList current))
  ∧ ∀ user chatId now,
      user ∈ users Px (state Px w') →
      let started := startedChat current user chatId now in
      List.find (λ id, negb (bool_decide (id = uid current))) (participants (chat started))
      = Some (uid user)
      ∧ otherUser started = user
      ∧ unreadBadge started = ShowsNothing.
Proof.
  intros Hi. cbn zeta. unfold usersSettled. rewrite Hi. simpl.
  split; [done|]. split; [done|].
  intros user chatId now Hin. apply list_elem_of_filter in Hin as [Hne _].
  simpl. rewrite bool_decide_eq_true_2 by done. simpl.
  by rewrite bool_decide_eq_false_2.
Qed.

End ChatListViewFacts.

Section FormatTimeFacts.
Import JS Types ChatList ChatListView.

Variable timeOfDay : Date → string.
Variable weekday : Date → string.
Variable monthAndDay : Date → string.

Abbreviation formatTime := (ChatListView.formatTime timeOfDay weekday monthAndDay).

Lemma formatTime_days now date tn td :
  timeValue now = Num tn → timeValue date = Num td →
  formatTime now date
  = if bool_decide ((tn - td) `div` 86400000 = 0) then timeOfDay date
    else if bool_decide ((tn - td) `div` 86400000 = 1) then "Yesterday"%string
    else if bool_decide ((tn - td) `div` 86400000 < 7) then weekday date
    else monthAndDay date.
Proof.
  intros Hn Hd. unfold ChatListView.formatTime. rewrite Hn, Hd. simpl.
  change (1000 * 60 * 60 * 24) with 86400000. done.
Qed.

(** X23: the time shown for a chat goes by the time elapsed, in whole
    days of 24 hours, not by the calendar: a date less than a day old
    shows its time of day (so does every earlier date of the same local
    day), a date one to two days old shows [Yesterday] (and is then one
    or two calendar days back), a date up to seven days old its weekday,
    an older one its month and day; a date in the future shows its
    weekday, and an invalid date goes to the month and day. *)
Theorem formatTime_labels now date :
  (timeValue now = NaN ∨ timeValue date = NaN → formatTime now date = monthAndDay date)
  ∧ ∀ tn td,
      timeValue now = Num tn → timeValue date = Num td →
      (tn < td → formatTime now date = weekday date)
      ∧ (0 ≤ tn - td < 86400000 → formatTime now date = timeOfDay date)
      ∧ (86400000 ≤ tn - td < 2 * 86400000 → formatTime now date = "Yesterday"%string)
      ∧ (2 * 86400000 ≤ tn - td < 7 * 86400000 → formatTime now date = weekday date)
      ∧ (7 * 86400000 ≤ tn - td → formatTime now date = monthAndDay date)
      ∧ ∀ offset,
          (td ≤ tn → localDay (λ _, offset) td = localDay (λ _, offset) tn →
           formatTime now date = timeOfDay date)
          ∧ (86400000 ≤ tn - td < 2 * 86400000 →
             localDay (λ _, offset) tn - localDay (λ _, offset) td = 1
             ∨ localDay (λ _, offset) tn - localDay (λ _, offset) td = 2).
Proof.
  split.
  - unfold ChatListView.formatTime.
    intros [H|H]; rewrite H; [done|]. by destruct (timeValue now).
  - intros tn td Hn Hd. rewrite (formatTime_days now date tn td Hn Hd).
    assert (Hq : 86400000 * ((tn - td) `div` 86400000) ≤ tn - td
                 < 86400000 * ((tn - td) `div` 86400000) + 86400000)
      by (Z.div_mod_to_equations; lia).
    revert Hq. generalize ((tn - td) `div` 86400000). intros q Hq.
    split_and!; try (intros H; repeat case_bool_decide; try done; lia).
    intros offset. unfold localDay, LocalTime, Day, msPerDay. split.
    + intros Hle Hday. rewrite bool_decide_eq_true_2; [done|].
      revert Hday. Z.div_mod_to_equations. lia.
    + intros H. Z.div_mod_to_equations. lia.
Qed.

End FormatTimeFacts.

Section ChoiceFacts.
Import JS Types DeletionService ChatWindow Display Protocol Choice.

Variable translateText : string → string → Promise string.

Ltac destruct_if :=
  match goal with
  | |- context [if ?c then _ else _] => destruct c eqn:?
  end.

Lemma step_keepsChoice w ev d :
  rendered w = Some d →
  keepsChoice (chatId (env d)) (addr (getSettings (env d))) ev = true →
  translationEnabled (state (step translateText w ev)) = translationEnabled (state w)
  ∧ targetLanguage (state (step translateText w ev)) = targetLanguage (state w)
  ∧ ∃ d', rendered (step translateText w ev) = Some d'
          ∧ chatId (env d') = chatId (env d)
          ∧ addr (getSettings (env d')) = addr (getSettings (env d)).
Proof.
  intros Hd Hev.
  assert (Hkeep : ∀ w',
    translationEnabled (state w') = translationEnabled (state w) →
    targetLanguage (state w') = targetLanguage (state w) →
    rendered w' = rendered w →
    translationEnabled (state w') = translationEnabled (state w)
    ∧ targetLanguage (state w') = targetLanguage (state w)
    ∧ ∃ d', rendered w' = Some d' ∧ chatId (env d') = chatId (env d)
            ∧ addr (getSettings (env d')) = addr (getSettings (env d))).
  { intros w' Hte Htl Hr. rewrite Hr, Hd. eauto 10. }
  destruct ev as [e|unreadMsgs| |fetched|i| |en lang updated|lang|messageId|messageId deleted];
    try done; cbn [step].
  - simpl in Hev. apply andb_true_iff in Hev as [Hc Hg].
    apply bool_decide_eq_true in Hc, Hg.
    destruct (render_outcome e w) as (_ & Hflags & _).
    destruct (render_frame e w) as (_ & _ & _ & Hr).
    rewrite Hd in Hflags. unfold depChanged, depChatId, depGetSettings in Hflags.
    cbn [env] in Hflags.
    rewrite !bool_decide_eq_true_2 in Hflags by done. cbn [negb orb] in Hflags.
    pose proof (f_equal fst Hflags) as Hte. pose proof (f_equal snd Hflags) as Htl.
    split; [exact Hte|]. split; [exact Htl|]. rewrite Hr.
    eexists. split; [reflexivity|]. exact (conj Hc Hg).
  - by apply Hkeep.
  - by apply Hkeep.
  - unfold deliver. repeat case_match; by apply Hkeep.
  - unfold settle. repeat case_match; by apply Hkeep.
  - unfold handleDeleteLocalMessage. rewrite Hd. by apply Hkeep.
  - unfold handleDeleteMessageForEveryone. rewrite Hd. destruct deleted; by apply Hkeep.
Qed.

(** X25: what the user saves in the translation settings is announced to
    the context and to the chat service, and holds until the user chooses
    again: through every delivery, settled call, deletion and commit that
    keeps the chat and the [getSettings] of the context, the flag and the
    language of the state are those saved, and each such commit leaves a
    subscription that translates with them. *)
Theorem saved_choice_kept w d user enabled language updated events :
  closedOverRendered w → rendered w = Some d → currentUser (env d) = Some user →
  forallb (keepsChoice (chatId (env d)) (addr (getSettings (env d)))) events = true →
  let w0 := handleSaveTranslationSettings enabled language updated w in
  let w' := run translateText events w0 in
  calls w0
  = calls w ++ [SetSettings (chatId (env d)) (mkSettings enabled language);
                UpdateTranslationSettings (chatId (env d)) (uid (val user)) enabled language]
  ∧ translationEnabled (state w') = enabled
  ∧ targetLanguage (state w') = language
  ∧ ∀ e s,
      keepsChoice (chatId (env d)) (addr (getSettings (env d))) (Render e) = true →
      subscription (render e w') = Some s →
      subTranslationEnabled s = enabled ∧ subTargetLanguage s = language.
Proof.
  intros Hclosed Hd Hu Hev. cbn zeta.
  set (w0 := handleSaveTranslationSettings enabled language updated w).
  assert (H0 : calls w0
               = calls w ++ [SetSettings (chatId (env d)) (mkSettings enabled language);
                             UpdateTranslationSettings (chatId (env d)) (uid (val user))
                               enabled language]
               ∧ translationEnabled (state w0) = enabled
               ∧ targetLanguage (state w0) = language
               ∧ rendered w0 = Some d ∧ closedOverRendered w0).
  { subst w0. unfold handleSaveTranslationSettings. rewrite Hd, Hu.
    unfold closedOverRendered in *. rewrite Hd in Hclosed.
    destruct updated; simpl; unfold push; rewrite <- app_assoc, ?Hd; done. }
  destruct H0 as (Hcalls & Hte & Htl & Hd0 & Hclosed0).
  split; [exact Hcalls|].
  assert (H : ∀ w1 d1,
    rendered w1 = Some d1 → chatId (env d1) = chatId (env d) →
    addr (getSettings (env d1)) = addr (getSettings (env d)) → closedOverRendered w1 →
    translationEnabled (state (run translateText events w1)) = translationEnabled (state w1)
    ∧ targetLanguage (state (run translateText events w1)) = targetLanguage (state w1)
    ∧ closedOverRendered (run translateText events w1)
    ∧ ∃ d', rendered (run translateText events w1) = Some d'
            ∧ chatId (env d') = chatId (env d)
            ∧ addr (getSettings (env d')) = addr (getSettings (env d))).
  { induction events as [|ev events IH]; intros w1 d1 Hd1 Hc1 Hg1 Hcl1; [by eauto 10|].
    simpl in Hev. apply andb_true_iff in Hev as [Hev1 Hevs].
    rewrite <- Hc1, <- Hg1 in Hev1.
    destruct (step_keepsChoice w1 ev d1 Hd1 Hev1) as (Hte1 & Htl1 & d2 & Hd2 & Hc2 & Hg2).
    simpl.
    destruct (IH Hevs (step translateText w1 ev) d2 Hd2) as (-> & -> & ? & ?);
      [congruence|congruence|by apply step_closedOver|]. eauto. }
  destruct (H w0 d Hd0 eq_refl eq_refl Hclosed0) as (Hte' & Htl' & Hcl' & d' & Hd' & Hc' & Hg').
  rewrite Hte', Htl', Hte, Htl. split; [done|]. split; [done|].
  intros e s He Hs.
  pose proof (render_closedOver e _ Hcl') as Hcl.
  unfold closedOverRendered in Hcl.
  destruct (render_frame e (run translateText events w0)) as (_ & _ & _ & Hr).
  rewrite Hr, Hs in Hcl. cbn [depTranslationEnabled depTargetLanguage] in Hcl.
  destruct Hcl as (_ & _ & _ & -> & ->). by rewrite Hte', Htl', Hte, Htl.
Qed.

(** X27: whenever a handler changes the translation flag or the target
    language of a window with a user, the chat service is told the new
    flag and language at once; the context is told too ([setSettings]),
    except when translation is toggled off. *)
Theorem translation_change_announced w d user ev :
  rendered w = Some d → currentUser (env d) = Some user → (∀ e, ev ≠ Render e) →
  let w' := step translateText w ev in
  (translationEnabled (state w'), targetLanguage (state w'))
  ≠ (translationEnabled (state w), targetLanguage (state w)) →
  calls w'
  = calls w
    ++ match ev with
       | ToggleTranslation => []
       | _ => [SetSettings (chatId (env d))
                 (mkSettings (translationEnabled (state w')) (targetLanguage (state w')))]
       end
    ++ [UpdateTranslationSettings (chatId (env d)) (uid (val user))
          (translationEnabled (state w')) (targetLanguage (state w'))].
Proof.
  intros Hd Hu Hev. cbn zeta.
  destruct ev as [e|unreadMsgs| |fetched|i| |en lang updated|lang|messageId|messageId deleted];
    cbn [step]; try done.
  - by destruct (Hev e).
  - unfold deliver. by repeat case_match.
  - unfold settle. by repeat case_match.
  - unfold handleToggleTranslation. rewrite Hd, Hu.
    destruct (translationEnabled (state w)) eqn:Hte; simpl; [|by rewrite Hte].
    intros _. done.
  - unfold handleSaveTranslationSettings. rewrite Hd, Hu.
    destruct updated; simpl; unfold push; by rewrite <- app_assoc.
  - unfold handleLanguageChange. rewrite Hd, Hu. simpl. unfold push.
    by rewrite <- app_assoc.
  - unfold handleDeleteLocalMessage. by rewrite Hd.
  - unfold handleDeleteMessageForEveryone. rewrite Hd. by destruct deleted.
Qed.

(** X28: the settings of the context win over the state: a commit on
    another chat, or with another [getSettings] (the context changed),
    replaces the translation flag and language of the state by the saved
    settings of the chat, whatever the user toggled since; a commit that
    keeps both leaves them alone. *)
Theorem context_settings_override w d e :
  rendered w = Some d →
  let saved := val (getSettings e) (chatId e) in
  (translationEnabled (state (render e w)), targetLanguage (state (render e w)))
  = if bool_decide (chatId e = chatId (env d)
                    ∧ addr (getSettings e) = addr (getSettings (env d)))
    then (translationEnabled (state w), targetLanguage (state w))
    else (enabled saved, Types.targetLanguage saved).
Proof.
  intros Hd. cbn zeta.
  destruct (render_outcome e w) as (_ & -> & _).
  rewrite Hd. unfold depChanged, depChatId, depGetSettings. cbn [env].
  destruct (decide (chatId (env d) = chatId e)) as [Hc|Hc],
    (decide (addr (getSettings (env d)) = addr (getSettings e))) as [Hg|Hg].
  - rewrite (bool_decide_eq_true_2 _ Hc), (bool_decide_eq_true_2 _ Hg).
    by rewrite (bool_decide_eq_true_2 (_ ∧ _)) by done.
  - rewrite (bool_decide_eq_true_2 _ Hc), (bool_decide_eq_false_2 _ Hg).
    by rewrite (bool_decide_eq_false_2 (_ ∧ _)) by (intros [? ?]; congruence).
  - rewrite (bool_decide_eq_false_2 _ Hc).
    by rewrite (bool_decide_eq_false_2 (_ ∧ _)) by (intros [? ?]; congruence).
  - rewrite (bool_decide_eq_false_2 _ Hc).
    by rewrite (bool_decide_eq_false_2 (_ ∧ _)) by (intros [? ?]; congruence).
Qed.

End ChoiceFacts.

(** ** Deleting for everyone *)

Section DeleteForEveryoneFacts.
Import JS Types DeletionService ChatWindow Display Protocol Choice.

Variable translateText : string → string → Promise string.

Ltac split_worlds :=
  intros (Hst & Hr & Hs & Hl);
  match goal with
  | |- sameButLog (_ ?w1) (_ ?w2) =>
      destruct w1 as [st1 r1 s1 i1 l1 c1], w2 as [st2 r2 s2 i2 l2 c2]
  end;
  simpl in Hst, Hr, Hs, Hl; subst; unfold sameButLog.

Lemma settingsEffect_sameButLog now w1 w2 :
  sameButLog w1 w2 → sameButLog (settingsEffect now w1) (settingsEffect now w2).
Proof. by split_worlds. Qed.

Lemma resetGuardEffect_sameButLog w1 w2 :
  sameButLog w1 w2 → sameButLog (resetGuardEffect w1) (resetGuardEffect w2).
Proof. by split_worlds. Qed.

Lemma subscriptionEffect_sameButLog now w1 w2 :
  sameButLog w1 w2 → sameButLog (subscriptionEffect now w1) (subscriptionEffect now w2).
Proof.
  split_worlds. unfold subscriptionEffect. cbn.
  destruct s2, (currentUser (env now)); cbn; repeat case_match; done.
Qed.

Lemma markAsReadEffect_sameButLog now w1 w2 :
  sameButLog w1 w2 → sameButLog (markAsReadEffect now w1) (markAsReadEffect now w2).
Proof. split_worlds. unfold markAsReadEffect. repeat case_match; done. Qed.

Lemma withRendered_sameButLog now w1 w2 :
  sameButLog w1 w2 → sameButLog (withRendered now w1) (withRendered now w2).
Proof. by split_worlds. Qed.

Lemma render_sameButLog e w1 w2 :
  sameButLog w1 w2 → sameButLog (render e w1) (render e w2).
Proof.
  intros Hsame. pose proof Hsame as (Hst & Hr & _).
  unfold render. rewrite Hst, Hr. cbn zeta.
  apply withRendered_sameButLog.
  repeat match goal with
  | |- sameButLog (if ?c then _ else _) (if ?c then _ else _) => destruct c
  | |- _ =>
      first [apply markAsReadEffect_sameButLog | apply subscriptionEffect_sameButLog
            | apply resetGuardEffect_sameButLog | apply settingsEffect_sameButLog]
  end; exact Hsame.
Qed.

Lemma step_sameButLog w1 w2 ev :
  leavesInflight ev = true → sameButLog w1 w2 →
  sameButLog (step translateText w1 ev) (step translateText w2 ev).
Proof.
  intros Hev.
  destruct ev as [e|unreadMsgs| |fetched|i| |en lang updated|lang|messageId|messageId deleted];
    try done; cbn [step].
  - apply render_sameButLog.
  - by split_worlds.
  - by split_worlds.
  - split_worlds. unfold deliver. cbn. repeat case_match; done.
  - split_worlds. unfold handleToggleTranslation. cbn. repeat case_match; done.
  - split_worlds. unfold handleSaveTranslationSettings. cbn. repeat case_match; done.
  - split_worlds. unfold handleLanguageChange. cbn. repeat case_match; done.
  - split_worlds. unfold handleDeleteLocalMessage. cbn. repeat case_match; done.
  - split_worlds. unfold handleDeleteMessageForEveryone. cbn. repeat case_match; done.
Qed.

Lemma run_sameButLog events : ∀ w1 w2,
  forallb leavesInflight events = true → sameButLog w1 w2 →
  sameButLog (run translateText events w1) (run translateText events w2).
Proof.
  induction events as [|ev events IH]; intros w1 w2 Hev Hsame; [done|].
  simpl in Hev. apply andb_true_iff in Hev as [Hev Hevs].
  simpl. apply IH; [done|]. by apply step_sameButLog.
Qed.

Lemma run_inflight events : ∀ w i batch,
  forallb leavesInflight events = true →
  inflight w !! i = Some batch → inflight (run translateText events w) !! i = Some batch.
Proof.
  induction events as [|ev events IH]; intros w i batch Hev Hi; [done|].
  simpl in Hev. apply andb_true_iff in Hev as [Hev Hevs].
  simpl. apply IH; [done|]. by apply step_inflight.
Qed.

(** X26: deleting a message for everyone asks the chat service and
    records nothing on this device.  The click changes nothing in view;
    when the call has settled, whatever was delivered, deleted or
    committed in between, the view becomes the list of the click without
    the message if the call succeeded, and stays as it would be without
    the click if it failed.  The ledger and the subscription are then
    those of the run without the click, so the batch published for a later
    delivery is the one computed as if nothing had been deleted, with the
    message in it if the service still delivers it. *)
Theorem delete_for_everyone_not_recorded w d messageId events :
  rendered w = Some d →
  forallb leavesInflight events = true →
  let clicked deleted := step translateText w (DeleteForEveryone messageId deleted) in
  let settled deleted :=
    run translateText (events ++ [TranslationsSettled (length (inflight w))])
      (clicked deleted) in
  let unclicked := run translateText events w in
  (∀ deleted,
     state (clicked deleted) = state w
     ∧ deletedMessages (clicked deleted) = deletedMessages w
     ∧ calls (clicked deleted) = calls w ++ [DeleteMessageForEveryone messageId])
  ∧ messages (state (settled (Resolved ())))
    = filter (λ msg, id msg ≠ messageId) (messages (state w))
  ∧ state (settled Rejected) = state unclicked
  ∧ (∀ deleted,
       deletedMessages (settled deleted) = deletedMessages unclicked
       ∧ subscription (settled deleted) = subscription unclicked)
  ∧ ∀ deleted s fetchedMessages batch,
      subscription unclicked = Some s →
      callback translateText s (deletedMessages unclicked) fetchedMessages = Resolved batch →
      messages (state (run translateText
                         [MessagesDelivered fetchedMessages;
                          TranslationsSettled (length (inflight (settled deleted)))]
                         (settled deleted)))
      = batch.
Proof.
  intros Hd Hev. cbn zeta.
  assert (Hclick : ∀ deleted,
    let w1 := step translateText w (DeleteForEveryone messageId deleted) in
    state w1 = state w ∧ deletedMessages w1 = deletedMessages w
    ∧ calls w1 = calls w ++ [DeleteMessageForEveryone messageId]
    ∧ sameButLog w1 w
    ∧ inflight w1 !! length (inflight w)
      = Some (await deleted (λ _,
              Resolved (filter (λ msg, id msg ≠ messageId) (messages (state w)))))).
  { intros deleted. cbn [step]. unfold handleDeleteMessageForEveryone. rewrite Hd.
    simpl. split_and!; try done. unfold push. by rewrite list_lookup_middle. }
  assert (Hsettled : ∀ deleted,
    let w1 := step translateText w (DeleteForEveryone messageId deleted) in
    let w2 := run translateText (events ++ [TranslationsSettled (length (inflight w))]) w1 in
    (match deleted with
     | Resolved _ =>
         messages (state w2) = filter (λ msg, id msg ≠ messageId) (messages (state w))
     | Rejected => state w2 = state (run translateText events w)
     end)
    ∧ deletedMessages w2 = deletedMessages (run translateText events w)
    ∧ subscription w2 = subscription (run translateText events w)).
  { intros deleted. cbn zeta.
    destruct (Hclick deleted) as (_ & _ & _ & Hsame & Hi).
    apply (run_sameButLog events _ _ Hev) in Hsame as (Hst & _ & Hs & Hl).
    apply (run_inflight events _ _ _ Hev) in Hi.
    rewrite run_app.
    change (run translateText [TranslationsSettled (length (inflight w))] ?x)
      with (settle (length (inflight w)) x).
    unfold settle. rewrite Hi.
    destruct deleted as [[]|]; simpl; done. }
  split; [intros deleted; by destruct (Hclick deleted) as (? & ? & ? & _)|].
  split; [exact (proj1 (Hsettled (Resolved ())))|].
  split; [exact (proj1 (Hsettled Rejected))|].
  split; [intros deleted; exact (proj2 (Hsettled deleted))|].
  intros deleted s fetched batch Hs Hbatch.
  destruct (Hsettled deleted) as (_ & Hl & Hsub). cbn zeta in Hl, Hsub.
  match goal with
  | |- context [run translateText [MessagesDelivered fetched; TranslationsSettled ?n] ?x] =>
      change (run translateText [MessagesDelivered fetched; TranslationsSettled n] x)
        with (settle n (deliver translateText fetched x))
  end.
  unfold deliver. rewrite Hsub, Hs, Hl, Hbatch.
  destruct (subTranslationEnabled s); unfold settle; simpl.
  - unfold push. by rewrite list_lookup_middle.
  - by rewrite lookup_ge_None_2.
Qed.

End DeleteForEveryoneFacts.

(** ** Samples for the further properties *)

Section SamplesMore.
Import JS Types DeletionService ChatWindow Display Sample SampleMore.

Lemma saved_settings_after_second_commit_witness :
  let w := initialWorld false "es" ∅ in
  (∀ d, rendered w = Some d → chatId (env d) ≠ chatId windowTranslating)
  ∧ currentUser windowTranslating = Some (mkObj 1%nat alice)
  ∧ chatId windowTranslating ≠ EmptyString
  ∧ subscription (render windowTranslating w)
    = Some (mkSubscription "c1" ∅ false "es" alice)
  ∧ subscription (render windowTranslating (render windowTranslating w))
    = Some (mkSubscription "c1" ∅ true "en" alice).
Proof.
  intros w.
  assert (Hopen : ∀ d, rendered w = Some d → chatId (env d) ≠ chatId windowTranslating)
    by discriminate.
  assert (Hc : chatId windowTranslating ≠ EmptyString) by discriminate.
  destruct (saved_settings_after_second_commit w windowTranslating (mkObj 1%nat alice)
              Hopen eq_refl Hc) as (_ & _ & H1 & H2 & _).
  exact (conj Hopen (conj eq_refl (conj Hc (conj H1 H2)))).
Defined.

Lemma awaited_batch_published_witness :
  let w :=
    run translator
      [Render windowTranslating; Render windowTranslating; MessagesDelivered [m1]]
      (initialWorld false "en" ∅) in
  let events := [DeleteLocalMessage "m1"; Render windowOther; MessagesDelivered []] in
  inflight w !! 0%nat = Some (Resolved [withTranslatedText m1 "Hello"])
  ∧ forallb Protocol.leavesInflight events = true
  ∧ messages (state (run translator (events ++ [TranslationsSettled 0]) w))
    = [withTranslatedText m1 "Hello"].
Proof.
  intros w events.
  assert (Hi : inflight w !! 0%nat = Some (Resolved [withTranslatedText m1 "Hello"]))
    by (vm_compute; reflexivity).
  exact (conj Hi (conj eq_refl
           (awaited_batch_published translator w 0 _ events Hi eq_refl))).
Defined.

Lemma delivered_display_witness :
  let w := run translator [Render windowBlocking] (initialWorld false "en" ∅) in
  let s := mkSubscription "c1" {["carol"%string]} false "en" alice in
  subscription w = Some s
  ∧ callback translator s (deletedMessages w) history = Resolved history
  ∧ ∃ out,
      display ist
        (run translator [MessagesDelivered history; TranslationsSettled 0] w) = Some out
      ∧ messagesOf out = history.
Proof.
  intros w s.
  assert (Hs : subscription w = Some s) by (vm_compute; reflexivity).
  assert (Hb : callback translator s (deletedMessages w) history = Resolved history)
    by (vm_compute; reflexivity).
  destruct (delivered_display translator ist w s history history Hs Hb)
    as (out & Hout & _ & Hoff).
  split; [exact Hs|]. split; [exact Hb|]. exists out. split; [exact Hout|].
  rewrite (Hoff eq_refl). vm_compute. reflexivity.
Defined.

Lemma input_enabled_when_idle_witness :
  let events :=
    [Composer.Window (Render window); Composer.SendMedia photo;
     Composer.ValidationSettled 0 (Resolved (Composer.mkSendValidation true None));
     Composer.UploadSettled 0 (Resolved "https://media/cat.png"%string);
     Composer.SendSettled 0 Rejected] in
  let k :=
    Composer.run trim validateMediaFile getMediaType translator events
      (Composer.initialDesk false "en" ∅) in
  existsb Composer.isUploading (Composer.pending k) = false
  ∧ Composer.outbox k
    = [Composer.CanSendMessage "alice" "bob"; Composer.UploadMedia photo "alice" "c1";
       Composer.SendMessage "c1" "alice" "bob" None (Some "https://media/cat.png"%string)
         (Some "image"%string) (Some "cat.png"%string) (Some 2048) None "Bob" None;
       Composer.Alert (Some "Failed to upload media"%string)]
  ∧ uploading (state (Composer.world k)) = false.
Proof.
  intros events k.
  assert (Hidle : existsb Composer.isUploading (Composer.pending k) = false)
    by (vm_compute; reflexivity).
  split; [exact Hidle|]. split; [vm_compute; reflexivity|].
  exact (input_enabled_when_idle trim validateMediaFile getMediaType translator events
           false "en"%string ∅ Hidle).
Defined.

Lemma send_closes_over_click_witness :
  let k :=
    Composer.run trim validateMediaFile getMediaType translator
      [Composer.Window (Render window); Composer.Window (MessagesDelivered history);
       Composer.ReplyTo "m1"]
      (Composer.initialDesk false "en" ∅) in
  let events :=
    [Composer.CancelReply; Composer.ReplyTo "m3";
     Composer.Window (DeleteLocalMessage "m1"); Composer.Window (Render windowOther)] in
  rendered (Composer.world k) = Some (mkDeps window false "en")
  ∧ trim " hola " ≠ EmptyString
  ∧ forallb Composer.settlesNothing events = true
  ∧ Composer.outbox
      (Composer.run trim validateMediaFile getMediaType translator
         (Composer.SendText " hola " :: events
          ++ [Composer.ValidationSettled (length (Composer.pending k))
                (Resolved (Composer.mkSendValidation true None))]) k)
    = [Composer.CanSendMessage "alice" "bob";
       Composer.SendMessage "c1" "alice" "bob" (Some " hola "%string) None None None None
         (Some "m1"%string) "Bob" (Some "Hola"%string)].
Proof.
  intros k events.
  assert (Hd : rendered (Composer.world k) = Some (mkDeps window false "en"))
    by (vm_compute; reflexivity).
  assert (Ht : trim " hola " ≠ EmptyString) by (vm_compute; discriminate).
  split; [exact Hd|]. split; [exact Ht|]. split; [reflexivity|].
  rewrite (send_closes_over_click trim validateMediaFile getMediaType translator k
             (mkDeps window false "en") (mkObj 1%nat alice) " hola "%string events
             (Composer.mkSendValidation true None) Hd eq_refl Ht eq_refl eq_refl).
  vm_compute. reflexivity.
Defined.

Lemma published_list_exact_witness :
  ChatList.onChats users chatHasMessages unreadCounts alice
    [chatWithBob; chatUnused; chatDeleted; chatWithBob]
  = Resolved [rowBob; rowBob]
  ∧ ChatList.chat <$> [rowBob; rowBob] = [chatWithBob; chatWithBob].
Proof.
  assert (H : ChatList.onChats users chatHasMessages unreadCounts alice
                [chatWithBob; chatUnused; chatDeleted; chatWithBob]
              = Resolved [rowBob; rowBob]) by (vm_compute; reflexivity).
  split; [exact H|].
  rewrite (published_list_exact users chatHasMessages unreadCounts alice _ _ H).
  vm_compute. reflexivity.
Defined.

Lemma listed_chat_badge_witness :
  ChatList.onChats users chatHasMessages unreadCounts alice [chatWithBob]
  = Resolved [rowBob]
  ∧ rowBob ∈ [rowBob]
  ∧ ChatListView.unreadBadge rowBob = ChatListView.ShowsBadge (inr 2).
Proof.
  assert (H : ChatList.onChats users chatHasMessages unreadCounts alice [chatWithBob]
              = Resolved [rowBob]) by (vm_compute; reflexivity).
  assert (Hin : rowBob ∈ [rowBob]) by (apply elem_of_cons; left; reflexivity).
  split; [exact H|]. split; [exact Hin|].
  destruct (listed_chat_badge users chatHasMessages unreadCounts alice _ _ rowBob H Hin)
    as (n & Hn & _ & _ & Hbadge & _).
  assert (n = 2) as -> by (vm_compute in Hn; congruence).
  apply Hbadge. lia.
Defined.

Lemma block_twice_restores_witness :
  let w :=
    ChatListView.run Z users chatHasMessages unreadCounts
      [ChatListView.Render Z signedIn] (ChatListView.initialWorld Z) in
  let twice :=
    ChatListView.run Z users chatHasMessages unreadCounts
      [ChatListView.BlockUserClick Z rowBob; ChatListView.BlockSettled Z 1 (Resolved ());
       ChatListView.BlockUserClick Z rowBob; ChatListView.BlockSettled Z 1 (Resolved ())] w in
  ChatListView.rendered Z w = Some signedIn
  ∧ ChatListView.currentUser signedIn = Some (mkObj 1%nat alice)
  ∧ ChatListView.blockedUsers Z (ChatListView.state Z twice)
    = ChatListView.blockedUsers Z (ChatListView.state Z w)
  ∧ ChatListView.calls Z twice
    = [ChatListView.GetAllUsers; ChatListView.GetUserChats "alice";
       ChatListView.BlockUser "alice" "bob"; ChatListView.UnblockUser "alice" "bob"].
Proof.
  intros w twice.
  destruct (block_twice_restores Z users chatHasMessages unreadCounts w signedIn
              (mkObj 1%nat alice) rowBob eq_refl eq_refl) as (H1 & H2 & _).
  split; [reflexivity|]. split; [reflexivity|]. split; [exact H1|].
  etrans; [exact H2|]. vm_compute. reflexivity.
Defined.

Lemma delete_chat_publishes_click_list_witness :
  let w :=
    ChatListView.run Z users chatHasMessages unreadCounts
      [ChatListView.Render Z signedIn; ChatListView.ChatsDelivered Z [chatWithBob];
       ChatListView.ChatsSettled Z 1] (ChatListView.initialWorld Z) in
  let events :=
    [ChatListView.ChatsDelivered Z [chatWithBob; chatWithBob]; ChatListView.ChatsSettled Z 2]
  in
  ChatListView.rendered Z w = Some signedIn
  ∧ ChatListView.chats Z (ChatListView.state Z w) = [rowBob]
  ∧ forallb (ChatListView.settlesAfter (length (ChatListView.pending Z w))) events = true
  ∧ ChatListView.chats Z (ChatListView.state Z
      (ChatListView.run Z users chatHasMessages unreadCounts
         (ChatListView.DeleteChatClick Z "c1" :: events) w))
    = [rowBob; rowBob]
  ∧ ChatListView.chats Z (ChatListView.state Z
      (ChatListView.run Z users chatHasMessages unreadCounts
         (ChatListView.DeleteChatClick Z "c1" :: events
          ++ [ChatListView.ChatDeleted Z (length (ChatListView.pending Z w)) (Resolved ())])
         w))
    = [].
Proof.
  intros w events.
  assert (Hev : forallb (ChatListView.settlesAfter (length (ChatListView.pending Z w)))
                  events = true) by (vm_compute; reflexivity).
  split; [reflexivity|]. split; [vm_compute; reflexivity|]. split; [exact Hev|].
  split; [vm_compute; reflexivity|].
  rewrite (delete_chat_publishes_click_list Z users chatHasMessages unreadCounts w signedIn
             (mkObj 1%nat alice) "c1"%string events eq_refl eq_refl Hev).
  vm_compute. reflexivity.
Defined.

Lemma started_from_users_list_witness :
  let w :=
    ChatListView.run Z users chatHasMessages unreadCounts
      [ChatListView.Render Z signedIn] (ChatListView.initialWorld Z) in
  let w' := ChatListView.usersSettled Z 0 (Resolved [alice; bob]) w in
  ChatListView.pending Z w !! 0%nat = Some (ChatListView.FetchingUsers alice)
  ∧ ChatListView.users Z (ChatListView.state Z w') = [bob]
  ∧ ChatListView.blockedUsers Z (ChatListView.state Z w') = ∅
  ∧ List.find (λ id, negb (bool_decide (id = uid alice)))
      (ChatList.participants
         (ChatList.chat
            (ChatListView.startedChat alice bob "c7" (mkDate (Num 1704189600000)))))
    = Some "bob"%string.
Proof.
  intros w w'.
  assert (Hi : ChatListView.pending Z w !! 0%nat = Some (ChatListView.FetchingUsers alice))
    by reflexivity.
  destruct (started_from_users_list Z w 0 alice [alice; bob] Hi) as (Hu & Hb & Hstart).
  assert (Hin : bob ∈ ChatListView.users Z (ChatListView.state Z w')).
  { unfold w'. rewrite Hu. vm_compute. apply elem_of_cons. by left. }
  destruct (Hstart bob "c7"%string (mkDate (Num 1704189600000)) Hin) as (Hfind & _).
  split; [exact Hi|]. split; [unfold w'; rewrite Hu; vm_compute; reflexivity|].
  split; [unfold w'; rewrite Hb; vm_compute; reflexivity|]. exact Hfind.
Defined.

Lemma saved_choice_kept_witness :
  let w := run translator [Render window] (initialWorld false "en" ∅) in
  let events :=
    [MessagesDelivered history; Render windowBlocking; DeleteLocalMessage "m1"] in
  let w' :=
    run translator events
      (handleSaveTranslationSettings true "fr" (Resolved ()) w) in
  rendered w = Some (mkDeps window false "en")
  ∧ forallb (Choice.keepsChoice "c1" 3) events = true
  ∧ translationEnabled (state w') = true
  ∧ targetLanguage (state w') = "fr"%string
  ∧ subscription (render windowBlocking w')
    = Some (mkSubscription "c1" {["carol"%string]} true "fr" alice).
Proof.
  intros w events w'.
  assert (Hclosed : Protocol.closedOverRendered w).
  { unfold Protocol.closedOverRendered. simpl.
    split; [by eexists|]. split; [discriminate|]. done. }
  destruct (saved_choice_kept translator w (mkDeps window false "en") (mkObj 1%nat alice)
              true "fr"%string (Resolved ()) events Hclosed eq_refl eq_refl eq_refl)
    as (_ & Hte & Htl & _).
  split; [reflexivity|]. split; [reflexivity|]. split; [exact Hte|]. split; [exact Htl|].
  vm_compute. reflexivity.
Defined.

Lemma delete_for_everyone_not_recorded_witness :
  let w :=
    run translator [Render window; MessagesDelivered history] (initialWorld false "en" ∅) in
  let s := mkSubscription "c1" ∅ false "en" alice in
  let clicked := step translator w (DeleteForEveryone "m2" (Resolved ())) in
  let delivered := run translator [MessagesDelivered [m1; m3; n1]] clicked in
  let settled := run translator [TranslationsSettled 0] delivered in
  messages (state w) = history
  ∧ messages (state clicked) = history
  ∧ messages (state delivered) = [m1; m3; n1]
  ∧ messages (state settled) = [m1; m3]
  ∧ subscription (run translator [MessagesDelivered [m1; m3; n1]] w) = Some s
  ∧ callback translator s
      (deletedMessages (run translator [MessagesDelivered [m1; m3; n1]] w)) history
    = Resolved history
  ∧ messages (state (run translator
                       [MessagesDelivered history;
                        TranslationsSettled (length (inflight settled))] settled))
    = history.
Proof.
  intros w s clicked delivered settled.
  assert (Hs : subscription (run translator [MessagesDelivered [m1; m3; n1]] w) = Some s)
    by (vm_compute; reflexivity).
  assert (Hb : callback translator s
                 (deletedMessages (run translator [MessagesDelivered [m1; m3; n1]] w))
                 history
               = Resolved history)
    by (vm_compute; reflexivity).
  destruct (delete_for_everyone_not_recorded translator w (mkDeps window false "en")
              "m2"%string [MessagesDelivered [m1; m3; n1]] eq_refl eq_refl)
    as (H1 & H2 & _ & _ & H5).
  split; [vm_compute; reflexivity|].
  split; [etrans; [exact (f_equal messages (proj1 (H1 (Resolved ()))))|];
          vm_compute; reflexivity|].
  split; [vm_compute; reflexivity|].
  split; [etrans; [exact H2|]; vm_compute; reflexivity|].
  split; [exact Hs|]. split; [exact Hb|].
  exact (H5 (Resolved ()) s history history Hs Hb).
Defined.
Lemma translation_change_announced_witness :
  let w :=
    run translator [Render windowTranslating; Render windowTranslating]
      (initialWorld false "en" ∅) in
  let w' := step translator w ToggleTranslation in
  rendered w = Some (mkDeps windowTranslating true "en")
  ∧ translationEnabled (state w) = true
  ∧ translationEnabled (state w') = false
  ∧ calls w' = calls w ++ [UpdateTranslationSettings "c1" "alice" false "en"].
Proof.
  intros w w'.
  assert (Hne : (translationEnabled (state w'), targetLanguage (state w'))
                ≠ (translationEnabled (state w), targetLanguage (state w)))
    by (vm_compute; discriminate).
  assert (Hev : ∀ e, ToggleTranslation ≠ Render e) by discriminate.
  pose proof (translation_change_announced translator w (mkDeps windowTranslating true "en")
                (mkObj 1%nat alice) ToggleTranslation eq_refl eq_refl Hev Hne) as H.
  split; [reflexivity|]. split; [reflexivity|]. split; [reflexivity|].
  etrans; [exact H|]. vm_compute. reflexivity.
Defined.

Lemma context_settings_override_witness :
  let w :=
    run translator [Render windowTranslating; Render windowTranslating; ToggleTranslation]
      (initialWorld false "en" ∅) in
  rendered w = Some (mkDeps windowTranslating true "en")
  ∧ translationEnabled (state w) = false
  ∧ (translationEnabled (state (render windowNewContext w)),
     targetLanguage (state (render windowNewContext w)))
    = (true, "en"%string).
Proof.
  intros w.
  pose proof (context_settings_override w (mkDeps windowTranslating true "en")
                windowNewContext eq_refl) as H.
  split; [reflexivity|]. split; [reflexivity|].
  etrans; [exact H|]. vm_compute. reflexivity.
Defined.




(** C9, the claim as stated fails: the same three messages, none unread,
    are displayed under one date marker on a host on Greenwich time and
    under two on a host an hour west of it, where the third message is on
    the next local day. *)
Lemma display_depends_on_time_zone_counterexample :
  let w :=
    run translator [Render window; MessagesDelivered [n1; n2; n3]]
      (initialWorld false "en" ∅) in
  display utc w = Some [ItemDate (timestamp n1); ItemMessage n1; ItemMessage n2; ItemMessage n3]
  ∧ display azores w
    = Some [ItemDate (timestamp n1); ItemMessage n1; ItemMessage n2;
            ItemDate (timestamp n3); ItemMessage n3]
  ∧ ¬ (∀ zone1 zone2 w1 w2,
         messages (state w1) = messages (state w2) →
         unreadMessageIds (state w1) = unreadMessageIds (state w2) →
         display zone1 w1 = display zone2 w2).
Proof.
  intros w.
  assert (H1 : display utc w
               = Some [ItemDate (timestamp n1); ItemMessage n1; ItemMessage n2;
                       ItemMessage n3]) by (vm_compute; reflexivity).
  assert (H2 : display azores w
               = Some [ItemDate (timestamp n1); ItemMessage n1; ItemMessage n2;
                       ItemDate (timestamp n3); ItemMessage n3])
    by (vm_compute; reflexivity).
  split; [exact H1|]. split; [exact H2|].
  intros H. specialize (H utc azores w w eq_refl eq_refl).
  rewrite H1, H2 in H. discriminate.
Qed.

Lemma display_deterministic_witness :
  let w1 :=
    run translator [Render window; MessagesDelivered history; UnreadMessagesResolved [m2]]
      (initialWorld false "en" ∅) in
  let w2 :=
    run translator
      [Render window; UnreadMessagesResolved [m2; n1]; Render windowBlocking;
       MessagesDelivered history; ToggleTranslation]
      (initialWorld false "fr" ∅) in
  messages (state w1) = messages (state w2)
  ∧ unreadMessageIds (state w1) ≠ unreadMessageIds (state w2)
  ∧ display utc w1 = display ist w2
  ∧ display ist w2
    = Some [ItemDate (timestamp m1); ItemMessage m1; ItemUnread; ItemMessage m2;
            ItemDate (timestamp m3); ItemMessage m3].
Proof.
  intros w1 w2.
  assert (Hm : messages (state w1) = messages (state w2)) by (vm_compute; reflexivity).
  assert (Hne : unreadMessageIds (state w1) ≠ unreadMessageIds (state w2)).
  { intros Heq.
    assert (Hin : id n1 ∈ unreadMessageIds (state w2)) by (vm_compute; reflexivity).
    rewrite <- Heq in Hin. vm_compute in Hin. discriminate. }
  assert (Hu : ∀ m, m ∈ messages (state w1) →
                    id m ∈ unreadMessageIds (state w1) ↔ id m ∈ unreadMessageIds (state w2)).
  { intros m Hin.
    assert (Hcases : m = m1 ∨ m = m2 ∨ m = m3).
    { vm_compute in Hin. repeat (apply elem_of_cons in Hin as [Hin|Hin]; [by eauto|]).
      by apply elem_of_nil in Hin. }
    destruct Hcases as [-> | [-> | ->]]; split; intros H; vm_compute in H |- *; done. }
  assert (Hd : ∀ i p m, messages (state w1) !! i = Some p →
                        messages (state w1) !! S i = Some m →
                        isSameDay utc (timestamp p) (timestamp m)
                        = isSameDay ist (timestamp p) (timestamp m)).
  { intros [|[|[|i]]] p m Hp Hm'; vm_compute in Hp, Hm'; simplify_eq;
      vm_compute; reflexivity. }
  split; [exact Hm|]. split; [exact Hne|].
  split; [exact (display_deterministic utc ist w1 w2 Hm Hu Hd)|].
  vm_compute. reflexivity.
Defined.
End SamplesMore.
